(** * mail-serv-backend: chunked upload reassembly and the send pipeline

    A shallow embedding of [src/index.ts] and [src/db/db.ts].

    - [JsString], [NodePath]: the string and path primitives the handlers use
      ([split]/[slice]/[join], [toLowerCase], [path.basename],
      [path.extname], [path.join], template literals, base64).
    - [Db]: the two SQLite relations of [db.ts] and its exported operations.
    - [Server]: the file system, the request handlers of [index.ts] and the
      operations of the service as one step function.
    - [Example], [Shapes], [Requests], [Example2]: sample data and the values
      the statements speak of.
    - [Deferred]: [/upload/complete] up to its reply, and its write stream
      run afterwards.

    The handlers are written with explicit state passing over a [World]:
    the file system, the database and a trace of the calls made to the
    delivery provider and of the status updates. *)

From Stdlib Require Import ZArith Lia List.
From Stdlib Require Import Strings.String Strings.Ascii Strings.Byte.
From Stdlib Require Import Numbers.DecimalString Numbers.DecimalZ.
From Stdlib Require Import Sorting.Sorted Sorting.Permutation.
From stdpp Require Import base strings gmap list.

Open Scope Z_scope.
Open Scope string_scope.
Open Scope list_scope.

(** ** JavaScript string primitives *)

Module JsString.

(** A value of a request field that is a string when present: [!v] holds
    for [undefined] and for the empty string. *)
Definition truthy_str (v : option string) : bool :=
  match v with
  | None => false
  | Some "" => false
  | Some _ => true
  end.

(** [a || b] on a possibly undefined string. *)
Definition js_or (a : option string) (b : string) : string :=
  if truthy_str a then default b a else b.

(** [s.split(sep)] for a one-character separator: never the empty list. *)
Fixpoint split (sep : ascii) (s : string) : list string :=
  match s with
  | EmptyString => [""]
  | String c r =>
      if Ascii.eqb c sep then "" :: split sep r
      else match split sep r with
           | h :: t => String c h :: t
           | [] => [String c ""]
           end
  end.

Definition no_dash (s : string) : bool :=
  forallb (fun c => negb (Ascii.eqb c "-"%char)) (list_ascii_of_string s).

(** [l.slice(1)] *)
Definition slice1 {A} (l : list A) : list A := tail l.

(** [l.join(sep)] *)
Definition join (sep : string) (l : list string) : string :=
  String.concat sep l.

Definition lower_ascii (c : ascii) : ascii :=
  let n := nat_of_ascii c in
  if (Nat.leb 65 n && Nat.leb n 90)%bool then ascii_of_nat (n + 32) else c.

(** [s.toLowerCase()]. Outside ASCII the only code points whose lower case
    is an ASCII letter are U+212A (to k) and, with a combining mark,
    U+0130 (to i); on the one-byte characters of [string] the function is
    the ASCII one. *)
Fixpoint toLowerCase (s : string) : string :=
  match s with
  | EmptyString => EmptyString
  | String c r => String (lower_ascii c) (toLowerCase r)
  end.

(** [`${z}`] for an integer: decimal digits, a leading minus sign. This is
    what JavaScript prints for the integers a number holds exactly, below
    2^53 in absolute value; larger numerals are rounded by [parseInt], and
    from 1e21 on a number prints in exponent form. *)
Definition of_Z (z : Z) : string :=
  NilEmpty.string_of_int (Z.to_int z).

Definition b64_alphabet : string :=
  "ABCDEFGHIJKLMNOPQRSTUVWXYZabcdefghijklmnopqrstuvwxyz0123456789+/".

Definition b64_char (n : N) : ascii :=
  match String.get (N.to_nat n) b64_alphabet with
  | Some c => c
  | None => "="%char
  end.

(** [buf.toString("base64")]: three bytes give four characters, the last
    group is padded with [=]. *)
Fixpoint base64 (bs : list byte) : string :=
  match bs with
  | [] => ""
  | [a] =>
      let x := Byte.to_N a in
      String (b64_char (N.shiftr x 2))
        (String (b64_char (N.shiftl (N.land x 3) 4)) "==")
  | [a; b] =>
      let x := Byte.to_N a in
      let y := Byte.to_N b in
      String (b64_char (N.shiftr x 2))
        (String (b64_char (N.lor (N.shiftl (N.land x 3) 4) (N.shiftr y 4)))
           (String (b64_char (N.shiftl (N.land y 15) 2)) "="))
  | a :: b :: c :: rest =>
      let x := Byte.to_N a in
      let y := Byte.to_N b in
      let z := Byte.to_N c in
      String (b64_char (N.shiftr x 2))
        (String (b64_char (N.lor (N.shiftl (N.land x 3) 4) (N.shiftr y 4)))
           (String (b64_char (N.lor (N.shiftl (N.land y 15) 2) (N.shiftr z 6)))
              (String (b64_char (N.land z 63)) (base64 rest))))
  end.

End JsString.

(** ** Node's [path] module (POSIX flavour) *)

Module NodePath.

Definition is_slash (c : ascii) : bool := Ascii.eqb c "/"%char.
Definition is_dot (c : ascii) : bool := Ascii.eqb c "."%char.

Fixpoint drop_while (p : ascii -> bool) (l : list ascii) : list ascii :=
  match l with
  | [] => []
  | c :: r => if p c then drop_while p r else l
  end.

Fixpoint take_while (p : ascii -> bool) (l : list ascii) : list ascii :=
  match l with
  | [] => []
  | c :: r => if p c then c :: take_while p r else []
  end.

(** The last path segment, read from the end of the path: trailing
    slashes are skipped, then everything up to the previous slash. *)
Definition basename_rev (p : string) : list ascii :=
  take_while (fun c => negb (is_slash c))
    (drop_while is_slash (rev (list_ascii_of_string p))).

(** [path.basename(p)] *)
Definition basename (p : string) : string :=
  string_of_list_ascii (rev (basename_rev p)).

(** [path.extname(p)]: from the last dot of the basename to its end; empty
    when there is no dot, when the only dot opens the basename, and for
    the basename [..]. *)
Definition extname (p : string) : string :=
  let rb := basename_rev p in
  let ext_rev := take_while (fun c => negb (is_dot c)) rb in
  match drop_while (fun c => negb (is_dot c)) rb with
  | [] => ""
  | _dot :: stem_rev =>
      match stem_rev, ext_rev with
      | [], _ => ""
      | [c], [] => if is_dot c then "" else "."
      | _, _ => string_of_list_ascii ("."%char :: rev ext_rev)
      end
  end.

(** [path.join(a, b)] for a normalised [a] and a [b] that is one path
    segment: no slash in it, and neither [.] nor [..]. The handlers build
    every path of the staging area this way. *)
Definition join (a b : string) : string := a +:+ "/" +:+ b.

Definition no_slash (s : string) : bool :=
  forallb (fun c => negb (is_slash c)) (list_ascii_of_string s).

(** A single path segment, the inputs for which [join] is Node's. *)
Definition segment (s : string) : bool :=
  negb (String.eqb s "") && negb (String.eqb s ".") && negb (String.eqb s "..")
  && no_slash s.

End NodePath.

(** ** AttachmentResolver: display file name and content type *)

Module Resolver.
Import JsString.

(** The table of [getMimeType], in the order of the source. *)
Definition mimeTypes : list (string * string) :=
  [ (".jpg", "image/jpeg");
    (".jpeg", "image/jpeg");
    (".png", "image/png");
    (".gif", "image/gif");
    (".pdf", "application/pdf");
    (".doc", "application/msword");
    (".docx", "application/vnd.openxmlformats-officedocument.wordprocessingml.document");
    (".xls", "application/vnd.ms-excel");
    (".xlsx", "application/vnd.openxmlformats-officedocument.spreadsheetml.sheet");
    (".txt", "text/plain");
    (".zip", "application/zip");
    (".mp3", "audio/mpeg");
    (".mp4", "video/mp4") ].

(** [mimeTypes[extension]], [None] for [undefined]. *)
Fixpoint table_get (k : string) (t : list (string * string)) : option string :=
  match t with
  | [] => None
  | (k', v) :: r => if String.eqb k k' then Some v else table_get k r
  end.

Definition octet_stream : string := "application/octet-stream".

Definition getMimeType (filePath : string) : string :=
  let extension := toLowerCase (NodePath.extname filePath) in
  js_or (table_get extension mimeTypes) octet_stream.

(** [path.basename(filePath).split("-").slice(1).join("-")] *)
Definition fileNameOf (filePath : string) : string :=
  join "-" (slice1 (split "-"%char (NodePath.basename filePath))).

(** The name multer's [diskStorage] gives a directly uploaded file. *)
Definition multer_filename (fieldname : string) (now rnd : Z) (originalname : string) : string :=
  let uniqueSuffix := of_Z now +:+ "-" +:+ of_Z rnd in
  fieldname +:+ "-" +:+ uniqueSuffix +:+ "-" +:+ originalname.

End Resolver.

(** ** The record store of [db.ts] *)

Module Db.

Inductive Status := pending | sent | failed.

Definition Status_eqb (a b : Status) : bool :=
  match a, b with
  | pending, pending | sent, sent | failed, failed => true
  | _, _ => false
  end.

Definition terminal (s : Status) : bool := negb (Status_eqb s pending).

(** [interface Email]: [id] and [sentAt] are optional, the store sets
    them. *)
Record Email := mkEmail {
  id : option Z;
  sender : string;
  recipients : list string;
  subject : string;
  body : string;
  sentAt : option Z;
  status : Status
}.

(** [interface Attachment] *)
Record Attachment := mkAttachment {
  att_id : option Z;
  emailId : Z;
  filename : string;
  content : list byte;
  contentType : string
}.

(** A row of [emails]. The [recipients] column holds the JSON text of the
    list; the row keeps the list that [JSON.parse] gives back. *)
Record EmailRow := mkEmailRow {
  row_id : Z;
  row_sender : string;
  row_recipients : list string;
  row_subject : string;
  row_body : string;
  row_sent_at : Z;
  row_status : Status
}.

(** A row of [attachments]. *)
Record AttachmentRow := mkAttachmentRow {
  arow_id : Z;
  arow_email_id : Z;
  arow_filename : string;
  arow_content : list byte;
  arow_content_type : string
}.

(** The two relations, each with the largest key AUTOINCREMENT has handed
    out so far. *)
Record Database := mkDatabase {
  emails : list EmailRow;
  emails_seq : Z;
  attachments : list AttachmentRow;
  attachments_seq : Z
}.

(** The tables right after [CREATE TABLE IF NOT EXISTS] on a new file. *)
Definition empty : Database :=
  {| emails := []; emails_seq := 0; attachments := []; attachments_seq := 0 |}.

Definition email_of_row (r : EmailRow) : Email :=
  {| id := Some (row_id r);
     sender := row_sender r;
     recipients := row_recipients r;
     subject := row_subject r;
     body := row_body r;
     sentAt := Some (row_sent_at r);
     status := row_status r |}.

Definition attachment_of_row (r : AttachmentRow) : Attachment :=
  {| att_id := Some (arow_id r);
     emailId := arow_email_id r;
     filename := arow_filename r;
     content := arow_content r;
     contentType := arow_content_type r |}.

(** [saveEmail]: the INSERT names neither [id] nor [sent_at]; the first is
    the next key, the second the current time [now]. *)
Definition saveEmail (now : Z) (email : Email) (db : Database) : Z * Database :=
  let lastInsertRowid := emails_seq db + 1 in
  let row := {| row_id := lastInsertRowid;
                row_sender := sender email;
                row_recipients := recipients email;
                row_subject := subject email;
                row_body := body email;
                row_sent_at := now;
                row_status := status email |} in
  (lastInsertRowid,
   {| emails := emails db ++ [row];
      emails_seq := lastInsertRowid;
      attachments := attachments db;
      attachments_seq := attachments_seq db |}).

Definition set_status (st : Status) (r : EmailRow) : EmailRow :=
  {| row_id := row_id r;
     row_sender := row_sender r;
     row_recipients := row_recipients r;
     row_subject := row_subject r;
     row_body := row_body r;
     row_sent_at := row_sent_at r;
     row_status := st |}.

(** [updateEmailStatus]: UPDATE emails SET status = ? WHERE id = ? *)
Definition updateEmailStatus (i : Z) (st : Status) (db : Database) : Database :=
  {| emails := map (fun r => if Z.eqb (row_id r) i then set_status st r else r) (emails db);
     emails_seq := emails_seq db;
     attachments := attachments db;
     attachments_seq := attachments_seq db |}.

(** ORDER BY sent_at DESC, as an insertion into a descending list. *)
Fixpoint insert_desc (r : EmailRow) (l : list EmailRow) : list EmailRow :=
  match l with
  | [] => [r]
  | x :: l' =>
      if Z.leb (row_sent_at x) (row_sent_at r) then r :: l
      else x :: insert_desc r l'
  end.

Definition order_by_sent_at_desc (l : list EmailRow) : list EmailRow :=
  fold_right insert_desc [] l.

(** [getEmails] *)
Definition getEmails (db : Database) : list Email :=
  map email_of_row (order_by_sent_at_desc (emails db)).

Definition find_row (i : Z) (db : Database) : option EmailRow :=
  find (fun r => Z.eqb (row_id r) i) (emails db).

(** [getEmailById] *)
Definition getEmailById (i : Z) (db : Database) : option Email :=
  option_map email_of_row (find_row i db).

(** [saveAttachment] *)
Definition saveAttachment (a : Attachment) (db : Database) : Z * Database :=
  let lastInsertRowid := attachments_seq db + 1 in
  let row := {| arow_id := lastInsertRowid;
                arow_email_id := emailId a;
                arow_filename := filename a;
                arow_content := content a;
                arow_content_type := contentType a |} in
  (lastInsertRowid,
   {| emails := emails db;
      emails_seq := emails_seq db;
      attachments := attachments db ++ [row];
      attachments_seq := lastInsertRowid |}).

(** [getAttachmentsByEmailId] *)
Definition getAttachmentsByEmailId (e : Z) (db : Database) : list Attachment :=
  map attachment_of_row
    (List.filter (fun r => Z.eqb (arow_email_id r) e) (attachments db)).

(** [deleteAttachmentsByEmailId] *)
Definition deleteAttachmentsByEmailId (e : Z) (db : Database) : Database :=
  {| emails := emails db;
     emails_seq := emails_seq db;
     attachments := List.filter (fun r => negb (Z.eqb (arow_email_id r) e)) (attachments db);
     attachments_seq := attachments_seq db |}.

(** Keys come from AUTOINCREMENT: positive, at most the sequence value. *)
Definition wf (db : Database) : Prop :=
  0 <= emails_seq db /\
  Forall (fun r => 0 < row_id r <= emails_seq db) (emails db).

End Db.

(** ** The file system under the handlers *)

Module Fs.

Inductive Node :=
| File (data : list byte)
| Dir.

(** Paths to entries. A regular file keeps its bytes. *)
Abbreviation FileSystem := (gmap string Node).

(** The directory an entry lives in: the path up to its last slash. *)
Definition parent (p : string) : string :=
  string_of_list_ascii
    (rev (tail (NodePath.drop_while (fun c => negb (NodePath.is_slash c))
                  (rev (list_ascii_of_string p))))).

Definition is_dir (p : string) (fs : FileSystem) : bool :=
  match fs !! p with
  | Some Dir => true
  | _ => false
  end.

(** [fs.existsSync] *)
Definition existsSync (p : string) (fs : FileSystem) : bool :=
  match fs !! p with
  | Some _ => true
  | None => false
  end.

(** [fs.mkdirSync(p, { recursive: true })] for a [p] whose parent is a
    directory; [None] is a throw (a file is in the way). Missing ancestors,
    which Node would create as well, do not arise for a path made of an
    existing directory and one segment. *)
Definition mkdirSync (p : string) (fs : FileSystem) : option FileSystem :=
  match fs !! p with
  | None => Some (<[p := Dir]> fs)
  | Some Dir => Some fs
  | Some (File _) => None
  end.

(** [fs.writeFileSync(p, data)]: creates or replaces the file. *)
Definition writeFileSync (p : string) (data : list byte) (fs : FileSystem)
  : option FileSystem :=
  if is_dir (parent p) fs && negb (is_dir p fs)
  then Some (<[p := File data]> fs)
  else None.

(** [fs.readFileSync(p)]. Entries are looked up under the path as
    written: two spellings of one path (an inner [.], a doubled slash) are
    two keys, so the model is the disk's for paths in normal form. *)
Definition readFileSync (p : string) (fs : FileSystem) : option (list byte) :=
  match fs !! p with
  | Some (File data) => Some data
  | _ => None
  end.

(** [fs.unlinkSync(p)], under the same reading of paths. *)
Definition unlinkSync (p : string) (fs : FileSystem) : option FileSystem :=
  match fs !! p with
  | Some (File _) => Some (delete p fs)
  | _ => None
  end.

(** No entry lives in directory [d]. *)
Definition dir_empty (d : string) (fs : FileSystem) : bool :=
  bool_decide (map_Forall (fun k (_ : Node) => parent k <> d) fs).

(** [fs.rmdirSync(p)]: only an empty directory is removed. *)
Definition rmdirSync (p : string) (fs : FileSystem) : option FileSystem :=
  if is_dir p fs && dir_empty p fs then Some (delete p fs) else None.

(** A write stream. Its open and its writes are asynchronous in Node but
    keep their order; they are placed where the handler issues them, which
    gives the file system once the stream has written everything, not the
    one a request served right after the reply finds ([Deferred] below
    keeps the two apart). [ws_open] is false when the open fails (the path
    is a directory, or its parent is missing): such a stream drops its
    writes. *)
Record WriteStream := mkWriteStream {
  ws_path : string;
  ws_open : bool
}.

(** [fs.createWriteStream(p)], flags [w]: the file is created or
    truncated. *)
Definition createWriteStream (p : string) (fs : FileSystem)
  : WriteStream * FileSystem :=
  if is_dir (parent p) fs && negb (is_dir p fs)
  then ({| ws_path := p; ws_open := true |}, <[p := File []]> fs)
  else ({| ws_path := p; ws_open := false |}, fs).

Definition append_data (data : list byte) (n : Node) : Node :=
  match n with
  | File old => File (old ++ data)
  | Dir => Dir
  end.

(** [writeStream.write(data)] *)
Definition ws_write (ws : WriteStream) (data : list byte) (fs : FileSystem)
  : FileSystem :=
  if ws_open ws then alter (append_data data) (ws_path ws) fs else fs.

End Fs.

(** ** The request handlers of [index.ts] *)

Module Server.
Import JsString Db Fs.

(** A request field that arrives once, several times, or not at all
    ([recipients], [attachmentPaths]). *)
Inductive Field :=
| Absent
| One (s : string)
| Many (l : list string).

(** [!v] is false for every array, the empty one included. *)
Definition truthy_field (v : Field) : bool :=
  match v with
  | Absent => false
  | One s => truthy_str (Some s)
  | Many _ => true
  end.

(** One entry of [msg.attachments]. *)
Record AttachmentDescr := mkAttachmentDescr {
  ad_content : string;
  ad_filename : string;
  ad_type : string;
  ad_disposition : string
}.

(** The object handed to [sgMail.send]; [msg_attachments] is set only when
    the request names at least one path. *)
Record Message := mkMessage {
  msg_to : list string;
  msg_from : string;
  msg_subject : string;
  msg_text : string;
  msg_html : string;
  msg_attachments : option (list AttachmentDescr)
}.

(** What the service did to its collaborators, in order. *)
Inductive Event :=
| Saved (i : Z) (st : Status)
| Delivered (msg : Message)
| StatusSet (i : Z) (st : Status).

Record World := mkWorld {
  fs : FileSystem;
  db : Database;
  trace : list Event
}.

Inductive Response :=
| RespEmails (l : list Email)
| RespEmail (e : Email)
| RespNotFound
| RespSent (emailId : Z)
| RespBadRequest (error : string)
| RespError (error : string) (details : option string)
| RespChunk (message : string)
| RespComplete (filePath fileName mimeType : string)
| RespTooLarge
| RespAborted.

(** The failure kinds of the design, as the replies that carry them. *)
Definition ValidationError : Response :=
  RespBadRequest "Missing required fields: sender, recipients, subject, body".

(** Assembly has one reply for every failure inside it. *)
Definition CombineFailed : Response :=
  RespError "Failed to combine chunks" None.

Definition IncompleteUploadError : Response := CombineFailed.

Definition DeliveryError (detail : string) : Response :=
  RespError "Failed to send email" (Some detail).

Definition with_fs (w : World) (f : FileSystem) : World :=
  {| fs := f; db := db w; trace := trace w |}.

Definition with_db (w : World) (d : Database) : World :=
  {| fs := fs w; db := d; trace := trace w |}.

Definition log (e : Event) (w : World) : World :=
  {| fs := fs w; db := db w; trace := trace w ++ [e] |}.

(** [saveEmail(emailData)], recorded in the trace. *)
Definition save_email (now : Z) (emailData : Email) (w : World) : Z * World :=
  let '(i, d) := saveEmail now emailData (db w) in
  (i, log (Saved i (status emailData)) (with_db w d)).

(** [updateEmailStatus(emailId, st)], recorded in the trace. *)
Definition set_email_status (i : Z) (st : Status) (w : World) : World :=
  log (StatusSet i st) (with_db w (updateEmailStatus i st (db w))).

(** *** POST /send *)

(** A file of a multipart request, with the two values multer's
    [filename] callback draws for it. *)
Record Upload := mkUpload {
  up_originalname : string;
  up_data : list byte;
  up_now : Z;
  up_random : Z
}.

Record SendReq := mkSendReq {
  req_sender : option string;
  req_recipients : Field;
  req_subject : option string;
  req_body : option string;
  req_attachmentPaths : Field
}.

(** The paths [attachmentPaths] contributes to [allFilePaths]. *)
Definition chunked_paths (v : Field) : list string :=
  if truthy_field v then
    match v with
    | Many l => l
    | One s => [s]
    | Absent => []
    end
  else [].

(** [Array.isArray(recipients) ? recipients : [recipients]] *)
Definition recipient_list (v : Field) : list string :=
  match v with
  | Many l => l
  | One s => [s]
  | Absent => []
  end.

(** The check in front of the handler's work: all four fields are truthy. *)
Definition valid_send (req : SendReq) : bool :=
  truthy_str (req_sender req)
  && truthy_field (req_recipients req)
  && truthy_str (req_subject req)
  && truthy_str (req_body req).

(** The state of the attachment loop. *)
Record Attaching := mkAttaching {
  at_world : World;
  at_attachments : list AttachmentDescr;
  at_uploadedFiles : list string
}.

(** One turn of [for (const filePath of allFilePaths)]: the path is tracked
    for cleanup first; a failed read leaves the [try] block before anything
    else happens. *)
Definition attach_one (emailId : Z) (st : Attaching) (filePath : string) : Attaching :=
  let uploaded := at_uploadedFiles st ++ [filePath] in
  let w := at_world st in
  match readFileSync filePath (fs w) with
  | None =>
      {| at_world := w;
         at_attachments := at_attachments st;
         at_uploadedFiles := uploaded |}
  | Some fileContent =>
      let fileName := Resolver.fileNameOf filePath in
      let mimeType := Resolver.getMimeType filePath in
      let attachment := {| att_id := None;
                           emailId := emailId;
                           filename := fileName;
                           content := [];
                           contentType := mimeType |} in
      let '(_, db') := saveAttachment attachment (db w) in
      {| at_world := with_db w db';
         at_attachments := at_attachments st ++
           [ {| ad_content := base64 fileContent;
                ad_filename := fileName;
                ad_type := mimeType;
                ad_disposition := "attachment" |} ];
         at_uploadedFiles := uploaded |}
  end.

Definition attach_all (emailId : Z) (paths : list string) (w : World) : Attaching :=
  fold_left (attach_one emailId) paths
    {| at_world := w; at_attachments := []; at_uploadedFiles := [] |}.

(** The descriptor the loop builds for a path it could read. *)
Definition descr_of (filePath : string) (fileContent : list byte) : AttachmentDescr :=
  {| ad_content := base64 fileContent;
     ad_filename := Resolver.fileNameOf filePath;
     ad_type := Resolver.getMimeType filePath;
     ad_disposition := "attachment" |}.

(** The descriptors of the paths that can be read, in the order of the
    paths. *)
Definition readable_attachments (f : FileSystem) (paths : list string)
  : list AttachmentDescr :=
  flat_map (fun p => match readFileSync p f with
                     | Some c => [descr_of p c]
                     | None => []
                     end) paths.

(** The row the loop stores for a path it could read. *)
Definition arow_of (k emailId : Z) (filePath : string) : AttachmentRow :=
  {| arow_id := k;
     arow_email_id := emailId;
     arow_filename := Resolver.fileNameOf filePath;
     arow_content := [];
     arow_content_type := Resolver.getMimeType filePath |}.

(** [try { fs.unlinkSync(filePath) } catch { log }] *)
Definition unlink_quiet (f : FileSystem) (filePath : string) : FileSystem :=
  match unlinkSync filePath f with
  | Some f' => f'
  | None => f
  end.

(** [uploadedFiles.forEach(...)] *)
Definition cleanup_files (uploadedFiles : list string) (w : World) : World :=
  with_fs w (fold_left unlink_quiet uploadedFiles (fs w)).

(** The handler. [files] are the paths of [req.files]; [now] is the clock of
    the INSERT; [outcome] is the provider's answer to this call, [None] when
    the promise resolves and [Some detail] when it rejects with that
    message. *)
Definition send (now : Z) (outcome : option string) (files : list string)
  (req : SendReq) (w : World) : Response * World :=
  let allFilePaths := files ++ chunked_paths (req_attachmentPaths req) in
  if negb (truthy_str (req_sender req))
     || negb (truthy_field (req_recipients req))
     || negb (truthy_str (req_subject req))
     || negb (truthy_str (req_body req))
  then (ValidationError, w)
  else
    let sender := default "" (req_sender req) in
    let subject := default "" (req_subject req) in
    let body := default "" (req_body req) in
    let recipientList := recipient_list (req_recipients req) in
    let emailData := {| id := None;
                        sender := sender;
                        recipients := recipientList;
                        subject := subject;
                        body := body;
                        sentAt := None;
                        status := pending |} in
    let '(emailId, w1) := save_email now emailData w in
    let msg0 := {| msg_to := recipientList;
                   msg_from := sender;
                   msg_subject := subject;
                   msg_text := body;
                   msg_html := body;
                   msg_attachments := None |} in
    let st := attach_all emailId allFilePaths w1 in
    let msg := match allFilePaths with
               | [] => msg0
               | _ :: _ =>
                   {| msg_to := recipientList;
                      msg_from := sender;
                      msg_subject := subject;
                      msg_text := body;
                      msg_html := body;
                      msg_attachments := Some (at_attachments st) |}
               end in
    let uploadedFiles := at_uploadedFiles st in
    let w2 := log (Delivered msg) (at_world st) in
    match outcome with
    | None =>
        let w3 := set_email_status emailId sent w2 in
        let w4 := cleanup_files uploadedFiles w3 in
        let w5 := with_db w4 (deleteAttachmentsByEmailId emailId (db w4)) in
        (RespSent emailId, w5)
    | Some detail =>
        let w3 := if Z.eqb emailId 0 then w2
                  else set_email_status emailId failed w2 in
        let w4 := cleanup_files uploadedFiles w3 in
        (DeliveryError detail, w4)
    end.

(** The status the handler gives the record it created. *)
Definition final_status (outcome : option string) : Status :=
  match outcome with
  | None => sent
  | Some _ => failed
  end.

(** The reply that goes with the provider's answer. *)
Definition send_reply (emailId : Z) (outcome : option string) : Response :=
  match outcome with
  | None => RespSent emailId
  | Some detail => DeliveryError detail
  end.

(** The row of the send attempt, with status [st]. *)
Definition email_row_of (i now : Z) (req : SendReq) (st : Status) : EmailRow :=
  {| row_id := i;
     row_sender := default "" (req_sender req);
     row_recipients := recipient_list (req_recipients req);
     row_subject := default "" (req_subject req);
     row_body := default "" (req_body req);
     row_sent_at := now;
     row_status := st |}.

(** The message for a request, with the attachments [atts]. *)
Definition message_of (req : SendReq) (atts : option (list AttachmentDescr)) : Message :=
  {| msg_to := recipient_list (req_recipients req);
     msg_from := default "" (req_sender req);
     msg_subject := default "" (req_subject req);
     msg_text := default "" (req_body req);
     msg_html := default "" (req_body req);
     msg_attachments := atts |}.

(** The status updates of a trace, in order. *)
Definition status_updates (t : list Event) : list (Z * Status) :=
  flat_map (fun e => match e with
                     | StatusSet i st => [(i, st)]
                     | Saved _ _ | Delivered _ => []
                     end) t.

(** multer's disk storage in front of the handler: every file of the
    request is written under the uploads directory; a file over the
    25 MB limit fails the request before the handler runs. *)
Definition multer_path (uploadsDir : string) (u : Upload) : string :=
  NodePath.join uploadsDir
    (Resolver.multer_filename "attachments" (up_now u) (up_random u) (up_originalname u)).

Definition fileSize_limit : Z := 25 * 1024 * 1024.

Definition multer_store (uploadsDir : string) (ups : list Upload) (f : FileSystem)
  : option (list string * FileSystem) :=
  if forallb (fun u => Z.leb (Z.of_nat (length (up_data u))) fileSize_limit) ups
  then Some (map (multer_path uploadsDir) ups,
             fold_left (fun f u => <[multer_path uploadsDir u := File (up_data u)]> f) ups f)
  else None.

(** *** POST /upload/chunk *)

Record ChunkReq := mkChunkReq {
  ck_chunkIndex : option Z;
  ck_totalChunks : option Z;
  ck_fileName : option string;
  ck_fileId : option string;
  ck_body : list byte
}.

(** The same request with another body. *)
Definition with_body (req : ChunkReq) (data : list byte) : ChunkReq :=
  {| ck_chunkIndex := ck_chunkIndex req;
     ck_totalChunks := ck_totalChunks req;
     ck_fileName := ck_fileName req;
     ck_fileId := ck_fileId req;
     ck_body := data |}.

(** [`chunk-${i}`] *)
Definition chunk_name (i : Z) : string := "chunk-" +:+ of_Z i.

Definition raw_limit : Z := 50 * 1024 * 1024.

(** [parseInt] gives [None] for NaN. Any throw inside the handler is
    answered with status 500; what was done before it stays done. *)
Definition upload_chunk (uploadsDir : string) (req : ChunkReq) (f : FileSystem)
  : Response * FileSystem :=
  match ck_chunkIndex req, ck_totalChunks req with
  | Some chunkIndex, Some totalChunks =>
      if negb (truthy_str (ck_fileName req)) || negb (truthy_str (ck_fileId req))
      then (RespBadRequest "Missing required parameters", f)
      else
        let fileId := default "" (ck_fileId req) in
        let chunkDir := NodePath.join uploadsDir fileId in
        let f1 := if existsSync chunkDir f then Some f else mkdirSync chunkDir f in
        match f1 with
        | None => (RespError "Failed to save chunk" None, f)
        | Some f1 =>
            let chunkPath := NodePath.join chunkDir (chunk_name chunkIndex) in
            match writeFileSync chunkPath (ck_body req) f1 with
            | None => (RespError "Failed to save chunk" None, f1)
            | Some f2 =>
                (RespChunk ("Chunk " +:+ of_Z (chunkIndex + 1) +:+ " of "
                            +:+ of_Z totalChunks +:+ " received"), f2)
            end
        end
  | _, _ => (RespBadRequest "Missing required parameters", f)
  end.

(** *** POST /upload/complete *)

Record CompleteReq := mkCompleteReq {
  cp_fileId : option string;
  cp_fileName : option string;
  cp_totalChunks : Z;
  cp_mimeType : option string
}.

(** [for (let i = 0; i < totalChunks; i++)] from index [i] with [k] turns
    left. [false] is a throw out of the loop: a chunk that cannot be read or
    removed. *)
Fixpoint combine_chunks (chunkDir : string) (ws : WriteStream) (k : nat) (i : Z)
  (f : FileSystem) : bool * FileSystem :=
  match k with
  | O => (true, f)
  | S k' =>
      let chunkPath := NodePath.join chunkDir (chunk_name i) in
      match readFileSync chunkPath f with
      | None => (false, f)
      | Some chunkData =>
          let f1 := ws_write ws chunkData f in
          match unlinkSync chunkPath f1 with
          | None => (false, f1)
          | Some f2 => combine_chunks chunkDir ws k' (i + 1) f2
          end
      end
  end.

(** [path.join(uploadsDir, `${fileId}-${fileName}`)] *)
Definition final_path (uploadsDir fileId fileName : string) : string :=
  NodePath.join uploadsDir (fileId +:+ "-" +:+ fileName).

(** The handler, with the work of its stream done. A stream that failed
    to open raises an error event nobody listens to, which ends the
    process, after the reply has gone out: [RespAborted] stands for that
    run. *)
Definition upload_complete (uploadsDir : string) (req : CompleteReq) (f : FileSystem)
  : Response * FileSystem :=
  if negb (truthy_str (cp_fileId req))
     || negb (truthy_str (cp_fileName req))
     || Z.eqb (cp_totalChunks req) 0
     || negb (truthy_str (cp_mimeType req))
  then (RespBadRequest "Missing required parameters", f)
  else
    let fileId := default "" (cp_fileId req) in
    let fileName := default "" (cp_fileName req) in
    let mimeType := default "" (cp_mimeType req) in
    let chunkDir := NodePath.join uploadsDir fileId in
    let finalFilePath := final_path uploadsDir fileId fileName in
    let '(writeStream, f0) := createWriteStream finalFilePath f in
    let '(combined, f1) :=
      combine_chunks chunkDir writeStream (Z.to_nat (cp_totalChunks req)) 0 f0 in
    let '(reply, f2) :=
      if combined then
        match rmdirSync chunkDir f1 with
        | Some f2 => (RespComplete finalFilePath fileName mimeType, f2)
        | None => (CombineFailed, f1)
        end
      else (CombineFailed, f1) in
    (if ws_open writeStream then reply else RespAborted, f2).

(** The payloads of the chunks [i], [i + 1], ... that are stored as files,
    up to the first index without one, [k] of them at most. *)
Fixpoint stored_chunks (chunkDir : string) (f : FileSystem) (k : nat) (i : Z)
  : list (list byte) :=
  match k with
  | O => []
  | S k' =>
      match readFileSync (NodePath.join chunkDir (chunk_name i)) f with
      | None => []
      | Some data => data :: stored_chunks chunkDir f k' (i + 1)
      end
  end.

(** The path of chunk [i] of an upload. *)
Definition chunk_path (uploadsDir fileId : string) (i : Z) : string :=
  NodePath.join (NodePath.join uploadsDir fileId) (chunk_name i).

(** The chunk request of an upload for index [i] with body [data]. *)
Definition chunk_req (fileId fileName : string) (totalChunks i : Z) (data : list byte)
  : ChunkReq :=
  {| ck_chunkIndex := Some i;
     ck_totalChunks := Some totalChunks;
     ck_fileName := Some fileName;
     ck_fileId := Some fileId;
     ck_body := data |}.

(** Chunk requests of one upload, served in the order of the list. *)
Definition put_chunks (uploadsDir fileId fileName : string) (totalChunks : Z)
  (writes : list (Z * list byte)) (f : FileSystem) : FileSystem :=
  fold_left
    (fun g w => snd (upload_chunk uploadsDir
                       (chunk_req fileId fileName totalChunks (fst w) (snd w)) g))
    writes f.

(** The staging directory with the chunks of [writes] in it, later writes
    over earlier ones. *)
Definition staged (uploadsDir fileId : string) (writes : list (Z * list byte))
  (f : FileSystem) : FileSystem :=
  fold_left
    (fun g w => <[chunk_path uploadsDir fileId (fst w) := File (snd w)]>
                  (<[NodePath.join uploadsDir fileId := Dir]> g))
    writes f.

(** The completion request of an upload. *)
Definition complete_req (fileId fileName : string) (totalChunks : Z) (mimeType : string)
  : CompleteReq :=
  {| cp_fileId := Some fileId;
     cp_fileName := Some fileName;
     cp_totalChunks := totalChunks;
     cp_mimeType := Some mimeType |}.

(** *** The service *)

Inductive Op :=
| GetEmails
| GetEmail (i : option Z)
| Send (now : Z) (outcome : option string) (uploads : list Upload) (req : SendReq)
| UploadChunk (req : ChunkReq)
| UploadComplete (req : CompleteReq).

(** One request, served to the end. *)
Definition step (uploadsDir : string) (op : Op) (w : World) : Response * World :=
  match op with
  | GetEmails => (RespEmails (getEmails (db w)), w)
  | GetEmail None => (RespNotFound, w)
  | GetEmail (Some i) =>
      match getEmailById i (db w) with
      | Some e => (RespEmail e, w)
      | None => (RespNotFound, w)
      end
  | Send now outcome uploads req =>
      match multer_store uploadsDir uploads (fs w) with
      | None => (RespTooLarge, w)
      | Some (files, f) => send now outcome files req (with_fs w f)
      end
  | UploadChunk req =>
      if Z.ltb raw_limit (Z.of_nat (length (ck_body req))) then (RespTooLarge, w)
      else let '(r, f) := upload_chunk uploadsDir req (fs w) in (r, with_fs w f)
  | UploadComplete req =>
      let '(r, f) := upload_complete uploadsDir req (fs w) in (r, with_fs w f)
  end.

(** Requests served one after the other. *)
Definition run (uploadsDir : string) (ops : list Op) (w : World) : World :=
  fold_left (fun w op => snd (step uploadsDir op w)) ops w.

End Server.

(** ** A small deployment, used to run the handlers *)

Module Example.
Import JsString Db Fs Server.

Definition uploads_dir : string := "/srv/temp_uploads".

Definition AB : list byte := [Byte.x41; Byte.x42].
Definition CD : list byte := [Byte.x43; Byte.x44].
Definition EF : list byte := [Byte.x45; Byte.x46].

(** The file system after start-up: the uploads directory, empty. *)
Definition fs0 : FileSystem := {[ uploads_dir := Dir ]}.

(** Upload [u1] with chunks 0 and 2 of 3 in the staging directory. *)
Definition fs_two_of_three : FileSystem :=
  staged uploads_dir "u1" [(0, AB); (2, EF)] fs0.

(** The assembled artifact of upload [u1] with file name [x.txt]. *)
Definition artifact : string := final_path uploads_dir "u1" "x.txt".

Definition fs_artifact : FileSystem := <[ artifact := File (AB ++ CD ++ EF) ]> fs0.

Definition world0 : World := {| fs := fs0; db := Db.empty; trace := [] |}.

Definition world_artifact : World :=
  {| fs := fs_artifact; db := Db.empty; trace := [] |}.

(** A send request that names the artifact. *)
Definition req_artifact : SendReq :=
  {| req_sender := Some "alice@example.org";
     req_recipients := One "bob@example.org";
     req_subject := Some "report";
     req_body := Some "see attachment";
     req_attachmentPaths := One artifact |}.

(** The same request with a second path at which there is no file. *)
Definition req_missing_file : SendReq :=
  {| req_sender := Some "alice@example.org";
     req_recipients := One "bob@example.org";
     req_subject := Some "report";
     req_body := Some "see attachment";
     req_attachmentPaths := Many [artifact; "/srv/temp_uploads/u2-gone.pdf"] |}.

(** A JSON request whose [recipients] is the empty array. *)
Definition req_no_recipient : SendReq :=
  {| req_sender := Some "alice@example.org";
     req_recipients := Many [];
     req_subject := Some "report";
     req_body := Some "see attachment";
     req_attachmentPaths := Absent |}.

(** A file sent in the multipart request itself. *)
Definition direct_upload : Upload :=
  {| up_originalname := "report.pdf";
     up_data := AB;
     up_now := 1700000000000;
     up_random := 123456789 |}.

End Example.

(** ** Values the statements about the store and the handlers speak of *)

Module Shapes.
Import JsString Db Fs Server.

(** The record a row is read back as, with another status. *)
Definition with_status (e : Email) (st : Status) : Email :=
  {| id := id e;
     sender := sender e;
     recipients := recipients e;
     subject := subject e;
     body := body e;
     sentAt := sentAt e;
     status := st |}.

(** What [getEmailById] gives for a record stored under key [i] at time
    [now]. *)
Definition stored_email (i now : Z) (e : Email) : Email :=
  {| id := Some i;
     sender := sender e;
     recipients := recipients e;
     subject := subject e;
     body := body e;
     sentAt := Some now;
     status := status e |}.

(** What [getAttachmentsByEmailId] gives for an attachment stored under key
    [k]. *)
Definition stored_attachment (k : Z) (a : Attachment) : Attachment :=
  {| att_id := Some k;
     emailId := emailId a;
     filename := filename a;
     content := content a;
     contentType := contentType a |}.

(** Rows from the most recent one down. *)
Definition most_recent_first (rows : list EmailRow) : Prop :=
  StronglySorted (fun x y => row_sent_at y <= row_sent_at x) rows.

(** The record of a send request, as a later [GET /emails/:id] shows it. *)
Definition email_of_request (i now : Z) (req : SendReq) (st : Status) : Email :=
  email_of_row (email_row_of i now req st).

End Shapes.

(** ** Shapes of requests and of what the service keeps *)

Module Requests.
Import JsString Db Fs Server.

(** A send request with its four fields filled in. *)
Definition send_req (sender : string) (recipients : Field) (subject body : string)
  (attachmentPaths : Field) : SendReq :=
  {| req_sender := Some sender;
     req_recipients := recipients;
     req_subject := Some subject;
     req_body := Some body;
     req_attachmentPaths := attachmentPaths |}.

(** The uploads of a request are all within multer's size limit. *)
Definition within_limit (uploads : list Upload) : bool :=
  forallb (fun u => Z.leb (Z.of_nat (length (up_data u))) fileSize_limit) uploads.

(** A request that stores a record: a send that gets past multer and past
    the check of the four fields. *)
Definition stores_record (op : Op) : bool :=
  match op with
  | Send _ _ uploads req => within_limit uploads && valid_send req
  | _ => false
  end.

(** Keys grow along the stored rows. *)
Definition keys_increasing (d : Database) : Prop :=
  StronglySorted Z.lt (map row_id (emails d)).

(** [Number.isSafeInteger]: the integers a JS number holds exactly, and
    that a template string prints digit by digit. [parseInt] of a longer
    numeral rounds, and from 1e21 on the number prints in exponent form. *)
Definition safe_integer (z : Z) : bool :=
  Z.ltb (- 2 ^ 53) z && Z.ltb z (2 ^ 53).


End Requests.

(** ** The write stream of an assembly, run after the reply *)

Module Deferred.
Import JsString Db Fs Server.

(** What the write stream of [/upload/complete] has been handed when the
    handler replies: the path it opens (created or truncated) and the
    buffers it writes there, in order. The handler is synchronous from
    [createWriteStream] to [res.json], so all of this work happens after
    the reply. *)
Record Stream := mkStream {
  st_path : string;
  st_queue : list (list byte)
}.

(** The loop of the handler with its writes left in the stream's queue:
    [readFileSync], [writeStream.write], [unlinkSync] for each index. The
    first component is [false] for a throw out of the loop. *)
Fixpoint read_chunks (chunkDir : string) (k : nat) (i : Z) (f : FileSystem)
  : bool * list (list byte) * FileSystem :=
  match k with
  | O => (true, [], f)
  | S k' =>
      let chunkPath := NodePath.join chunkDir (chunk_name i) in
      match readFileSync chunkPath f with
      | None => (false, [], f)
      | Some chunkData =>
          match unlinkSync chunkPath f with
          | None => (false, [chunkData], f)
          | Some f2 =>
              let '(combined, queue, f3) := read_chunks chunkDir k' (i + 1) f2 in
              (combined, chunkData :: queue, f3)
          end
      end
  end.

(** [/upload/complete] up to its reply: the reply, the file system at
    that moment, and the stream left to run. *)
Definition upload_complete_deferred (uploadsDir : string) (req : CompleteReq)
  (f : FileSystem) : Response * FileSystem * option Stream :=
  if negb (truthy_str (cp_fileId req))
     || negb (truthy_str (cp_fileName req))
     || Z.eqb (cp_totalChunks req) 0
     || negb (truthy_str (cp_mimeType req))
  then (RespBadRequest "Missing required parameters", f, None)
  else
    let fileId := default "" (cp_fileId req) in
    let fileName := default "" (cp_fileName req) in
    let mimeType := default "" (cp_mimeType req) in
    let chunkDir := NodePath.join uploadsDir fileId in
    let finalFilePath := final_path uploadsDir fileId fileName in
    let '(combined, queue, f1) :=
      read_chunks chunkDir (Z.to_nat (cp_totalChunks req)) 0 f in
    let '(reply, f2) :=
      if combined then
        match rmdirSync chunkDir f1 with
        | Some f2 => (RespComplete finalFilePath fileName mimeType, f2)
        | None => (CombineFailed, f1)
        end
      else (CombineFailed, f1) in
    (reply, f2, Some {| st_path := finalFilePath; st_queue := queue |}).

Definition reply_of (r : Response * FileSystem * option Stream) : Response :=
  fst (fst r).

Definition state_of (r : Response * FileSystem * option Stream) : FileSystem :=
  snd (fst r).

Definition stream_of (r : Response * FileSystem * option Stream) : option Stream :=
  snd r.

(** The file system when the stream has opened its path and the first
    [n] bytes of its queue have reached the file: the stream writes its
    buffers one after the other, each at the end of the file. A stream
    that cannot open writes nothing. *)
Definition stream_run (s : Stream) (n : nat) (f : FileSystem) : FileSystem :=
  let '(writeStream, f0) := createWriteStream (st_path s) f in
  ws_write writeStream (firstn n (concat (st_queue s))) f0.

(** The same for the stream a handler left, if it left one. *)
Definition progress (s : option Stream) (n : nat) (f : FileSystem) : FileSystem :=
  match s with
  | Some s => stream_run s n f
  | None => f
  end.

(** The file system when the stream has written all of its queue. *)
Definition settle (s : option Stream) (f : FileSystem) : FileSystem :=
  match s with
  | Some s => stream_run s (length (concat (st_queue s))) f
  | None => f
  end.

End Deferred.

(** ** More of the example deployment *)

Module Example2.
Import JsString Db Fs Server Requests Example.

Definition sample_email : Email :=
  {| id := None;
     sender := "alice@example.org";
     recipients := ["bob@example.org"; "carol@example.org"];
     subject := "minutes";
     body := "attached";
     sentAt := None;
     status := pending |}.

(** The store with the sample record in it, under key 1. *)
Definition db_one : Database := snd (saveEmail 100 sample_email Db.empty).

Definition sample_attachment : Attachment :=
  {| att_id := None;
     emailId := 1;
     filename := "x.txt";
     content := [];
     contentType := "text/plain" |}.

(** Upload [u1] with its three chunks staged. *)
Definition fs_three : FileSystem :=
  staged uploads_dir "u1" [(0, AB); (1, CD); (2, EF)] fs0.

(** The same, with a stray file in the staging directory. *)
Definition stray : string := NodePath.join (NodePath.join uploads_dir "u1") "notes.txt".

Definition fs_stray : FileSystem := <[ stray := File AB ]> fs_three.

(** A file at the staging path of upload [u9]. *)
Definition fs_blocked : FileSystem :=
  <[ NodePath.join uploads_dir "u9" := File AB ]> fs0.

(** The staging directory of upload [u8], with a directory at the path of
    its chunk 0. *)
Definition fs_chunk_dir : FileSystem :=
  <[ chunk_path uploads_dir "u8" 0 := Dir ]>
    (<[ NodePath.join uploads_dir "u8" := Dir ]> fs0).



(** A send request with one field left empty. *)
Definition req_no_subject : SendReq :=
  {| req_sender := Some "alice@example.org";
     req_recipients := One "bob@example.org";
     req_subject := Some "";
     req_body := Some "see attachment";
     req_attachmentPaths := Absent |}.

Definition second_upload : Upload :=
  {| up_originalname := "report.pdf";
     up_data := CD;
     up_now := 1700000000000;
     up_random := 123456789 |}.

(** Requests of several kinds, two of which store a record. *)
Definition mixed_ops : list Op :=
  [ Send 100 None [] req_no_recipient;
    GetEmails;
    Send 101 (Some "rejected") [direct_upload] req_no_subject;
    UploadChunk (chunk_req "u1" "x.txt" 3 0 AB);
    Send 102 (Some "rejected") [] req_artifact;
    GetEmail (Some 1) ].

End Example2.

(** * Properties *)

Import JsString NodePath Resolver Db Fs Server.

(** ** Strings and paths *)

Section Strings.

Lemma append_cons (c : ascii) (a b : string) : String c a +:+ b = String c (a +:+ b).
Proof. reflexivity. Qed.

Lemma append_nil (b : string) : "" +:+ b = b.
Proof. reflexivity. Qed.

Lemma chars_app (a b : string) :
  list_ascii_of_string (a +:+ b) = list_ascii_of_string a ++ list_ascii_of_string b.
Proof.
  induction a as [|c a IH]; [reflexivity|].
  rewrite append_cons. simpl. now rewrite IH.
Qed.

Lemma append_inv_head (a x y : string) : a +:+ x = a +:+ y -> x = y.
Proof.
  induction a as [|c a IH]; intros H; [exact H|].
  rewrite !append_cons in H. injection H as H. auto.
Qed.

Lemma append_assoc (a b c : string) : (a +:+ b) +:+ c = a +:+ (b +:+ c).
Proof.
  induction a as [|x a IH]; [reflexivity|].
  rewrite !append_cons. now rewrite IH.
Qed.

Lemma length_append (a b : string) :
  String.length (a +:+ b) = (String.length a + String.length b)%nat.
Proof.
  induction a as [|x a IH]; [reflexivity|].
  rewrite append_cons. simpl. now rewrite IH.
Qed.

(** A path is never the path of one of its entries. *)
Lemma join_ne_self (a b : string) : NodePath.join a b <> a.
Proof.
  unfold NodePath.join. intros H.
  apply (f_equal String.length) in H.
  rewrite !length_append in H. simpl in H. lia.
Qed.

Lemma join_inj (a b b' : string) : NodePath.join a b = NodePath.join a b' -> b = b'.
Proof.
  unfold NodePath.join. intros H.
  apply append_inv_head in H. simpl in H. now injection H.
Qed.

Lemma drop_while_all (p : ascii -> bool) (l r : list ascii) (c : ascii) :
  forallb p l = true -> p c = false ->
  drop_while p (l ++ c :: r) = c :: r.
Proof.
  induction l as [|x l IH]; simpl; intros Hl Hc.
  - now rewrite Hc.
  - apply andb_prop in Hl as [Hx Hl]. rewrite Hx. auto.
Qed.

Lemma take_while_all (p : ascii -> bool) (l r : list ascii) (c : ascii) :
  forallb p l = true -> p c = false ->
  take_while p (l ++ c :: r) = l.
Proof.
  induction l as [|x l IH]; simpl; intros Hl Hc.
  - now rewrite Hc.
  - apply andb_prop in Hl as [Hx Hl]. rewrite Hx, IH; auto.
Qed.

Lemma forallb_rev {A} (p : A -> bool) (l : list A) :
  forallb p (rev l) = forallb p l.
Proof.
  induction l as [|x l IH]; simpl; [reflexivity|].
  rewrite forallb_app, IH. simpl. rewrite andb_true_r. apply andb_comm.
Qed.

(** The entry [b] of directory [a] lives in [a]. *)
Lemma parent_join (a b : string) : no_slash b = true -> parent (NodePath.join a b) = a.
Proof.
  unfold no_slash, parent, NodePath.join. intros Hb.
  rewrite chars_app. simpl. rewrite rev_app_distr. simpl.
  rewrite <- app_assoc. simpl.
  rewrite drop_while_all.
  - simpl. rewrite rev_involutive. apply string_of_list_ascii_of_string.
  - now rewrite forallb_rev.
  - reflexivity.
Qed.

Lemma no_slash_app (a b : string) :
  no_slash a = true -> no_slash b = true -> no_slash (a +:+ b) = true.
Proof.
  unfold no_slash. intros Ha Hb. rewrite chars_app, forallb_app, Ha, Hb. reflexivity.
Qed.

Lemma no_slash_uint (d : Decimal.uint) : no_slash (NilEmpty.string_of_uint d) = true.
Proof.
  unfold no_slash. induction d; simpl; auto.
Qed.

Lemma no_slash_of_Z (z : Z) : no_slash (of_Z z) = true.
Proof.
  unfold of_Z. destruct (Z.to_int z) as [d|d]; simpl.
  - apply no_slash_uint.
  - unfold no_slash. simpl. apply no_slash_uint.
Qed.

Lemma of_Z_inj (x y : Z) : of_Z x = of_Z y -> x = y.
Proof.
  unfold of_Z. intros H. apply DecimalZ.to_int_inj.
  assert (E : Some (Z.to_int x) = Some (Z.to_int y)).
  { rewrite <- !NilEmpty.isi. now rewrite H. }
  now injection E.
Qed.

Lemma no_slash_chunk_name (i : Z) : no_slash (chunk_name i) = true.
Proof.
  unfold chunk_name. apply no_slash_app; [reflexivity | apply no_slash_of_Z].
Qed.

Lemma chunk_name_inj (i j : Z) : chunk_name i = chunk_name j -> i = j.
Proof.
  unfold chunk_name. intros H. apply append_inv_head in H. now apply of_Z_inj.
Qed.

Lemma segment_no_slash (s : string) : segment s = true -> no_slash s = true.
Proof.
  unfold segment, no_slash. intros H.
  now apply andb_prop in H as [_ H].
Qed.

Lemma segment_truthy (s : string) : segment s = true -> truthy_str (Some s) = true.
Proof.
  unfold segment. destruct s; simpl; [discriminate | reflexivity].
Qed.

End Strings.

(** ** AttachmentResolver *)

Section ResolverFacts.

(** The path primitives on the examples of Node's documentation. *)
Example basename_samples :
  map basename ["/foo/bar/baz/asdf/quux.html"; "/srv/temp_uploads/u1-x.txt"; "a/b/"; "/"; ""]
  = ["quux.html"; "u1-x.txt"; "b"; ""; ""].
Proof. reflexivity. Qed.

Example extname_samples :
  map extname ["index.html"; "index.coffee.md"; "index."; "index"; ".index"; ".index.md"; ".."]
  = [".html"; ".md"; "."; ""; ""; ".md"; ""].
Proof. reflexivity. Qed.

Example base64_samples :
  map base64 [[Byte.x4d; Byte.x61; Byte.x6e]; [Byte.x4d; Byte.x61]; [Byte.x4d]; []]
  = ["TWFu"; "TWE="; "TQ=="; ""].
Proof. reflexivity. Qed.

Example getMimeType_samples :
  map getMimeType ["/srv/temp_uploads/u1-x.txt"; "scan.PDF"; "photo.Jpeg"; "README"; ".txt"; "run.exe"]
  = ["text/plain"; "application/pdf"; "image/jpeg";
     "application/octet-stream"; "application/octet-stream"; "application/octet-stream"].
Proof. reflexivity. Qed.

Example fileNameOf_samples :
  map fileNameOf ["/srv/temp_uploads/u1-x.txt"; "/srv/temp_uploads/u1-my-file.txt"; "/tmp/plain.txt"]
  = ["x.txt"; "my-file.txt"; ""].
Proof. reflexivity. Qed.

Lemma table_get_In (k : string) (t : list (string * string)) (m : string) :
  table_get k t = Some m -> In (k, m) t.
Proof.
  induction t as [|[k' v] t IH]; simpl; [discriminate|].
  destruct (String.eqb k k') eqn:E.
  - apply String.eqb_eq in E. intros [= <-]. left. congruence.
  - intros H. right. auto.
Qed.

Lemma mimeTypes_In_get (e m : string) :
  In (e, m) mimeTypes -> table_get e mimeTypes = Some m.
Proof.
  unfold mimeTypes. simpl.
  intros H. repeat (destruct H as [[= <- <-] | H]; [reflexivity|]).
  destruct H.
Qed.

Lemma mimeTypes_values_truthy (e m : string) :
  In (e, m) mimeTypes -> truthy_str (Some m) = true.
Proof.
  unfold mimeTypes. simpl.
  intros H. repeat (destruct H as [[= <- <-] | H]; [reflexivity|]).
  destruct H.
Qed.

Lemma getMimeType_lookup (filePath : string) :
  getMimeType filePath =
  match table_get (toLowerCase (extname filePath)) mimeTypes with
  | Some mime => mime
  | None => octet_stream
  end.
Proof.
  unfold getMimeType, js_or.
  destruct (table_get _ mimeTypes) as [m|] eqn:E; [|reflexivity].
  apply table_get_In in E. apply mimeTypes_values_truthy in E.
  now rewrite E.
Qed.

(** C9. Content-type resolution is a total function of the path: when the
    lower-cased extension of the path is a key of the static table the
    result is the MIME type the table gives it; when it is no key of the
    table, and in particular when the path has no extension, the result is
    [application/octet-stream]. Every result is one of these values. *)
Theorem getMimeType_total (filePath : string) :
  let extension := toLowerCase (extname filePath) in
  (forall mime, In (extension, mime) mimeTypes -> getMimeType filePath = mime) /\
  ((forall mime, ~ In (extension, mime) mimeTypes) ->
   getMimeType filePath = "application/octet-stream") /\
  (extname filePath = "" -> getMimeType filePath = "application/octet-stream") /\
  (getMimeType filePath = "application/octet-stream" \/
   In (getMimeType filePath) (map snd mimeTypes)).
Proof.
  intros extension. rewrite getMimeType_lookup. fold extension.
  repeat split.
  - intros mime H. now rewrite (mimeTypes_In_get _ _ H).
  - intros H. destruct (table_get extension mimeTypes) as [m|] eqn:E; [|reflexivity].
    apply table_get_In in E. now apply H in E.
  - intros H. unfold extension. rewrite H. reflexivity.
  - destruct (table_get extension mimeTypes) as [m|] eqn:E; [|now left].
    right. apply table_get_In in E. now apply (in_map snd) in E.
Qed.

(** The basename of an entry of a directory is the entry's name. *)
Lemma basename_join (a b : string) :
  no_slash b = true -> b <> "" -> basename (NodePath.join a b) = b.
Proof.
  unfold no_slash, basename, basename_rev, NodePath.join. intros Hb Hne.
  rewrite chars_app. rewrite append_cons, append_nil. simpl.
  rewrite rev_app_distr. simpl. rewrite <- app_assoc. simpl.
  assert (Hrb : forallb (fun c => negb (is_slash c)) (rev (list_ascii_of_string b)) = true)
    by now rewrite forallb_rev.
  destruct (rev (list_ascii_of_string b)) as [|c r] eqn:Er.
  - exfalso. apply Hne.
    rewrite <- (string_of_list_ascii_of_string b), <- (rev_involutive (list_ascii_of_string b)), Er.
    reflexivity.
  - simpl in Hrb. apply andb_prop in Hrb as [Hc Hr].
    cbn [app drop_while]. apply negb_true_iff in Hc as Hc'. rewrite Hc'.
    change (c :: r ++ "/"%char :: rev (list_ascii_of_string a))
      with ((c :: r) ++ "/"%char :: rev (list_ascii_of_string a)).
    rewrite take_while_all; [| simpl; now rewrite Hc, Hr | reflexivity].
    rewrite <- Er, rev_involutive. apply string_of_list_ascii_of_string.
Qed.

Lemma split_nonempty (sep : ascii) (s : string) : split sep s <> [].
Proof.
  destruct s as [|c s]; simpl; [discriminate|].
  destruct (Ascii.eqb c sep); [discriminate|].
  destruct (split sep s); discriminate.
Qed.

(** [s.split("-").join("-")] gives [s] back. *)
Lemma join_split (s : string) : JsString.join "-" (split "-"%char s) = s.
Proof.
  induction s as [|c s IH]; [reflexivity|].
  simpl. destruct (Ascii.eqb c "-"%char) eqn:E.
  - apply Ascii.eqb_eq in E. subst c.
    unfold JsString.join in *. simpl.
    destruct (split "-"%char s) eqn:Es; [now apply split_nonempty in Es|].
    now rewrite IH.
  - unfold JsString.join in *.
    destruct (split "-"%char s) as [|h t] eqn:Es; [now apply split_nonempty in Es|].
    simpl in *. destruct t; rewrite <- IH; reflexivity.
Qed.

(** Splitting after a first segment that holds no dash. *)
Lemma split_prefix (a b : string) :
  no_dash a = true ->
  split "-"%char (a +:+ "-" +:+ b) = a :: split "-"%char b.
Proof.
  unfold no_dash. induction a as [|c a IH]; intros H.
  - reflexivity.
  - simpl in H. apply andb_prop in H as [Hc Ha].
    rewrite append_cons. simpl. apply negb_true_iff in Hc. rewrite Hc.
    now rewrite (IH Ha).
Qed.

(** What the derivation keeps: everything after the first dash. *)
Lemma fileNameOf_prefixed (dir a b : string) :
  no_dash a = true -> no_slash (a +:+ "-" +:+ b) = true ->
  fileNameOf (NodePath.join dir (a +:+ "-" +:+ b)) = b.
Proof.
  intros Ha Hs. unfold fileNameOf.
  rewrite basename_join; [| exact Hs |].
  - rewrite split_prefix by exact Ha. simpl. apply join_split.
  - destruct a; discriminate.
Qed.

(** For an assembled artifact the derivation gives the file name back,
    when the upload id holds no dash. *)
Lemma fileNameOf_final_path (uploadsDir fileId fileName : string) :
  no_dash fileId = true -> no_slash fileId = true -> no_slash fileName = true ->
  fileNameOf (final_path uploadsDir fileId fileName) = fileName.
Proof.
  intros Hd Hi Hn. unfold final_path. apply fileNameOf_prefixed; [exact Hd|].
  apply no_slash_app; [exact Hi|]. now apply (no_slash_app "-").
Qed.

(** C7. The display name of a directly uploaded file is not its true file
    name: the storage callback puts three segments in front of it (field
    name, clock, random number), the derivation removes the first one only,
    and the clock and the random number stay in the name. *)
Theorem fileNameOf_multer_keeps_suffix (uploadsDir : string) (u : Upload) :
  no_slash (up_originalname u) = true ->
  fileNameOf (multer_path uploadsDir u) =
    of_Z (up_now u) +:+ "-" +:+ of_Z (up_random u) +:+ "-" +:+ up_originalname u
  /\ fileNameOf (multer_path uploadsDir u) <> up_originalname u.
Proof.
  intros Hn.
  assert (E : fileNameOf (multer_path uploadsDir u) =
    of_Z (up_now u) +:+ "-" +:+ of_Z (up_random u) +:+ "-" +:+ up_originalname u).
  { unfold multer_path, multer_filename.
    rewrite !append_assoc.
    apply fileNameOf_prefixed; [reflexivity|].
    apply (no_slash_app "attachments"); [reflexivity|].
    apply (no_slash_app "-"); [reflexivity|].
    apply no_slash_app; [apply no_slash_of_Z|].
    apply (no_slash_app "-"); [reflexivity|].
    apply no_slash_app; [apply no_slash_of_Z|].
    now apply (no_slash_app "-"). }
  split; [exact E|].
  rewrite E. intros H. apply (f_equal String.length) in H.
  rewrite !length_append in H. simpl in H. lia.
Qed.

End ResolverFacts.

(** ** The record store *)

Section DbFacts.

(** C10. [updateEmailStatus(id, status)] keeps every row in its place; the
    row with the given id differs from the old one in its status only, every
    other row is the old row. The attachments and both key sequences are
    untouched. *)
Theorem updateEmailStatus_frame (i : Z) (st : Status) (d : Database) :
  Forall2
    (fun old new =>
       row_id new = row_id old /\
       row_sender new = row_sender old /\
       row_recipients new = row_recipients old /\
       row_subject new = row_subject old /\
       row_body new = row_body old /\
       row_sent_at new = row_sent_at old /\
       (row_id old = i -> row_status new = st) /\
       (row_id old <> i -> new = old))
    (emails d) (emails (updateEmailStatus i st d))
  /\ attachments (updateEmailStatus i st d) = attachments d
  /\ emails_seq (updateEmailStatus i st d) = emails_seq d
  /\ attachments_seq (updateEmailStatus i st d) = attachments_seq d.
Proof.
  repeat split; try reflexivity.
  simpl. induction (emails d) as [|r l IH]; simpl; constructor; [|exact IH].
  destruct (Z.eqb_spec (row_id r) i) as [E|E]; simpl; repeat split; auto; try contradiction.
Qed.

End DbFacts.

(** ** The send pipeline *)

Section SendFacts.

(** *** The attachment loop *)

Lemma attach_one_spec (emailId : Z) (st : Attaching) (p : string) :
  let st' := attach_one emailId st p in
  at_uploadedFiles st' = at_uploadedFiles st ++ [p] /\
  fs (at_world st') = fs (at_world st) /\
  trace (at_world st') = trace (at_world st) /\
  emails (db (at_world st')) = emails (db (at_world st)) /\
  emails_seq (db (at_world st')) = emails_seq (db (at_world st)) /\
  at_attachments st' =
    at_attachments st ++ readable_attachments (fs (at_world st)) [p] /\
  attachments (db (at_world st')) =
    attachments (db (at_world st)) ++
    match readFileSync p (fs (at_world st)) with
    | Some _ => [arow_of (attachments_seq (db (at_world st)) + 1) emailId p]
    | None => []
    end.
Proof.
  unfold attach_one, readable_attachments. simpl.
  destruct (readFileSync p (fs (at_world st))) as [c|]; simpl;
    rewrite ?app_nil_r; repeat split; reflexivity.
Qed.

Lemma attach_fold_spec (emailId : Z) (paths : list string) (st : Attaching) :
  let st' := fold_left (attach_one emailId) paths st in
  at_uploadedFiles st' = at_uploadedFiles st ++ paths /\
  fs (at_world st') = fs (at_world st) /\
  trace (at_world st') = trace (at_world st) /\
  emails (db (at_world st')) = emails (db (at_world st)) /\
  emails_seq (db (at_world st')) = emails_seq (db (at_world st)) /\
  at_attachments st' =
    at_attachments st ++ readable_attachments (fs (at_world st)) paths /\
  exists rows,
    attachments (db (at_world st')) = attachments (db (at_world st)) ++ rows /\
    Forall (fun r => arow_email_id r = emailId) rows /\
    length rows = length (readable_attachments (fs (at_world st)) paths).
Proof.
  revert st. induction paths as [|p paths IH]; intros st; cbn [fold_left].
  - simpl. rewrite !app_nil_r. repeat split; try reflexivity.
    exists []. rewrite app_nil_r. repeat split. constructor.
  - destruct (attach_one_spec emailId st p) as (U1 & F1 & T1 & E1 & S1 & A1 & R1).
    destruct (IH (attach_one emailId st p))
      as (U2 & F2 & T2 & E2 & S2 & A2 & rows & R2 & Rid & Rlen).
    cbv zeta in *.
    assert (Hr : readable_attachments (fs (at_world st)) (p :: paths) =
                 readable_attachments (fs (at_world st)) [p] ++
                 readable_attachments (fs (at_world st)) paths).
    { unfold readable_attachments. simpl. now rewrite app_nil_r. }
    split; [rewrite U2, U1, <- app_assoc; reflexivity|].
    split; [congruence|]. split; [congruence|]. split; [congruence|].
    split; [congruence|].
    split; [rewrite A2, A1, F1, Hr, <- app_assoc; reflexivity|].
    rewrite R2, R1, Hr, length_app. rewrite F1 in Rlen.
    unfold readable_attachments at 1. simpl.
    destruct (readFileSync p (fs (at_world st))) as [c|].
    + exists (arow_of (attachments_seq (db (at_world st)) + 1) emailId p :: rows).
      rewrite <- app_assoc. simpl. repeat split.
      * constructor; [reflexivity | exact Rid].
      * now rewrite Rlen.
    + exists rows. rewrite app_nil_r. simpl. repeat split; assumption.
Qed.

Lemma attach_all_spec (emailId : Z) (paths : list string) (w : World) :
  let st := attach_all emailId paths w in
  at_uploadedFiles st = paths /\
  fs (at_world st) = fs w /\
  trace (at_world st) = trace w /\
  emails (db (at_world st)) = emails (db w) /\
  emails_seq (db (at_world st)) = emails_seq (db w) /\
  at_attachments st = readable_attachments (fs w) paths /\
  exists rows,
    attachments (db (at_world st)) = attachments (db w) ++ rows /\
    Forall (fun r => arow_email_id r = emailId) rows /\
    length rows = length (readable_attachments (fs w) paths).
Proof.
  unfold attach_all.
  exact (attach_fold_spec emailId paths
           {| at_world := w; at_attachments := []; at_uploadedFiles := [] |}).
Qed.

Lemma readable_attachments_In (f : FileSystem) (paths : list string) (p : string) (c : list byte) :
  In p paths -> readFileSync p f = Some c ->
  In (descr_of p c) (readable_attachments f paths).
Proof.
  intros Hin Hr. unfold readable_attachments. apply in_flat_map.
  exists p. split; [exact Hin|]. rewrite Hr. now left.
Qed.

(** *** Cleanup of the tracked files *)

Lemma unlink_quiet_lookup (f : FileSystem) (p q : string) :
  unlink_quiet f p !! q = f !! q \/ unlink_quiet f p !! q = None.
Proof.
  unfold unlink_quiet, unlinkSync.
  destruct (f !! p) as [[d|]|] eqn:E; auto.
  destruct (decide (p = q)) as [->|Hne].
  - right. apply lookup_delete_eq.
  - left. now apply lookup_delete_ne.
Qed.

Lemma unlink_quiet_gone (f : FileSystem) (p : string) :
  readFileSync p (unlink_quiet f p) = None.
Proof.
  unfold unlink_quiet, unlinkSync, readFileSync.
  destruct (f !! p) as [[d|]|] eqn:E; rewrite ?E; try reflexivity.
  now rewrite lookup_delete_eq.
Qed.

Lemma unlink_all_keeps_none (l : list string) (f : FileSystem) (q : string) :
  readFileSync q f = None -> readFileSync q (fold_left unlink_quiet l f) = None.
Proof.
  revert f. induction l as [|p l IH]; intros f H; simpl; [exact H|].
  apply IH. unfold readFileSync in *.
  destruct (unlink_quiet_lookup f p q) as [E|E]; now rewrite E.
Qed.

(** After the cleanup no tracked path holds a file. *)
Lemma unlink_all_gone (l : list string) (f : FileSystem) (q : string) :
  In q l -> readFileSync q (fold_left unlink_quiet l f) = None.
Proof.
  revert f. induction l as [|p l IH]; intros f Hin; simpl; [destruct Hin|].
  destruct Hin as [->|Hin]; [|now apply IH].
  apply unlink_all_keeps_none, unlink_quiet_gone.
Qed.

(** The cleanup touches the tracked paths only. *)
Lemma unlink_all_other (l : list string) (f : FileSystem) (q : string) :
  ~ In q l -> fold_left unlink_quiet l f !! q = f !! q.
Proof.
  revert f. induction l as [|p l IH]; intros f Hq; simpl; [reflexivity|].
  rewrite IH by (intros H; apply Hq; now right).
  unfold unlink_quiet, unlinkSync.
  destruct (f !! p) as [[d|]|]; try reflexivity.
  apply lookup_delete_ne. intros ->. apply Hq. now left.
Qed.

(** *** The handler, step by step *)

Lemma valid_send_false (req : SendReq) :
  valid_send req = false <->
  negb (truthy_str (req_sender req))
  || negb (truthy_field (req_recipients req))
  || negb (truthy_str (req_subject req))
  || negb (truthy_str (req_body req)) = true.
Proof.
  unfold valid_send.
  destruct (truthy_str (req_sender req)), (truthy_field (req_recipients req)),
    (truthy_str (req_subject req)), (truthy_str (req_body req)); simpl; split; congruence.
Qed.

(** A request that fails the check is answered at once; nothing changes. *)
Lemma send_invalid (now : Z) (outcome : option string) (files : list string)
  (req : SendReq) (w : World) :
  valid_send req = false ->
  send now outcome files req w = (ValidationError, w).
Proof.
  intros H. apply valid_send_false in H. unfold send. now rewrite H.
Qed.

Lemma update_fresh_row (i : Z) (st : Status) (l : list EmailRow) (r : EmailRow) :
  Forall (fun x => row_id x <> i) l -> row_id r = i ->
  map (fun x => if Z.eqb (row_id x) i then set_status st x else x) (l ++ [r])
  = l ++ [set_status st r].
Proof.
  intros Hl Hr. rewrite map_app. simpl. rewrite Hr, Z.eqb_refl. f_equal.
  induction Hl as [|x l Hx Hl IH]; simpl; [reflexivity|].
  apply Z.eqb_neq in Hx. now rewrite Hx, IH.
Qed.

(** What a request that passes the check does, in closed form. *)
Lemma send_valid (now : Z) (outcome : option string) (files : list string)
  (req : SendReq) (w : World) :
  valid_send req = true -> wf (db w) ->
  let paths := files ++ chunked_paths (req_attachmentPaths req) in
  let emailId := emails_seq (db w) + 1 in
  let atts := match paths with
              | [] => None
              | _ :: _ => Some (readable_attachments (fs w) paths)
              end in
  exists w',
    send now outcome files req w = (send_reply emailId outcome, w') /\
    trace w' = trace w ++ [Saved emailId pending;
                           Delivered (message_of req atts);
                           StatusSet emailId (final_status outcome)] /\
    emails (db w') =
      emails (db w) ++ [email_row_of emailId now req (final_status outcome)] /\
    emails_seq (db w') = emailId /\
    fs w' = fold_left unlink_quiet paths (fs w) /\
    exists rows,
      Forall (fun r => arow_email_id r = emailId) rows /\
      length rows = length (readable_attachments (fs w) paths) /\
      attachments (db w') =
        match outcome with
        | None => List.filter (fun r => negb (Z.eqb (arow_email_id r) emailId))
                    (attachments (db w) ++ rows)
        | Some _ => attachments (db w) ++ rows
        end.
Proof.
  intros Hv [Hseq Hids] paths emailId atts.
  assert (Hv' : valid_send req <> false) by congruence.
  rewrite valid_send_false in Hv'. apply not_true_is_false in Hv'.
  unfold send. rewrite Hv'. cbn [save_email saveEmail status].
  fold paths. fold emailId.
  set (db1 := {| emails := _; emails_seq := emailId |}).
  set (w1 := log (Saved emailId pending) (with_db w db1)).
  destruct (attach_all_spec emailId paths w1) as (U & F & T & E & S & A & rows & R & Rid & Rlen).
  set (st := attach_all emailId paths w1) in *.
  assert (Hmsg : match paths with
                 | [] => message_of req None
                 | _ :: _ => message_of req (Some (at_attachments st))
                 end = message_of req atts).
  { unfold atts. destruct paths; [reflexivity|]. now rewrite A. }
  assert (Hfresh : Forall (fun x => row_id x <> emailId) (emails (db w))).
  { eapply List.Forall_impl; [|exact Hids]. simpl. intros x Hx. unfold emailId. lia. }
  assert (Hne : Z.eqb emailId 0 = false) by (apply Z.eqb_neq; unfold emailId; lia).
  destruct outcome as [detail|]; cbn [final_status send_reply].
  - rewrite Hne. eexists. split; [reflexivity|].
    cbn. rewrite U, F, T, E, S, R.
    repeat split.
    + rewrite <- !app_assoc. cbn [app]. unfold w1. cbn [trace with_db log].
      rewrite <- Hmsg, <- app_assoc. reflexivity.
    + unfold db1. cbn. now apply update_fresh_row.
    + exists rows. repeat split; assumption.
  - eexists. split; [reflexivity|].
    cbn. rewrite U, F, T, E, S, R.
    repeat split.
    + rewrite <- !app_assoc. cbn [app]. unfold w1. cbn [trace with_db log].
      rewrite <- Hmsg, <- app_assoc. reflexivity.
    + unfold db1. cbn. now apply update_fresh_row.
    + exists rows. repeat split; assumption.
Qed.

End SendFacts.

Section SendClaims.

Lemma readable_attachments_skip (f : FileSystem) (paths : list string) (p : string) :
  readFileSync p f = None ->
  readable_attachments f paths =
  readable_attachments f (List.filter (fun q => negb (String.eqb q p)) paths).
Proof.
  intros Hp. unfold readable_attachments.
  induction paths as [|q paths IH]; simpl; [reflexivity|].
  destruct (String.eqb_spec q p) as [->|Hne]; simpl.
  - now rewrite Hp.
  - now rewrite IH.
Qed.

Lemma find_row_app (i : Z) (l : list EmailRow) (r x : EmailRow) :
  find (fun y => Z.eqb (row_id y) i) l = Some r ->
  find (fun y => Z.eqb (row_id y) i) (l ++ [x]) = Some r.
Proof.
  induction l as [|y l IH]; simpl; [discriminate|].
  destruct (Z.eqb (row_id y) i); auto.
Qed.

Lemma find_row_fresh (i : Z) (l : list EmailRow) (x : EmailRow) :
  Forall (fun y => row_id y <> i) l -> row_id x = i ->
  find (fun y => Z.eqb (row_id y) i) (l ++ [x]) = Some x.
Proof.
  intros Hl Hx. induction Hl as [|y l Hy Hl IH]; simpl.
  - now rewrite Hx, Z.eqb_refl.
  - apply Z.eqb_neq in Hy. now rewrite Hy.
Qed.

Lemma find_row_none (i : Z) (l : list EmailRow) :
  Forall (fun y => row_id y <> i) l ->
  find (fun y => Z.eqb (row_id y) i) l = None.
Proof.
  intros Hl. induction Hl as [|y l Hy Hl IH]; simpl; [reflexivity|].
  apply Z.eqb_neq in Hy. now rewrite Hy.
Qed.

Lemma wf_fresh (d : Database) :
  wf d -> Forall (fun y => row_id y <> emails_seq d + 1) (emails d).
Proof.
  intros [_ H]. eapply List.Forall_impl; [|exact H]. simpl. intros y Hy. lia.
Qed.

(** Every request leaves the stored rows as they are, and the keys stay
    within the sequence. *)
Lemma step_keeps_rows (uploadsDir : string) (op : Op) (w : World) :
  wf (db w) ->
  wf (db (snd (step uploadsDir op w))) /\
  forall i r, find_row i (db w) = Some r ->
              find_row i (db (snd (step uploadsDir op w))) = Some r.
Proof.
  intros Hwf.
  destruct op as [|[i|]|now outcome uploads req|req|req]; simpl.
  - auto.
  - destruct (getEmailById i (db w)); auto.
  - auto.
  - destruct (multer_store uploadsDir uploads (fs w)) as [[files f]|]; [|auto].
    destruct (valid_send req) eqn:Hv.
    + destruct (send_valid now outcome files req (with_fs w f) Hv Hwf)
        as (w' & Hs & _ & He & Hq & _).
      rewrite Hs. simpl in *. split.
      * destruct Hwf as [Hseq Hids]. split; [lia|].
        rewrite He, Hq. apply Forall_app. split.
        -- eapply List.Forall_impl; [|exact Hids]. simpl. intros y Hy. lia.
        -- constructor; [simpl; lia | constructor].
      * intros i r Hr. unfold find_row in *. rewrite He. now apply find_row_app.
    + rewrite (send_invalid now outcome files req (with_fs w f) Hv). auto.
  - destruct (Z.ltb raw_limit _); [auto|].
    destruct (upload_chunk uploadsDir req (fs w)); auto.
  - destruct (upload_complete uploadsDir req (fs w)); auto.
Qed.

Lemma run_keeps_rows (uploadsDir : string) (ops : list Op) (w : World) :
  wf (db w) ->
  wf (db (run uploadsDir ops w)) /\
  forall i r, find_row i (db w) = Some r ->
              find_row i (db (run uploadsDir ops w)) = Some r.
Proof.
  revert w. induction ops as [|op ops IH]; intros w Hwf; simpl; [auto|].
  destruct (step_keeps_rows uploadsDir op w Hwf) as [Hwf1 Hk1].
  destruct (IH _ Hwf1) as [Hwf2 Hk2].
  split; [exact Hwf2|]. intros i r Hr. apply Hk2, Hk1, Hr.
Qed.

Lemma status_updates_app (a b : list Event) :
  status_updates (a ++ b) = status_updates a ++ status_updates b.
Proof. unfold status_updates. apply flat_map_app. Qed.

(** C2. A send attempt that passes validation creates a record under a
    new key, in state [pending], before the provider is called, and sets its
    status exactly once after the call: to [sent] when the provider accepts
    the message and to [failed] when it rejects it; both are terminal. After
    that no request to the service, of whatever kind and in whatever
    number, changes a stored record: in particular a record in a terminal
    state keeps its status. *)
Theorem send_status_machine (uploadsDir : string) (w : World) :
  wf (db w) ->
  (forall now outcome files req,
     valid_send req = true ->
     let emailId := emails_seq (db w) + 1 in
     let w' := snd (send now outcome files req w) in
     getEmailById emailId (db w) = None /\
     (exists msg,
        trace w' = trace w ++ [Saved emailId pending;
                               Delivered msg;
                               StatusSet emailId (final_status outcome)]) /\
     status_updates (trace w') =
       status_updates (trace w) ++ [(emailId, final_status outcome)] /\
     terminal (final_status outcome) = true /\
     option_map status (getEmailById emailId (db w')) = Some (final_status outcome) /\
     forall ops,
       option_map status (getEmailById emailId (db (run uploadsDir ops w')))
       = Some (final_status outcome)) /\
  (forall ops i e,
     getEmailById i (db w) = Some e -> terminal (status e) = true ->
     getEmailById i (db (run uploadsDir ops w)) = Some e).
Proof.
  intros Hwf. split.
  - intros now outcome files req Hv emailId w'.
    destruct (send_valid now outcome files req w Hv Hwf)
      as (w1 & Hs & Ht & He & Hq & _).
    unfold w'. rewrite Hs. cbn [snd]. clear w'.
    pose proof (wf_fresh _ Hwf) as Hfresh. fold emailId in Hfresh.
    assert (Hrow : find_row emailId (db w1)
                   = Some (email_row_of emailId now req (final_status outcome))).
    { unfold find_row. rewrite He. now apply find_row_fresh. }
    assert (Hwf1 : wf (db w1)).
    { destruct Hwf as [Hseq Hids]. split; [rewrite Hq; unfold emailId; lia|].
      rewrite He, Hq. apply Forall_app. split.
      - eapply List.Forall_impl; [|exact Hids]. simpl. intros y Hy. unfold emailId. lia.
      - constructor; [simpl; unfold emailId; lia | constructor]. }
    repeat split.
    + unfold getEmailById, find_row. now rewrite find_row_none.
    + eexists. exact Ht.
    + rewrite Ht, status_updates_app. reflexivity.
    + now destruct outcome.
    + unfold getEmailById. now rewrite Hrow.
    + intros ops. destruct (run_keeps_rows uploadsDir ops w1 Hwf1) as [_ Hk].
      unfold getEmailById. now rewrite (Hk _ _ Hrow).
  - intros ops i e He _. unfold getEmailById in *.
    destruct (find_row i (db w)) as [r|] eqn:Hr; [|discriminate].
    destruct (run_keeps_rows uploadsDir ops w Hwf) as [_ Hk].
    now rewrite (Hk _ _ Hr).
Qed.

(** C3. A request whose [recipients] is the empty list passes the check
    when the other three fields are filled in: it is not answered with the
    validation error, and a record with no recipient is stored. *)
Theorem send_accepts_empty_recipient_list (now : Z) (outcome : option string)
  (files : list string) (req : SendReq) (w : World) :
  req_recipients req = Many [] ->
  truthy_str (req_sender req) = true ->
  truthy_str (req_subject req) = true ->
  truthy_str (req_body req) = true ->
  wf (db w) ->
  fst (send now outcome files req w) <> ValidationError /\
  length (emails (db (snd (send now outcome files req w)))) = S (length (emails (db w))) /\
  option_map recipients
    (getEmailById (emails_seq (db w) + 1) (db (snd (send now outcome files req w))))
  = Some [].
Proof.
  intros Hr H1 H2 H3 Hwf.
  assert (Hv : valid_send req = true).
  { unfold valid_send. now rewrite Hr, H1, H2, H3. }
  destruct (send_valid now outcome files req w Hv Hwf) as (w1 & Hs & _ & He & _).
  rewrite Hs. cbn [fst snd]. repeat split.
  - destruct outcome; discriminate.
  - rewrite He, length_app. simpl. lia.
  - unfold getEmailById, find_row. rewrite He.
    rewrite find_row_fresh; [|now apply wf_fresh|reflexivity].
    simpl. now rewrite Hr.
Qed.

(** The check does reject a request in which a field is missing or is the
    empty string; nothing is stored then. *)
Lemma send_rejects_missing_field (now : Z) (outcome : option string)
  (files : list string) (req : SendReq) (w : World) :
  req_sender req = None \/ req_sender req = Some "" \/
  req_recipients req = Absent \/ req_recipients req = One "" \/
  req_subject req = None \/ req_subject req = Some "" \/
  req_body req = None \/ req_body req = Some "" ->
  send now outcome files req w = (ValidationError, w).
Proof.
  intros H. apply send_invalid. unfold valid_send.
  destruct H as [H|[H|[H|[H|[H|[H|[H|H]]]]]]]; rewrite H; simpl;
    rewrite ?andb_false_r; reflexivity.
Qed.

(** After the handler no tracked path holds a file, whatever the provider
    answered. *)
Lemma send_removes_files (now : Z) (outcome : option string) (files : list string)
  (req : SendReq) (w : World) (p : string) :
  valid_send req = true -> wf (db w) ->
  In p (files ++ chunked_paths (req_attachmentPaths req)) ->
  readFileSync p (fs (snd (send now outcome files req w))) = None.
Proof.
  intros Hv Hwf Hin.
  destruct (send_valid now outcome files req w Hv Hwf) as (w1 & Hs & _ & _ & _ & Hf & _).
  rewrite Hs. cbn [snd]. rewrite Hf. now apply unlink_all_gone.
Qed.

(** When the provider accepts the message, no attachment row of the
    record is left. *)
Lemma send_success_deletes_rows (now : Z) (files : list string) (req : SendReq) (w : World) :
  valid_send req = true -> wf (db w) ->
  getAttachmentsByEmailId (emails_seq (db w) + 1)
    (db (snd (send now None files req w))) = [].
Proof.
  intros Hv Hwf.
  destruct (send_valid now None files req w Hv Hwf)
    as (w1 & Hs & _ & _ & _ & _ & rows & _ & _ & Ha).
  rewrite Hs. cbn [snd]. unfold getAttachmentsByEmailId. rewrite Ha.
  generalize (attachments (db w) ++ rows). clear.
  intros l. induction l as [|r l IH]; simpl; [reflexivity|].
  destruct (Z.eqb (arow_email_id r) (emails_seq (db w) + 1)) eqn:E; simpl.
  - exact IH.
  - rewrite E. exact IH.
Qed.

(** C1. When the provider rejects the message the handler removes the
    files it read, but the attachment rows it stored for the record stay:
    for every path that could be read, the store still holds a row of the
    record after the reply. *)
Theorem send_failure_keeps_attachment_rows (now : Z) (detail : string)
  (files : list string) (req : SendReq) (w : World) (p : string) (c : list byte) :
  valid_send req = true -> wf (db w) ->
  In p (files ++ chunked_paths (req_attachmentPaths req)) ->
  readFileSync p (fs w) = Some c ->
  fst (send now (Some detail) files req w) = DeliveryError detail /\
  readFileSync p (fs (snd (send now (Some detail) files req w))) = None /\
  getAttachmentsByEmailId (emails_seq (db w) + 1)
    (db (snd (send now (Some detail) files req w))) <> [].
Proof.
  intros Hv Hwf Hin Hr.
  split; [|split; [now apply send_removes_files|]].
  - destruct (send_valid now (Some detail) files req w Hv Hwf) as (w1 & Hs & _).
    now rewrite Hs.
  - destruct (send_valid now (Some detail) files req w Hv Hwf)
      as (w1 & Hs & _ & _ & _ & _ & rows & Hid & Hlen & Ha).
    rewrite Hs. cbn [snd]. unfold getAttachmentsByEmailId. rewrite Ha.
    pose proof (readable_attachments_In _ _ _ _ Hin Hr) as Hd.
    destruct rows as [|r rows].
    + simpl in Hlen. destruct (readable_attachments (fs w) _); [destruct Hd | discriminate].
    + inversion Hid as [|? ? Hr0 _]; subst.
      rewrite List.filter_app. simpl. rewrite Hr0, Z.eqb_refl.
      rewrite map_app. simpl. intros H. now apply app_eq_nil in H as [_ H].
Qed.

(** C6. A path that cannot be read does not stop the send: the provider is
    called with the message whose attachments are those of the other
    paths, in order, and the reply is the one the provider's answer alone
    decides. *)
Theorem send_swallows_read_failure (now : Z) (outcome : option string)
  (files : list string) (req : SendReq) (w : World) (p : string) :
  valid_send req = true -> wf (db w) ->
  In p (files ++ chunked_paths (req_attachmentPaths req)) ->
  readFileSync p (fs w) = None ->
  let paths := files ++ chunked_paths (req_attachmentPaths req) in
  let others := List.filter (fun q => negb (String.eqb q p)) paths in
  let emailId := emails_seq (db w) + 1 in
  fst (send now outcome files req w) = send_reply emailId outcome /\
  trace (snd (send now outcome files req w)) =
    trace w ++
      [Saved emailId pending;
       Delivered (message_of req (Some (readable_attachments (fs w) others)));
       StatusSet emailId (final_status outcome)].
Proof.
  intros Hv Hwf Hin Hr paths others emailId.
  destruct (send_valid now outcome files req w Hv Hwf) as (w1 & Hs & Ht & _).
  rewrite Hs. cbn [fst snd]. split; [reflexivity|].
  rewrite Ht. unfold others, paths.
  rewrite <- (readable_attachments_skip _ _ _ Hr).
  destruct (files ++ chunked_paths (req_attachmentPaths req)); [destruct Hin|].
  reflexivity.
Qed.

End SendClaims.

(** ** Chunk storage and assembly *)

Section UploadFacts.

Variables uploadsDir fileId fileName : string.

Let chunkDir := NodePath.join uploadsDir fileId.
Let finalFilePath := final_path uploadsDir fileId fileName.

(** *** The paths of one upload are distinct *)

Lemma chunk_path_ne_dir (i : Z) : chunk_path uploadsDir fileId i <> chunkDir.
Proof. apply join_ne_self. Qed.

Lemma chunk_path_inj (i j : Z) :
  chunk_path uploadsDir fileId i = chunk_path uploadsDir fileId j -> i = j.
Proof. intros H. apply join_inj in H. now apply chunk_name_inj. Qed.

Lemma chunk_path_ne_final (i : Z) : chunk_path uploadsDir fileId i <> finalFilePath.
Proof.
  unfold finalFilePath, chunk_path, final_path, NodePath.join. intros H.
  rewrite (append_assoc uploadsDir) in H. apply append_inv_head in H.
  rewrite !append_cons, !append_nil in H. injection H as H.
  apply append_inv_head in H. discriminate.
Qed.

Lemma dir_ne_final : chunkDir <> finalFilePath.
Proof.
  unfold chunkDir, finalFilePath, final_path. intros H. apply join_inj in H.
  apply (f_equal String.length) in H. rewrite !length_append in H. simpl in H. lia.
Qed.

Lemma uploads_ne_dir : uploadsDir <> chunkDir.
Proof. intros H. symmetry in H. now apply join_ne_self in H. Qed.

Lemma parent_chunk_path (i : Z) : parent (chunk_path uploadsDir fileId i) = chunkDir.
Proof. apply parent_join, no_slash_chunk_name. Qed.

Lemma parent_chunk_dir : no_slash fileId = true -> parent chunkDir = uploadsDir.
Proof. apply parent_join. Qed.

Lemma parent_final :
  no_slash fileId = true -> no_slash fileName = true ->
  parent finalFilePath = uploadsDir.
Proof.
  intros Hi Hn. apply parent_join.
  apply no_slash_app; [exact Hi|]. now apply (no_slash_app "-").
Qed.

(** *** Reading and directory tests through updates *)

Lemma is_dir_insert_file (p q : string) (data : list byte) (f : FileSystem) :
  is_dir q (<[p := File data]> f) = if decide (p = q) then false else is_dir q f.
Proof.
  unfold is_dir. rewrite lookup_insert. now destruct (decide (p = q)).
Qed.

Lemma is_dir_insert_dir (p q : string) (f : FileSystem) :
  is_dir q (<[p := Dir]> f) = if decide (p = q) then true else is_dir q f.
Proof.
  unfold is_dir. rewrite lookup_insert. now destruct (decide (p = q)).
Qed.

Lemma readFileSync_ext (p : string) (f g : FileSystem) :
  f !! p = g !! p -> readFileSync p f = readFileSync p g.
Proof. unfold readFileSync. now intros ->. Qed.

Lemma readFileSync_Some (p : string) (f : FileSystem) (data : list byte) :
  readFileSync p f = Some data <-> f !! p = Some (File data).
Proof.
  unfold readFileSync. destruct (f !! p) as [[x|]|]; split; congruence.
Qed.

(** *** The chunks found in the staging directory *)

Lemma stored_chunks_ext (f g : FileSystem) (k : nat) (i : Z) :
  (forall j, i <= j -> f !! chunk_path uploadsDir fileId j = g !! chunk_path uploadsDir fileId j) ->
  stored_chunks chunkDir f k i = stored_chunks chunkDir g k i.
Proof.
  revert i. induction k as [|k IH]; intros i H; simpl; [reflexivity|].
  change (NodePath.join chunkDir (chunk_name i)) with (chunk_path uploadsDir fileId i).
  rewrite (readFileSync_ext _ f g) by (apply H; lia).
  destruct (readFileSync _ g); [|reflexivity].
  f_equal. apply IH. intros j Hj. apply H. lia.
Qed.

Lemma stored_chunks_length (f : FileSystem) (k : nat) (i : Z) :
  (length (stored_chunks chunkDir f k i) <= k)%nat.
Proof.
  revert i. induction k as [|k IH]; intros i; simpl; [lia|].
  destruct (readFileSync _ f); simpl; [|lia]. specialize (IH (i + 1)). lia.
Qed.

(** A missing chunk cuts the list short. *)
Lemma stored_chunks_missing (f : FileSystem) (k : nat) (i j : Z) :
  i <= j < i + Z.of_nat k ->
  readFileSync (chunk_path uploadsDir fileId j) f = None ->
  (length (stored_chunks chunkDir f k i) < k)%nat.
Proof.
  revert i. induction k as [|k IH]; intros i Hj Hr; simpl; [lia|].
  change (NodePath.join chunkDir (chunk_name i)) with (chunk_path uploadsDir fileId i).
  destruct (readFileSync (chunk_path uploadsDir fileId i) f) eqn:E; simpl; [|lia].
  assert (i <> j) by (intros ->; congruence).
  assert (Hj' : i + 1 <= j < i + 1 + Z.of_nat k) by lia.
  specialize (IH (i + 1) Hj' Hr). lia.
Qed.

(** When every chunk is there the list is the list of the payloads. *)
Lemma stored_chunks_all (f : FileSystem) (payloads : list (list byte)) (i : Z) :
  (forall n, (n < length payloads)%nat ->
     f !! chunk_path uploadsDir fileId (i + Z.of_nat n) = Some (File (nth n payloads []))) ->
  stored_chunks chunkDir f (length payloads) i = payloads.
Proof.
  revert i. induction payloads as [|x l IH]; intros i H; simpl; [reflexivity|].
  change (NodePath.join chunkDir (chunk_name i)) with (chunk_path uploadsDir fileId i).
  assert (E : readFileSync (chunk_path uploadsDir fileId i) f = Some x).
  { apply readFileSync_Some. specialize (H O). simpl in H.
    rewrite Z.add_0_r in H. apply H. lia. }
  rewrite E. f_equal. apply IH. intros n Hn.
  specialize (H (S n)). simpl in H.
  replace (i + 1 + Z.of_nat n) with (i + Z.pos (Pos.of_succ_nat n)) by lia.
  apply H. lia.
Qed.

(** *** The assembly loop *)

Lemma combine_chunks_spec (k : nat) (i : Z) (f : FileSystem) (acc : list byte) :
  f !! finalFilePath = Some (File acc) ->
  let ws := {| ws_path := finalFilePath; ws_open := true |} in
  let chunks := stored_chunks chunkDir f k i in
  let f' := snd (combine_chunks chunkDir ws k i f) in
  fst (combine_chunks chunkDir ws k i f) = Nat.eqb (length chunks) k /\
  f' !! finalFilePath = Some (File (acc ++ concat chunks)) /\
  (forall j, i <= j < i + Z.of_nat (length chunks) ->
     f' !! chunk_path uploadsDir fileId j = None) /\
  (forall q, q <> finalFilePath ->
     (forall j, i <= j < i + Z.of_nat (length chunks) -> q <> chunk_path uploadsDir fileId j) ->
     f' !! q = f !! q).
Proof.
  revert i f acc. induction k as [|k IH]; intros i f acc Hfin ws chunks f'.
  - simpl. rewrite app_nil_r. repeat split; auto. intros j Hj. simpl in Hj. lia.
  - unfold chunks, f'. clear chunks f'. simpl.
    change (NodePath.join chunkDir (chunk_name i)) with (chunk_path uploadsDir fileId i).
    destruct (readFileSync (chunk_path uploadsDir fileId i) f) as [data|] eqn:Hread.
    + apply readFileSync_Some in Hread.
      set (f1 := ws_write ws data f).
      assert (Hf1 : f1 = alter (append_data data) finalFilePath f) by reflexivity.
      assert (Hf1c : f1 !! chunk_path uploadsDir fileId i = Some (File data)).
      { rewrite Hf1, lookup_alter_ne; [exact Hread|].
        intros E. symmetry in E. now apply chunk_path_ne_final in E. }
      unfold unlinkSync. rewrite Hf1c.
      set (f2 := delete (chunk_path uploadsDir fileId i) f1).
      assert (Hf2fin : f2 !! finalFilePath = Some (File (acc ++ data))).
      { unfold f2. rewrite lookup_delete_ne by apply chunk_path_ne_final.
        rewrite Hf1, lookup_alter_eq, Hfin. reflexivity. }
      assert (Hsame : forall q, q <> finalFilePath -> q <> chunk_path uploadsDir fileId i ->
                                f2 !! q = f !! q).
      { intros q Hq1 Hq2. unfold f2. rewrite lookup_delete_ne by congruence.
        rewrite Hf1, lookup_alter_ne by congruence. reflexivity. }
      assert (Hchunks : stored_chunks chunkDir f2 k (i + 1) = stored_chunks chunkDir f k (i + 1)).
      { apply stored_chunks_ext. intros j Hj. apply Hsame.
        - apply chunk_path_ne_final.
        - intros E. apply chunk_path_inj in E. lia. }
      destruct (IH (i + 1) f2 (acc ++ data) Hf2fin) as (Hok & Hcontent & Hgone & Hframe).
      fold ws in Hok, Hcontent, Hgone, Hframe.
      rewrite Hchunks in Hok, Hcontent, Hgone, Hframe.
      simpl. repeat split.
      * exact Hok.
      * rewrite Hcontent, <- app_assoc. reflexivity.
      * intros j Hj. destruct (Z.eq_dec j i) as [->|Hne].
        -- rewrite Hframe.
           ++ unfold f2. apply lookup_delete_eq.
           ++ apply chunk_path_ne_final.
           ++ intros j Hj' E. apply chunk_path_inj in E. lia.
        -- apply Hgone. lia.
      * intros q Hq1 Hq2. rewrite Hframe.
        -- apply Hsame; [exact Hq1|]. apply Hq2. lia.
        -- exact Hq1.
        -- intros j Hj. apply Hq2. lia.
    + simpl. rewrite app_nil_r. repeat split; auto. intros j Hj. lia.
Qed.

(** *** The completion handler *)

Lemma complete_valid (mimeType : string) (totalChunks : Z) :
  segment fileId = true -> segment fileName = true ->
  truthy_str (Some mimeType) = true -> totalChunks <> 0 ->
  negb (truthy_str (Some fileId))
  || negb (truthy_str (Some fileName))
  || Z.eqb totalChunks 0
  || negb (truthy_str (Some mimeType)) = false.
Proof.
  intros Hi Hn Hm Hc.
  rewrite (segment_truthy _ Hi), (segment_truthy _ Hn), Hm.
  apply Z.eqb_neq in Hc. now rewrite Hc.
Qed.

Lemma createWriteStream_opens (f : FileSystem) :
  segment fileId = true -> segment fileName = true ->
  is_dir uploadsDir f = true -> is_dir finalFilePath f = false ->
  createWriteStream finalFilePath f =
  ({| ws_path := finalFilePath; ws_open := true |}, <[finalFilePath := File []]> f).
Proof.
  intros Hi Hn Hu Hf. unfold createWriteStream.
  rewrite parent_final by now apply segment_no_slash.
  now rewrite Hu, Hf.
Qed.

(** The handler up to the end of the loop, for a stream that opened. *)
Lemma upload_complete_unfold (mimeType : string) (totalChunks : Z) (f : FileSystem) :
  segment fileId = true -> segment fileName = true ->
  truthy_str (Some mimeType) = true -> totalChunks <> 0 ->
  is_dir uploadsDir f = true -> is_dir finalFilePath f = false ->
  let ws := {| ws_path := finalFilePath; ws_open := true |} in
  let r := combine_chunks chunkDir ws (Z.to_nat totalChunks) 0
             (<[finalFilePath := File []]> f) in
  upload_complete uploadsDir (complete_req fileId fileName totalChunks mimeType) f =
  if fst r then
    match rmdirSync chunkDir (snd r) with
    | Some f2 => (RespComplete finalFilePath fileName mimeType, f2)
    | None => (CombineFailed, snd r)
    end
  else (CombineFailed, snd r).
Proof.
  intros Hi Hn Hm Hc Hu Hf ws r.
  unfold upload_complete. cbn [complete_req cp_fileId cp_fileName cp_totalChunks cp_mimeType].
  rewrite (complete_valid mimeType totalChunks Hi Hn Hm Hc).
  cbn [default from_option]. unfold Datatypes.id.
  change (final_path uploadsDir fileId fileName) with finalFilePath.
  rewrite (createWriteStream_opens f Hi Hn Hu Hf).
  change (NodePath.join uploadsDir fileId) with chunkDir.
  fold ws. fold r. destruct r as [ok f1]. cbn [fst snd].
  destruct ok; [|reflexivity].
  destruct (rmdirSync chunkDir f1); reflexivity.
Qed.

(** C4, as the code has it. When a chunk index below [totalChunks] has no
    stored chunk, assembly is answered with the failure reply, and the final
    path is left holding a partial artifact: the chunks in front of the first
    missing index, in index order (an empty file when chunk 0 is the missing
    one). Those chunks are gone from the staging directory. *)
Theorem incomplete_upload_partial_artifact (mimeType : string) (totalChunks : Z)
  (f : FileSystem) :
  segment fileId = true -> segment fileName = true ->
  truthy_str (Some mimeType) = true ->
  is_dir uploadsDir f = true -> is_dir finalFilePath f = false ->
  (exists i, 0 <= i < totalChunks /\
             readFileSync (chunk_path uploadsDir fileId i) f = None) ->
  let chunks := stored_chunks chunkDir f (Z.to_nat totalChunks) 0 in
  let res := upload_complete uploadsDir
               (complete_req fileId fileName totalChunks mimeType) f in
  fst res = IncompleteUploadError /\
  snd res !! finalFilePath = Some (File (concat chunks)) /\
  Z.of_nat (length chunks) < totalChunks /\
  (forall j, 0 <= j < Z.of_nat (length chunks) ->
     snd res !! chunk_path uploadsDir fileId j = None).
Proof.
  intros Hi Hn Hm Hu Hf (i & Hirange & Hmiss) chunks res.
  assert (Hc : totalChunks <> 0) by lia.
  unfold res. rewrite (upload_complete_unfold mimeType totalChunks f Hi Hn Hm Hc Hu Hf).
  set (f0 := <[finalFilePath := File []]> f).
  assert (Hf0 : f0 !! finalFilePath = Some (File [])) by apply lookup_insert_eq.
  destruct (combine_chunks_spec (Z.to_nat totalChunks) 0 f0 [] Hf0)
    as (Hok & Hcontent & Hgone & _).
  assert (Hsame : stored_chunks chunkDir f0 (Z.to_nat totalChunks) 0 = chunks).
  { apply stored_chunks_ext. intros j _. unfold f0.
    apply lookup_insert_ne. intros E. symmetry in E. now apply chunk_path_ne_final in E. }
  rewrite Hsame in Hok, Hcontent, Hgone.
  assert (Hlt : (length chunks < Z.to_nat totalChunks)%nat).
  { apply (stored_chunks_missing f _ 0 i); [lia | exact Hmiss]. }
  assert (Hfalse : Nat.eqb (length chunks) (Z.to_nat totalChunks) = false)
    by (apply Nat.eqb_neq; lia).
  rewrite Hok, Hfalse. cbn [fst snd].
  repeat split; [exact Hcontent | lia | exact Hgone].
Qed.

(** Assembly with every chunk in place, and nothing else in the staging
    directory. *)
Lemma upload_complete_ok (mimeType : string) (payloads : list (list byte)) (f : FileSystem) :
  segment fileId = true -> segment fileName = true ->
  truthy_str (Some mimeType) = true -> payloads <> [] ->
  is_dir uploadsDir f = true -> is_dir finalFilePath f = false ->
  is_dir chunkDir f = true ->
  (forall n, (n < length payloads)%nat ->
     f !! chunk_path uploadsDir fileId (Z.of_nat n) = Some (File (nth n payloads []))) ->
  (forall k v, parent k = chunkDir -> f !! k = Some v ->
     exists n, (n < length payloads)%nat /\ k = chunk_path uploadsDir fileId (Z.of_nat n)) ->
  let res := upload_complete uploadsDir
               (complete_req fileId fileName (Z.of_nat (length payloads)) mimeType) f in
  fst res = RespComplete finalFilePath fileName mimeType /\
  snd res !! finalFilePath = Some (File (concat payloads)) /\
  snd res !! chunkDir = None /\
  (forall i, snd res !! chunk_path uploadsDir fileId i = None).
Proof.
  intros Hi Hn Hm Hne Hu Hf Hd Hall Honly res.
  assert (Hc : Z.of_nat (length payloads) <> 0) by (destruct payloads; [congruence | simpl; lia]).
  unfold res. rewrite (upload_complete_unfold mimeType _ f Hi Hn Hm Hc Hu Hf).
  rewrite Nat2Z.id.
  set (f0 := <[finalFilePath := File []]> f).
  assert (Hf0 : f0 !! finalFilePath = Some (File [])) by apply lookup_insert_eq.
  assert (Hf0c : forall j, f0 !! chunk_path uploadsDir fileId j = f !! chunk_path uploadsDir fileId j).
  { intros j. unfold f0. apply lookup_insert_ne.
    intros E. symmetry in E. now apply chunk_path_ne_final in E. }
  destruct (combine_chunks_spec (length payloads) 0 f0 [] Hf0)
    as (Hok & Hcontent & Hgone & Hframe).
  assert (Hchunks : stored_chunks chunkDir f0 (length payloads) 0 = payloads).
  { apply stored_chunks_all. intros n Hlt. rewrite Hf0c. simpl. now apply Hall. }
  rewrite Hchunks in Hok, Hcontent, Hgone, Hframe.
  rewrite Hok, Nat.eqb_refl.
  set (f1 := snd (combine_chunks chunkDir {| ws_path := finalFilePath; ws_open := true |}
                    (length payloads) 0 f0)) in *.
  assert (Hd1 : f1 !! chunkDir = Some Dir).
  { rewrite Hframe.
    - unfold f0. rewrite lookup_insert_ne by (intros E; symmetry in E; now apply dir_ne_final in E).
      unfold is_dir in Hd. destruct (f !! chunkDir) as [[?|]|]; congruence.
    - apply dir_ne_final.
    - intros j _ E. symmetry in E. now apply chunk_path_ne_dir in E. }
  assert (Hempty : dir_empty chunkDir f1 = true).
  { unfold dir_empty. apply bool_decide_eq_true. intros k v Hk Hp.
    assert (Hkf : k <> finalFilePath).
    { intros ->. rewrite parent_final in Hp by now apply segment_no_slash.
      now apply uploads_ne_dir in Hp. }
    destruct (f !! k) as [v0|] eqn:Efk.
    - destruct (Honly k v0 Hp Efk) as (n & Hlt & ->).
      rewrite Hgone in Hk by lia. discriminate.
    - assert (Hin : forall j, 0 <= j < 0 + Z.of_nat (length payloads) ->
                              k <> chunk_path uploadsDir fileId j).
      { intros j Hj ->. specialize (Hall (Z.to_nat j)).
        rewrite Z2Nat.id in Hall by lia. rewrite Hall in Efk by lia. discriminate. }
      rewrite (Hframe k Hkf Hin) in Hk. unfold f0 in Hk.
      rewrite lookup_insert_ne in Hk by congruence. congruence. }
  assert (Hrm : rmdirSync chunkDir f1 = Some (delete chunkDir f1)).
  { unfold rmdirSync, is_dir. now rewrite Hd1, Hempty. }
  rewrite Hrm. cbn [fst snd].
  repeat split.
  - rewrite lookup_delete_ne by apply dir_ne_final. exact Hcontent.
  - apply lookup_delete_eq.
  - intros i. rewrite lookup_delete_ne by (intros E; symmetry in E; now apply chunk_path_ne_dir in E).
    destruct (decide (0 <= i < Z.of_nat (length payloads))) as [Hr|Hr].
    + apply Hgone. lia.
    + rewrite Hframe.
      * rewrite Hf0c. destruct (f !! chunk_path uploadsDir fileId i) as [v|] eqn:E; [|reflexivity].
        destruct (Honly _ v (parent_chunk_path i) E) as (n & Hlt & En).
        apply chunk_path_inj in En. lia.
      * apply chunk_path_ne_final.
      * intros j Hj E. apply chunk_path_inj in E. lia.
Qed.

(** *** The chunk handler *)

Lemma uploads_ne_chunk_path (i : Z) : uploadsDir <> chunk_path uploadsDir fileId i.
Proof.
  unfold chunk_path, NodePath.join. intros H.
  apply (f_equal String.length) in H. rewrite !length_append in H. simpl in H. lia.
Qed.

(** The handler for a request with all its parameters, in closed form: the
    staging directory is made when nothing is at its path, and the chunk is
    written when the staging path is a directory and the chunk path is
    none. *)
Lemma upload_chunk_closed (fName : string) (totalChunks i : Z) (data : list byte)
  (f : FileSystem) :
  truthy_str (Some fileId) = true -> truthy_str (Some fName) = true ->
  let f1 := if existsSync chunkDir f then f else <[chunkDir := Dir]> f in
  upload_chunk uploadsDir (chunk_req fileId fName totalChunks i data) f =
  if is_dir chunkDir f1 && negb (is_dir (chunk_path uploadsDir fileId i) f1)
  then (RespChunk ("Chunk " +:+ of_Z (i + 1) +:+ " of " +:+ of_Z totalChunks +:+ " received"),
        <[chunk_path uploadsDir fileId i := File data]> f1)
  else (RespError "Failed to save chunk" None, f1).
Proof.
  intros Hi Hn f1. unfold upload_chunk.
  cbn [chunk_req ck_chunkIndex ck_totalChunks ck_fileName ck_fileId ck_body].
  rewrite Hi, Hn. cbn [negb orb default from_option]. unfold Datatypes.id.
  change (NodePath.join uploadsDir fileId) with chunkDir.
  change (NodePath.join chunkDir (chunk_name i)) with (chunk_path uploadsDir fileId i).
  assert (E : (if existsSync chunkDir f then Some f else mkdirSync chunkDir f) = Some f1).
  { unfold f1, existsSync, mkdirSync. destruct (f !! chunkDir); reflexivity. }
  rewrite E. unfold writeFileSync. rewrite parent_chunk_path.
  destruct (is_dir chunkDir f1 && negb (is_dir (chunk_path uploadsDir fileId i) f1));
    reflexivity.
Qed.



(** *** Chunks arriving in any order *)

Lemma staged_snoc (writes : list (Z * list byte)) (w : Z * list byte) (f : FileSystem) :
  staged uploadsDir fileId (writes ++ [w]) f =
  <[chunk_path uploadsDir fileId (fst w) := File (snd w)]>
    (<[chunkDir := Dir]> (staged uploadsDir fileId writes f)).
Proof. unfold staged. now rewrite fold_left_app. Qed.

Lemma staged_other (writes : list (Z * list byte)) (f : FileSystem) (q : string) :
  q <> chunkDir ->
  (forall i, In i (map fst writes) -> q <> chunk_path uploadsDir fileId i) ->
  staged uploadsDir fileId writes f !! q = f !! q.
Proof.
  intros Hd. induction writes as [|w writes IH] using rev_ind; intros Hc; [reflexivity|].
  rewrite staged_snoc.
  rewrite lookup_insert_ne.
  - rewrite lookup_insert_ne by congruence. apply IH.
    intros i Hin. apply Hc. rewrite map_app. apply in_or_app. now left.
  - intros E. symmetry in E. revert E. apply Hc.
    rewrite map_app. apply in_or_app. right. now left.
Qed.

Lemma staged_dir (writes : list (Z * list byte)) (f : FileSystem) :
  writes <> [] -> is_dir chunkDir (staged uploadsDir fileId writes f) = true.
Proof.
  destruct writes as [|w writes] using rev_ind; [congruence|]. intros _.
  rewrite staged_snoc. unfold is_dir.
  rewrite lookup_insert_ne by apply chunk_path_ne_dir.
  now rewrite lookup_insert_eq.
Qed.

(** The chunk at an index is the payload written for it. *)
Lemma staged_chunk (writes : list (Z * list byte)) (f : FileSystem) (i : Z) (data : list byte) :
  In (i, data) writes ->
  (forall x, In (i, x) writes -> x = data) ->
  staged uploadsDir fileId writes f !! chunk_path uploadsDir fileId i = Some (File data).
Proof.
  induction writes as [|w writes IH] using rev_ind; intros Hin Hfun; [destruct Hin|].
  rewrite staged_snoc. destruct w as [j x]. cbn [fst snd].
  destruct (Z.eq_dec j i) as [->|Hne].
  - rewrite (Hfun x) by (apply in_or_app; right; now left).
    apply lookup_insert_eq.
  - rewrite lookup_insert_ne by (intros E; apply chunk_path_inj in E; congruence).
    rewrite lookup_insert_ne by (intros E; symmetry in E; now apply chunk_path_ne_dir in E).
    apply IH.
    + apply in_app_or in Hin as [Hin|[Hin|[]]]; [exact Hin | congruence].
    + intros y Hy. apply Hfun. apply in_or_app. now left.
Qed.

(** Chunk requests of one upload, served into a staging area in which no
    file is in the way, leave exactly the staged chunks. *)
Lemma put_chunks_staged (fName : string) (totalChunks : Z)
  (writes : list (Z * list byte)) (f : FileSystem) :
  segment fileId = true -> truthy_str (Some fName) = true ->
  readFileSync chunkDir f = None ->
  (forall k, parent k = chunkDir -> is_dir k f = false) ->
  put_chunks uploadsDir fileId fName totalChunks writes f
  = staged uploadsDir fileId writes f.
Proof.
  intros Hi Hn. revert f.
  induction writes as [|[i data] writes IH]; intros f Hd Hno; [reflexivity|].
  unfold put_chunks, staged in *. cbn [fold_left fst snd].
  rewrite (upload_chunk_closed fName totalChunks i data f (segment_truthy _ Hi) Hn).
  assert (Hg : (if existsSync chunkDir f then f else <[chunkDir := Dir]> f)
               = <[chunkDir := Dir]> f).
  { unfold existsSync, readFileSync in *.
    destruct (f !! chunkDir) as [[?|]|] eqn:E; [discriminate | | reflexivity].
    symmetry. now apply insert_id. }
  rewrite Hg, is_dir_insert_dir.
  destruct (decide (chunkDir = chunkDir)); [|congruence].
  rewrite is_dir_insert_dir.
  destruct (decide (chunkDir = chunk_path uploadsDir fileId i)) as [E|_];
    [symmetry in E; now apply chunk_path_ne_dir in E|].
  rewrite (Hno _ (parent_chunk_path i)). cbn [andb negb snd].
  apply IH.
  - unfold readFileSync.
    rewrite lookup_insert_ne by apply chunk_path_ne_dir.
    now rewrite lookup_insert_eq.
  - intros k Hk. rewrite is_dir_insert_file.
    destruct (decide (chunk_path uploadsDir fileId i = k)); [reflexivity|].
    rewrite is_dir_insert_dir.
    case_decide as E; [|now apply Hno]. subst k.
    pose proof (parent_chunk_dir (segment_no_slash _ Hi)) as Hp.
    unfold chunkDir in Hp, Hk. rewrite Hp in Hk.
    now apply uploads_ne_dir in Hk.
Qed.

(** A chunk request that finds no file at the staging path and no directory
    at the chunk path is accepted: the staging directory is there
    afterwards and the chunk file holds the body. *)
Lemma upload_chunk_accepts (fName : string) (totalChunks i : Z) (data : list byte)
  (f : FileSystem) :
  truthy_str (Some fileId) = true -> truthy_str (Some fName) = true ->
  readFileSync chunkDir f = None ->
  is_dir (chunk_path uploadsDir fileId i) f = false ->
  upload_chunk uploadsDir (chunk_req fileId fName totalChunks i data) f =
  (RespChunk ("Chunk " +:+ of_Z (i + 1) +:+ " of " +:+ of_Z totalChunks +:+ " received"),
   <[chunk_path uploadsDir fileId i := File data]> (<[chunkDir := Dir]> f)).
Proof.
  intros Hi Hn Hd Hc.
  rewrite (upload_chunk_closed fName totalChunks i data f Hi Hn).
  assert (Hg : (if existsSync chunkDir f then f else <[chunkDir := Dir]> f)
               = <[chunkDir := Dir]> f).
  { unfold existsSync, readFileSync in *.
    destruct (f !! chunkDir) as [[?|]|] eqn:E; [discriminate | | reflexivity].
    symmetry. now apply insert_id. }
  rewrite Hg, !is_dir_insert_dir.
  destruct (decide (chunkDir = chunkDir)); [|congruence].
  destruct (decide (chunkDir = chunk_path uploadsDir fileId i)) as [E|_];
    [symmetry in E; now apply chunk_path_ne_dir in E|].
  now rewrite Hc.
Qed.

End UploadFacts.

(** ** The claims on chunk storage and assembly *)

Section UploadClaims.

Lemma upload_chunk_invalid (uploadsDir : string) (req : ChunkReq) (f : FileSystem) :
  ck_chunkIndex req = None \/ ck_totalChunks req = None \/
  truthy_str (ck_fileName req) = false \/ truthy_str (ck_fileId req) = false ->
  upload_chunk uploadsDir req f = (RespBadRequest "Missing required parameters", f).
Proof.
  unfold upload_chunk. intros [H|[H|[H|H]]]; rewrite H.
  - reflexivity.
  - now destruct (ck_chunkIndex req).
  - now destruct (ck_chunkIndex req), (ck_totalChunks req).
  - destruct (ck_chunkIndex req), (ck_totalChunks req); try reflexivity.
    now rewrite orb_true_r.
Qed.


(** C5. The chunks of an upload, sent in any order into a staging area with
    nothing of that upload in it, and then assembled: the reply names the
    final path, and the file there is the concatenation of the payloads in
    ascending index order. *)
Theorem assemble_any_arrival_order (uploadsDir fileId fileName mimeType : string)
  (payloads : list (list byte)) (order : list nat) (f : FileSystem) :
  segment fileId = true -> segment fileName = true ->
  truthy_str (Some mimeType) = true ->
  payloads <> [] ->
  Permutation order (seq 0 (length payloads)) ->
  is_dir uploadsDir f = true ->
  is_dir (final_path uploadsDir fileId fileName) f = false ->
  readFileSync (NodePath.join uploadsDir fileId) f = None ->
  (forall k, parent k = NodePath.join uploadsDir fileId -> f !! k = None) ->
  let totalChunks := Z.of_nat (length payloads) in
  let writes := map (fun n => (Z.of_nat n, nth n payloads [])) order in
  let f1 := put_chunks uploadsDir fileId fileName totalChunks writes f in
  let res := upload_complete uploadsDir
               (complete_req fileId fileName totalChunks mimeType) f1 in
  fst res = RespComplete (final_path uploadsDir fileId fileName) fileName mimeType /\
  snd res !! final_path uploadsDir fileId fileName = Some (File (concat payloads)).
Proof.
  intros Hi Hn Hm Hne Hperm Hu Hfin Hd Hfresh totalChunks writes f1 res.
  assert (Hf1 : f1 = staged uploadsDir fileId writes f).
  { apply put_chunks_staged; auto using segment_truthy.
    intros k Hk. unfold is_dir. now rewrite (Hfresh k Hk). }
  assert (Hidx : forall i, In i (map fst writes) ->
                   exists n, (n < length payloads)%nat /\ i = Z.of_nat n).
  { intros i Hin. unfold writes in Hin. rewrite map_map in Hin. cbn [fst] in Hin.
    apply in_map_iff in Hin as (n & <- & Hn'). exists n. split; [|reflexivity].
    apply (Permutation_in _ Hperm) in Hn'. apply in_seq in Hn'. lia. }
  assert (Hother : forall q, q <> NodePath.join uploadsDir fileId ->
                     (forall i, q <> chunk_path uploadsDir fileId i) ->
                     f1 !! q = f !! q).
  { intros q Hq1 Hq2. rewrite Hf1. apply staged_other; auto. }
  assert (Hwrites : writes <> []).
  { intros E. apply map_eq_nil in E. rewrite E in Hperm.
    apply Permutation_nil in Hperm. destruct payloads; [congruence | discriminate]. }
  destruct (upload_complete_ok uploadsDir fileId fileName mimeType payloads f1)
    as (Hreply & Hcontent & _); auto.
  - unfold is_dir. rewrite Hother; [exact Hu | apply uploads_ne_dir | apply uploads_ne_chunk_path].
  - unfold is_dir. rewrite Hother; [exact Hfin | |].
    + intros E. symmetry in E. now apply dir_ne_final in E.
    + intros i E. symmetry in E. now apply chunk_path_ne_final in E.
  - rewrite Hf1. now apply staged_dir.
  - intros n Hlt. rewrite Hf1. apply staged_chunk.
    + unfold writes. apply in_map_iff. exists n. split; [reflexivity|].
      apply (Permutation_in _ (Permutation_sym Hperm)). apply in_seq. lia.
    + intros x Hx. unfold writes in Hx. apply in_map_iff in Hx as (m & Hm' & _).
      injection Hm' as Hm1 Hm2. apply Nat2Z.inj in Hm1. now subst m.
  - intros k v Hk Hv.
    destruct (in_dec string_dec k (map (chunk_path uploadsDir fileId) (map fst writes)))
      as [Hin|Hnin].
    + apply in_map_iff in Hin as (i & <- & Hin).
      destruct (Hidx i Hin) as (n & Hlt & ->). now exists n.
    + exfalso. rewrite Hother in Hv.
      * rewrite (Hfresh k Hk) in Hv. discriminate.
      * intros ->. rewrite parent_chunk_dir in Hk by now apply segment_no_slash.
        now apply uploads_ne_dir in Hk.
      * intros i ->. rewrite Hf1 in Hv.
        destruct (in_dec Z.eq_dec i (map fst writes)) as [Hi'|Hi'].
        -- apply Hnin. now apply in_map.
        -- rewrite staged_other in Hv.
           ++ rewrite (Hfresh _ Hk) in Hv. discriminate.
           ++ apply chunk_path_ne_dir.
           ++ intros j Hj E. apply chunk_path_inj in E. congruence.
Qed.

End UploadClaims.

(** ** The handlers on the example deployment *)

Section Instances.
Import Example.

Lemma wf_empty : wf Db.empty.
Proof. split; [simpl; lia | constructor]. Qed.

(** The provider rejects a message with the artifact attached: the file is
    removed, the attachment row stays. *)
Lemma send_failure_keeps_attachment_rows_example :
  valid_send req_artifact = true /\
  wf (db world_artifact) /\
  In artifact ([] ++ chunked_paths (req_attachmentPaths req_artifact)) /\
  readFileSync artifact (fs world_artifact) = Some (AB ++ CD ++ EF) /\
  fst (send 100 (Some "rejected") [] req_artifact world_artifact)
    = DeliveryError "rejected" /\
  readFileSync artifact
    (fs (snd (send 100 (Some "rejected") [] req_artifact world_artifact))) = None /\
  getAttachmentsByEmailId (emails_seq (db world_artifact) + 1)
    (db (snd (send 100 (Some "rejected") [] req_artifact world_artifact))) <> [].
Proof.
  assert (H1 : valid_send req_artifact = true) by reflexivity.
  assert (H2 : wf (db world_artifact)) by (split; [simpl; lia | constructor]).
  assert (H3 : In artifact ([] ++ chunked_paths (req_attachmentPaths req_artifact)))
    by (left; reflexivity).
  assert (H4 : readFileSync artifact (fs world_artifact) = Some (AB ++ CD ++ EF))
    by (vm_compute; reflexivity).
  do 4 (split; [assumption|]).
  exact (send_failure_keeps_attachment_rows 100 "rejected" [] req_artifact
           world_artifact artifact (AB ++ CD ++ EF) H1 H2 H3 H4).
Defined.

(** One send on the example deployment, and requests after it. *)
Lemma send_status_machine_example :
  wf (db world_artifact) /\
  valid_send req_artifact = true /\
  status_updates (trace (snd (send 100 None [] req_artifact world_artifact)))
    = [(1, sent)] /\
  forall ops,
    option_map status
      (getEmailById 1 (db (run uploads_dir ops
                             (snd (send 100 None [] req_artifact world_artifact)))))
    = Some sent.
Proof.
  assert (H1 : wf (db world_artifact)) by (split; [simpl; lia | constructor]).
  assert (H2 : valid_send req_artifact = true) by reflexivity.
  split; [exact H1|]. split; [exact H2|].
  destruct (send_status_machine uploads_dir world_artifact H1) as [Hsend _].
  destruct (Hsend 100 None [] req_artifact H2) as (_ & _ & Hupd & _ & _ & Hlater).
  split; [exact Hupd | exact Hlater].
Defined.

(** A request with an empty recipient list is stored and sent. *)
Lemma send_accepts_empty_recipient_list_example :
  req_recipients req_no_recipient = Many [] /\
  truthy_str (req_sender req_no_recipient) = true /\
  truthy_str (req_subject req_no_recipient) = true /\
  truthy_str (req_body req_no_recipient) = true /\
  wf (db world0) /\
  fst (send 100 None [] req_no_recipient world0) <> ValidationError /\
  length (emails (db (snd (send 100 None [] req_no_recipient world0))))
    = S (length (emails (db world0))) /\
  option_map recipients
    (getEmailById (emails_seq (db world0) + 1)
       (db (snd (send 100 None [] req_no_recipient world0)))) = Some [].
Proof.
  assert (H5 : wf (db world0)) by (split; [simpl; lia | constructor]).
  do 5 (split; [first [reflexivity | exact H5]|]).
  exact (send_accepts_empty_recipient_list 100 None [] req_no_recipient world0
           eq_refl eq_refl eq_refl eq_refl H5).
Defined.

(** Chunk 1 of 3 is missing: assembly fails, and afterwards the final path
    holds a file with the bytes of chunk 0, against claim C4 as it is
    stated. *)
Lemma incomplete_upload_leaves_artifact :
  let res := upload_complete uploads_dir
               (complete_req "u1" "x.txt" 3 "text/plain") fs_two_of_three in
  readFileSync (chunk_path uploads_dir "u1" 1) fs_two_of_three = None /\
  fst res = IncompleteUploadError /\
  existsSync artifact (snd res) = true /\
  readFileSync artifact (snd res) = Some AB.
Proof. vm_compute. repeat split. Qed.

Lemma incomplete_upload_partial_artifact_example :
  let res := upload_complete uploads_dir
               (complete_req "u1" "x.txt" 3 "text/plain") fs_two_of_three in
  segment "u1" = true /\ segment "x.txt" = true /\
  truthy_str (Some "text/plain") = true /\
  is_dir uploads_dir fs_two_of_three = true /\
  is_dir (final_path uploads_dir "u1" "x.txt") fs_two_of_three = false /\
  (exists i, 0 <= i < 3 /\
             readFileSync (chunk_path uploads_dir "u1" i) fs_two_of_three = None) /\
  fst res = IncompleteUploadError /\
  snd res !! final_path uploads_dir "u1" "x.txt"
    = Some (File (concat (stored_chunks (NodePath.join uploads_dir "u1")
                            fs_two_of_three (Z.to_nat 3) 0))).
Proof.
  intros res.
  assert (H4 : is_dir uploads_dir fs_two_of_three = true) by (vm_compute; reflexivity).
  assert (H5 : is_dir (final_path uploads_dir "u1" "x.txt") fs_two_of_three = false)
    by (vm_compute; reflexivity).
  assert (H6 : exists i, 0 <= i < 3 /\
             readFileSync (chunk_path uploads_dir "u1" i) fs_two_of_three = None).
  { exists 1. split; [lia | vm_compute; reflexivity]. }
  do 6 (split; [first [reflexivity | assumption]|]).
  destruct (incomplete_upload_partial_artifact uploads_dir "u1" "x.txt" "text/plain" 3
              fs_two_of_three eq_refl eq_refl eq_refl H4 H5 H6) as (Hr & Hc & _).
  split; [exact Hr | exact Hc].
Defined.

(** Three chunks arriving as 2, 0, 1. *)
Lemma assemble_any_arrival_order_example :
  let payloads := [AB; CD; EF] in
  let writes := map (fun n => (Z.of_nat n, nth n payloads [])) [2; 0; 1]%nat in
  let f1 := put_chunks uploads_dir "u1" "x.txt" 3 writes fs0 in
  let res := upload_complete uploads_dir (complete_req "u1" "x.txt" 3 "text/plain") f1 in
  segment "u1" = true /\ segment "x.txt" = true /\
  truthy_str (Some "text/plain") = true /\
  payloads <> [] /\
  Permutation [2; 0; 1]%nat (seq 0 (length payloads)) /\
  is_dir uploads_dir fs0 = true /\
  is_dir (final_path uploads_dir "u1" "x.txt") fs0 = false /\
  readFileSync (NodePath.join uploads_dir "u1") fs0 = None /\
  (forall k, parent k = NodePath.join uploads_dir "u1" -> fs0 !! k = None) /\
  fst res = RespComplete artifact "x.txt" "text/plain" /\
  snd res !! artifact = Some (File (AB ++ CD ++ EF)).
Proof.
  intros payloads writes f1 res.
  assert (H4 : payloads <> []) by discriminate.
  assert (H5 : Permutation [2; 0; 1]%nat (seq 0 (length payloads))).
  { simpl. eapply perm_trans; [apply perm_swap | apply perm_skip, perm_swap]. }
  assert (H6 : is_dir uploads_dir fs0 = true) by (vm_compute; reflexivity).
  assert (H7 : is_dir (final_path uploads_dir "u1" "x.txt") fs0 = false)
    by (vm_compute; reflexivity).
  assert (H8 : readFileSync (NodePath.join uploads_dir "u1") fs0 = None)
    by (vm_compute; reflexivity).
  assert (H9 : forall k, parent k = NodePath.join uploads_dir "u1" -> fs0 !! k = None).
  { intros k Hk. destruct (decide (k = uploads_dir)) as [->|Hne].
    - vm_compute in Hk. discriminate.
    - apply lookup_singleton_ne. congruence. }
  do 9 (split; [first [reflexivity | assumption]|]).
  exact (assemble_any_arrival_order uploads_dir "u1" "x.txt" "text/plain" payloads
           [2; 0; 1]%nat fs0 eq_refl eq_refl eq_refl H4 H5 H6 H7 H8 H9).
Defined.


(** A path without a file next to the artifact: the message carries the
    artifact alone and the send goes through. *)
Lemma send_swallows_read_failure_example :
  let gone := "/srv/temp_uploads/u2-gone.pdf" in
  valid_send req_missing_file = true /\
  wf (db world_artifact) /\
  In gone ([] ++ chunked_paths (req_attachmentPaths req_missing_file)) /\
  readFileSync gone (fs world_artifact) = None /\
  fst (send 100 None [] req_missing_file world_artifact) = RespSent 1 /\
  trace (snd (send 100 None [] req_missing_file world_artifact)) =
    [Saved 1 pending;
     Delivered (message_of req_missing_file
                  (Some [descr_of artifact (AB ++ CD ++ EF)]));
     StatusSet 1 sent].
Proof.
  intros gone.
  assert (H1 : valid_send req_missing_file = true) by reflexivity.
  assert (H2 : wf (db world_artifact)) by (split; [simpl; lia | constructor]).
  assert (H3 : In gone ([] ++ chunked_paths (req_attachmentPaths req_missing_file)))
    by (right; left; reflexivity).
  assert (H4 : readFileSync gone (fs world_artifact) = None) by (vm_compute; reflexivity).
  do 4 (split; [assumption|]).
  exact (send_swallows_read_failure 100 None [] req_missing_file world_artifact gone
           H1 H2 H3 H4).
Defined.

(** The display name of a directly uploaded [report.pdf]. *)
Lemma fileNameOf_multer_keeps_suffix_example :
  no_slash (up_originalname direct_upload) = true /\
  fileNameOf (multer_path uploads_dir direct_upload)
    = "1700000000000-123456789-report.pdf" /\
  fileNameOf (multer_path uploads_dir direct_upload) <> "report.pdf".
Proof.
  split; [reflexivity|].
  exact (fileNameOf_multer_keeps_suffix uploads_dir direct_upload eq_refl).
Defined.

(** The scenario of the design: three chunks, completion, a send that the
    provider accepts. The record is [sent], no attachment row and no file
    of the upload is left. *)
Example end_to_end :
  let ops := [ UploadChunk (chunk_req "u1" "x.txt" 3 0 AB);
               UploadChunk (chunk_req "u1" "x.txt" 3 1 CD);
               UploadChunk (chunk_req "u1" "x.txt" 3 2 EF);
               UploadComplete (complete_req "u1" "x.txt" 3 "text/plain");
               Send 100 None [] req_artifact ] in
  let w := run uploads_dir ops world0 in
  option_map status (getEmailById 1 (db w)) = Some sent /\
  attachments (db w) = [] /\
  fs w = fs0 /\
  trace w =
    [ Saved 1 pending;
      Delivered (message_of req_artifact
                   (Some [ {| ad_content := "QUJDREVG";
                              ad_filename := "x.txt";
                              ad_type := "text/plain";
                              ad_disposition := "attachment" |} ]));
      StatusSet 1 sent ].
Proof. vm_compute. repeat split. Qed.

End Instances.

(** * Further properties of the record store *)

Section DbMore.
Import Shapes.

Lemma find_snoc {A} (p : A -> bool) (l : list A) (x : A) :
  find p (l ++ [x]) =
  match find p l with
  | Some r => Some r
  | None => if p x then Some x else None
  end.
Proof.
  induction l as [|y l IH]; simpl; [reflexivity|].
  destruct (p y); [reflexivity | exact IH].
Qed.

(** X1. [saveEmail] hands out the key after the last one, larger than every
    stored key; the record can be read back under it, with the time of the
    insert as [sentAt]; every other key reads as before, and the attachments
    are untouched. *)
Theorem saveEmail_getEmailById (now : Z) (e : Email) (d : Database) :
  wf d ->
  let i := fst (saveEmail now e d) in
  let d' := snd (saveEmail now e d) in
  i = emails_seq d + 1 /\
  Forall (fun r => row_id r < i) (emails d) /\
  getEmailById i d' = Some (stored_email i now e) /\
  (forall j, j <> i -> getEmailById j d' = getEmailById j d) /\
  length (emails d') = S (length (emails d)) /\
  attachments d' = attachments d /\
  wf d'.
Proof.
  intros [Hseq Hids] i d'. unfold i, d', saveEmail. cbn [fst snd].
  assert (Hnone : find (fun r => Z.eqb (row_id r) (emails_seq d + 1)) (emails d) = None).
  { apply find_row_none. eapply List.Forall_impl; [|exact Hids]. simpl. intros r Hr. lia. }
  repeat split.
  - eapply List.Forall_impl; [|exact Hids]. simpl. intros r Hr. lia.
  - unfold getEmailById, find_row. cbn [emails]. rewrite find_snoc, Hnone.
    cbn [row_id]. now rewrite Z.eqb_refl.
  - clear Hnone. intros j Hj. unfold getEmailById, find_row. cbn [emails].
    rewrite find_snoc.
    destruct (find _ (emails d)); [reflexivity|].
    cbn [row_id]. destruct (Z.eqb_spec (emails_seq d + 1) j); [congruence | reflexivity].
  - cbn [emails]. rewrite length_app. simpl. lia.
  - cbn [emails_seq]. lia.
  - cbn [emails emails_seq]. apply Forall_app. split.
    + eapply List.Forall_impl; [|exact Hids]. simpl. intros r Hr. lia.
    + constructor; [cbn [row_id]; lia | constructor].
Qed.

Lemma find_map_update (i j : Z) (st : Status) (l : list EmailRow) :
  find (fun r => Z.eqb (row_id r) j)
    (map (fun r => if Z.eqb (row_id r) i then set_status st r else r) l)
  = option_map (fun r => if Z.eqb (row_id r) i then set_status st r else r)
      (find (fun r => Z.eqb (row_id r) j) l).
Proof.
  induction l as [|r l IH]; simpl; [reflexivity|].
  assert (E : row_id (if Z.eqb (row_id r) i then set_status st r else r) = row_id r)
    by (destruct (Z.eqb (row_id r) i); reflexivity).
  rewrite E. destruct (Z.eqb (row_id r) j); [reflexivity | exact IH].
Qed.

Lemma find_row_id (j : Z) (l : list EmailRow) (r : EmailRow) :
  find (fun x => Z.eqb (row_id x) j) l = Some r -> row_id r = j.
Proof.
  intros H. apply find_some in H as [_ H]. now apply Z.eqb_eq in H.
Qed.

(** X2. Reading after [updateEmailStatus(i, st)]: key [i] reads as the old
    record with status [st], every other key reads as before; when no record
    has key [i] the store is left as it was. *)
Theorem updateEmailStatus_getEmailById (i : Z) (st : Status) (d : Database) :
  getEmailById i (updateEmailStatus i st d)
    = option_map (fun e => with_status e st) (getEmailById i d) /\
  (forall j, j <> i -> getEmailById j (updateEmailStatus i st d) = getEmailById j d) /\
  (getEmailById i d = None -> updateEmailStatus i st d = d).
Proof.
  unfold getEmailById, find_row, updateEmailStatus. cbn [emails].
  repeat split.
  - rewrite find_map_update.
    destruct (find _ (emails d)) as [r|] eqn:E; [|reflexivity].
    apply find_row_id in E. simpl. now rewrite E, Z.eqb_refl.
  - intros j Hj. rewrite find_map_update.
    destruct (find _ (emails d)) as [r|] eqn:E; [|reflexivity].
    apply find_row_id in E. simpl.
    assert (Hne : Z.eqb (row_id r) i = false) by (apply Z.eqb_neq; congruence).
    now rewrite Hne.
  - intros Hnone. destruct d as [es sq ats asq]. cbn in *. f_equal.
    destruct (find _ es) eqn:E; [discriminate|].
    clear Hnone. induction es as [|r es IH]; simpl in *; [reflexivity|].
    destruct (Z.eqb (row_id r) i); [discriminate|]. now rewrite IH.
Qed.

(** X3. Status updates compose: on one key the later update wins, and
    updates of different keys can be swapped. *)
Theorem updateEmailStatus_compose (i j : Z) (s1 s2 : Status) (d : Database) :
  updateEmailStatus i s2 (updateEmailStatus i s1 d) = updateEmailStatus i s2 d /\
  (i <> j ->
   updateEmailStatus i s1 (updateEmailStatus j s2 d)
   = updateEmailStatus j s2 (updateEmailStatus i s1 d)).
Proof.
  unfold updateEmailStatus. cbn [emails emails_seq attachments attachments_seq].
  split.
  - f_equal. rewrite map_map. apply map_ext. intros r.
    destruct (Z.eqb (row_id r) i) eqn:E; cbn [set_status row_id]; rewrite E; reflexivity.
  - intros Hne. f_equal. rewrite !map_map. apply map_ext. intros r.
    destruct (Z.eqb_spec (row_id r) i) as [Ei|Ei], (Z.eqb_spec (row_id r) j) as [Ej|Ej];
      cbn [set_status row_id];
      try (exfalso; congruence);
      repeat match goal with
             | |- context [Z.eqb (row_id r) ?k] =>
                 destruct (Z.eqb_spec (row_id r) k); try (exfalso; congruence)
             end; reflexivity.
Qed.

Lemma insert_desc_perm (r : EmailRow) (l : list EmailRow) :
  Permutation (insert_desc r l) (r :: l).
Proof.
  induction l as [|x l IH]; simpl; [reflexivity|].
  destruct (Z.leb (row_sent_at x) (row_sent_at r)); [reflexivity|].
  rewrite IH. apply perm_swap.
Qed.

Lemma insert_desc_sorted (r : EmailRow) (l : list EmailRow) :
  most_recent_first l -> most_recent_first (insert_desc r l).
Proof.
  unfold most_recent_first. intros Hs. induction Hs as [|x l Hs IH Hx]; simpl.
  - constructor; constructor.
  - destruct (Z.leb_spec (row_sent_at x) (row_sent_at r)) as [Hle|Hgt].
    + constructor; [now constructor|].
      constructor; [exact Hle|].
      eapply List.Forall_impl; [|exact Hx]. simpl. intros y Hy. lia.
    + constructor; [exact IH|].
      apply (Permutation_Forall (Permutation_sym (insert_desc_perm r l))).
      constructor; [lia | exact Hx].
Qed.

(** X4. [getEmails] lists every stored record exactly once, from the most
    recent [sentAt] down. *)
Theorem getEmails_sorted_permutation (d : Database) :
  exists rows,
    getEmails d = map email_of_row rows /\
    Permutation rows (emails d) /\
    most_recent_first rows.
Proof.
  exists (order_by_sent_at_desc (emails d)). split; [reflexivity|].
  unfold order_by_sent_at_desc.
  induction (emails d) as [|r l [IHp IHs]]; simpl.
  - split; [reflexivity | constructor].
  - split.
    + rewrite insert_desc_perm. now constructor.
    + now apply insert_desc_sorted.
Qed.

(** X5. [saveAttachment] for a stored record: the attachment is read back as
    the last one of its record, under the next key; the attachments of
    every other record, and the records themselves, are as before. *)
Theorem saveAttachment_getAttachments (a : Attachment) (d : Database) :
  is_Some (find_row (emailId a) d) ->
  let k := fst (saveAttachment a d) in
  let d' := snd (saveAttachment a d) in
  k = attachments_seq d + 1 /\
  getAttachmentsByEmailId (emailId a) d'
    = getAttachmentsByEmailId (emailId a) d ++ [stored_attachment k a] /\
  (forall e, e <> emailId a ->
     getAttachmentsByEmailId e d' = getAttachmentsByEmailId e d) /\
  emails d' = emails d /\ emails_seq d' = emails_seq d.
Proof.
  intros _ k d'. unfold k, d', saveAttachment, getAttachmentsByEmailId.
  cbn [fst snd attachments emails emails_seq].
  repeat split.
  - rewrite List.filter_app, map_app. cbn [List.filter arow_email_id].
    now rewrite Z.eqb_refl.
  - intros e He. rewrite List.filter_app, map_app. cbn [List.filter arow_email_id].
    apply Z.eqb_neq in He. rewrite Z.eqb_sym, He. simpl. now rewrite app_nil_r.
Qed.

(** X6. [deleteAttachmentsByEmailId(e)] leaves no attachment of record [e]
    and keeps those of every other record; the records are untouched, and
    deleting again changes nothing. *)
Theorem deleteAttachments_getAttachments (e : Z) (d : Database) :
  getAttachmentsByEmailId e (deleteAttachmentsByEmailId e d) = [] /\
  (forall e', e' <> e ->
     getAttachmentsByEmailId e' (deleteAttachmentsByEmailId e d)
     = getAttachmentsByEmailId e' d) /\
  emails (deleteAttachmentsByEmailId e d) = emails d /\
  deleteAttachmentsByEmailId e (deleteAttachmentsByEmailId e d)
  = deleteAttachmentsByEmailId e d.
Proof.
  unfold getAttachmentsByEmailId, deleteAttachmentsByEmailId.
  cbn [attachments emails emails_seq attachments_seq].
  repeat split.
  - induction (attachments d) as [|r l IH]; simpl; [reflexivity|].
    destruct (Z.eqb (arow_email_id r) e) eqn:E; simpl; [exact IH|].
    now rewrite E.
  - intros e' He. f_equal.
    induction (attachments d) as [|r l IH]; simpl; [reflexivity|].
    destruct (Z.eqb_spec (arow_email_id r) e) as [E|E]; simpl.
    + assert (Hn : Z.eqb (arow_email_id r) e' = false) by (apply Z.eqb_neq; congruence).
      now rewrite Hn.
    + now rewrite IH.
  - f_equal.
    induction (attachments d) as [|r l IH]; simpl; [reflexivity|].
    destruct (Z.eqb (arow_email_id r) e) eqn:E; simpl; [exact IH|].
    now rewrite E, IH.
Qed.

End DbMore.

(** * Further properties of the send pipeline *)

Section SendMore.
Import Shapes Requests.

(** X7. [GET /emails/:id] for an id that is no number, or that the store
    never handed out, is answered with "not found"; nothing changes. *)
Theorem get_email_unknown (uploadsDir : string) (i : option Z) (w : World) :
  wf (db w) ->
  (i = None \/ exists k, i = Some k /\ (k <= 0 \/ emails_seq (db w) < k)) ->
  step uploadsDir (GetEmail i) w = (RespNotFound, w).
Proof.
  intros [_ Hids] [->|(k & -> & Hk)]; [reflexivity|].
  unfold step, getEmailById, find_row.
  rewrite find_row_none; [reflexivity|].
  eapply List.Forall_impl; [|exact Hids]. simpl. intros r Hr. lia.
Qed.

(** X8. A send that passes the check stores the request as it came: one
    more record, under the next key, with the sender, the recipients (a
    single one as a one-element list), the subject and the body of the
    request, the time of the insert and the final status; a later
    [GET /emails/:id] shows exactly this record. *)
Theorem send_then_get (uploadsDir : string) (now : Z) (outcome : option string)
  (files : list string) (sender : string) (recipients : Field)
  (subject body : string) (attachmentPaths : Field) (w : World) :
  let req := send_req sender recipients subject body attachmentPaths in
  valid_send req = true -> wf (db w) ->
  let i := emails_seq (db w) + 1 in
  let w' := snd (send now outcome files req w) in
  fst (send now outcome files req w) = send_reply i outcome /\
  length (emails (db w')) = S (length (emails (db w))) /\
  step uploadsDir (GetEmail (Some i)) w' =
    (RespEmail {| id := Some i;
                  sender := sender;
                  recipients := match recipients with
                                | Many l => l
                                | One r => [r]
                                | Absent => []
                                end;
                  subject := subject;
                  body := body;
                  sentAt := Some now;
                  status := final_status outcome |}, w').
Proof.
  intros req Hv Hwf i w'.
  destruct (send_valid now outcome files req w Hv Hwf) as (w1 & Hs & _ & He & _).
  unfold w'. rewrite Hs. cbn [fst snd]. repeat split.
  - rewrite He, length_app. simpl. lia.
  - unfold step, getEmailById, find_row. rewrite He.
    rewrite find_row_fresh; [reflexivity | now apply wf_fresh | reflexivity].
Qed.

Lemma multer_files_exist (uploadsDir : string) (uploads : list Upload) (f : FileSystem)
  (u : Upload) :
  In u uploads ->
  existsSync (multer_path uploadsDir u)
    (fold_left (fun g x => <[multer_path uploadsDir x := File (up_data x)]> g) uploads f)
  = true.
Proof.
  revert f. induction uploads as [|x l IH] using rev_ind; intros f Hin; [destruct Hin|].
  rewrite fold_left_app. cbn [fold_left]. unfold existsSync.
  destruct (decide (multer_path uploadsDir x = multer_path uploadsDir u)) as [E|E].
  - rewrite E. now rewrite lookup_insert_eq.
  - rewrite lookup_insert_ne by exact E.
    apply in_app_or in Hin as [Hin|[->|[]]]; [|congruence].
    apply (IH f Hin).
Qed.

(** X9. When a multipart send fails the check of the four fields, the files
    multer stored for it stay in the uploads directory: the handler returns
    before it tracks any path, so nothing removes them. The store and the
    trace are as before. *)
Theorem send_invalid_keeps_uploads (uploadsDir : string) (now : Z)
  (outcome : option string) (uploads : list Upload) (req : SendReq) (w : World) :
  within_limit uploads = true -> valid_send req = false ->
  let res := step uploadsDir (Send now outcome uploads req) w in
  fst res = ValidationError /\
  db (snd res) = db w /\ trace (snd res) = trace w /\
  forall u, In u uploads -> existsSync (multer_path uploadsDir u) (fs (snd res)) = true.
Proof.
  intros Hl Hv res. unfold res, step, multer_store.
  unfold within_limit in Hl. rewrite Hl.
  rewrite (send_invalid _ _ _ _ _ Hv). cbn [fst snd with_fs fs db trace].
  repeat split. intros u Hu. now apply multer_files_exist.
Qed.



Lemma filter_other_rows (e i : Z) (l rows : list AttachmentRow) :
  e <> i -> Forall (fun r => arow_email_id r = i) rows ->
  List.filter (fun r => Z.eqb (arow_email_id r) e) (l ++ rows)
  = List.filter (fun r => Z.eqb (arow_email_id r) e) l.
Proof.
  intros He Hrows. rewrite List.filter_app.
  rewrite <- (app_nil_r (List.filter _ l)) at 2. f_equal.
  induction Hrows as [|r rows Hr _ IH]; simpl; [reflexivity|].
  assert (E : Z.eqb (arow_email_id r) e = false) by (apply Z.eqb_neq; congruence).
  now rewrite E.
Qed.

Lemma filter_filter_other (e i : Z) (l : list AttachmentRow) :
  e <> i ->
  List.filter (fun r => Z.eqb (arow_email_id r) e)
    (List.filter (fun r => negb (Z.eqb (arow_email_id r) i)) l)
  = List.filter (fun r => Z.eqb (arow_email_id r) e) l.
Proof.
  intros He. induction l as [|r l IH]; simpl; [reflexivity|].
  destruct (Z.eqb_spec (arow_email_id r) i) as [Ei|Ei]; simpl.
  - assert (E : Z.eqb (arow_email_id r) e = false) by (apply Z.eqb_neq; congruence).
    now rewrite E.
  - now rewrite IH.
Qed.

(** X11. A send never changes the attachments of another record: for every
    key but the new one, [getAttachmentsByEmailId] gives the same list
    before and after, whether the provider accepts or rejects. *)
Theorem send_keeps_other_attachments (now : Z) (outcome : option string)
  (files : list string) (req : SendReq) (w : World) (e : Z) :
  valid_send req = true -> wf (db w) -> e <> emails_seq (db w) + 1 ->
  getAttachmentsByEmailId e (db (snd (send now outcome files req w)))
  = getAttachmentsByEmailId e (db w).
Proof.
  intros Hv Hwf He.
  destruct (send_valid now outcome files req w Hv Hwf)
    as (w1 & Hs & _ & _ & _ & _ & rows & Hid & _ & Ha).
  rewrite Hs. cbn [snd]. unfold getAttachmentsByEmailId. rewrite Ha. f_equal.
  destruct outcome.
  - now apply (filter_other_rows e (emails_seq (db w) + 1)).
  - rewrite filter_filter_other by exact He.
    now apply (filter_other_rows e (emails_seq (db w) + 1)).
Qed.

Lemma readable_attachments_all (f : FileSystem) (paths : list string) :
  Forall (fun p => is_Some (readFileSync p f)) paths ->
  readable_attachments f paths
  = map (fun p => descr_of p (default [] (readFileSync p f))) paths.
Proof.
  unfold readable_attachments. induction 1 as [|p l [c Hc] _ IH]; simpl; [reflexivity|].
  now rewrite Hc, IH.
Qed.

(** X12. The message handed to the provider when every path of the request
    can be read: recipients, sender and subject of the request, the body as
    both text and HTML, and one attachment per path, in the order of the
    paths, with the base64 text of the file; without any path the message
    has no attachments field. It is handed over after the record is stored
    and before its status is set. *)
Theorem send_delivers_message (now : Z) (outcome : option string)
  (files : list string) (sender : string) (recipients : Field)
  (subject body : string) (attachmentPaths : Field) (w : World) :
  let req := send_req sender recipients subject body attachmentPaths in
  let paths := files ++ chunked_paths attachmentPaths in
  valid_send req = true -> wf (db w) ->
  Forall (fun p => is_Some (readFileSync p (fs w))) paths ->
  let i := emails_seq (db w) + 1 in
  trace (snd (send now outcome files req w)) =
  trace w ++
  [ Saved i pending;
    Delivered
      {| msg_to := recipient_list recipients;
         msg_from := sender;
         msg_subject := subject;
         msg_text := body;
         msg_html := body;
         msg_attachments :=
           match paths with
           | [] => None
           | _ :: _ =>
               Some (map (fun p =>
                            {| ad_content := base64 (default [] (readFileSync p (fs w)));
                               ad_filename := fileNameOf p;
                               ad_type := getMimeType p;
                               ad_disposition := "attachment" |}) paths)
           end |};
    StatusSet i (final_status outcome) ].
Proof.
  intros req paths Hv Hwf Hall i.
  destruct (send_valid now outcome files req w Hv Hwf) as (w1 & Hs & Ht & _).
  rewrite Hs. cbn [snd]. rewrite Ht.
  change (files ++ chunked_paths (req_attachmentPaths req)) with paths.
  rewrite (readable_attachments_all _ _ Hall).
  destruct paths; reflexivity.
Qed.

Lemma sorted_snoc (l : list Z) (x : Z) :
  StronglySorted Z.lt l -> Forall (fun y => y < x) l -> StronglySorted Z.lt (l ++ [x]).
Proof.
  intros Hs Hx. induction Hs as [|y l Hs IH Hy]; simpl.
  - constructor; constructor.
  - inversion Hx as [|? ? Hyx Hlx]; subst. constructor; [now apply IH|].
    apply Forall_app. split; [exact Hy | constructor; [exact Hyx | constructor]].
Qed.

Lemma sorted_NoDup (l : list Z) : StronglySorted Z.lt l -> List.NoDup l.
Proof.
  induction 1 as [|x l Hs IHs Hx]; constructor; [|exact IHs].
  intros Hin. rewrite List.Forall_forall in Hx. apply Hx in Hin. lia.
Qed.

(** One request: the rows stay, and a request that stores a record adds
    one row under the next key. *)
Lemma step_appends (uploadsDir : string) (op : Op) (w : World) :
  wf (db w) -> keys_increasing (db w) ->
  let w' := snd (step uploadsDir op w) in
  exists more,
    emails (db w') = emails (db w) ++ more /\
    length more = (if stores_record op then 1 else 0)%nat /\
    wf (db w') /\ keys_increasing (db w').
Proof.
  intros Hwf Hinc w'.
  assert (Hsame : forall v, db v = db w -> exists more,
            emails (db v) = emails (db w) ++ more /\ length more = O /\
            wf (db v) /\ keys_increasing (db v)).
  { intros v E. exists []. rewrite E, app_nil_r. auto. }
  unfold w'. destruct op as [|[i|]|now outcome uploads req|req|req];
    cbn [stores_record].
  - now apply Hsame.
  - apply Hsame. simpl. now destruct (getEmailById i (db w)).
  - now apply Hsame.
  - unfold step, multer_store. fold (within_limit uploads).
    destruct (within_limit uploads); cbn [andb]; [|now apply Hsame].
    set (files := map (multer_path uploadsDir) uploads).
    set (w0 := with_fs w _).
    destruct (valid_send req) eqn:Hv.
    + destruct (send_valid now outcome files req w0 Hv Hwf)
        as (w1 & Hs & _ & He & Hq & _).
      rewrite Hs. cbn [snd]. cbn [w0 with_fs db] in He, Hq.
      eexists. split; [exact He|]. split; [reflexivity|].
      destruct Hwf as [Hseq Hids]. split.
      * split; [lia|]. rewrite He, Hq. apply Forall_app. split.
        -- eapply List.Forall_impl; [|exact Hids]. simpl. intros y Hy. lia.
        -- constructor; [simpl; lia | constructor].
      * unfold keys_increasing in *. rewrite He, map_app. cbn [map email_row_of row_id].
        apply sorted_snoc; [exact Hinc|].
        apply Forall_map. eapply List.Forall_impl; [|exact Hids]. simpl. intros y Hy. lia.
    + rewrite (send_invalid _ _ _ _ _ Hv). now apply Hsame.
  - apply Hsame. simpl. destruct (Z.ltb raw_limit _); [reflexivity|].
    now destruct (upload_chunk uploadsDir req (fs w)).
  - apply Hsame. simpl. now destruct (upload_complete uploadsDir req (fs w)).
Qed.

(** X13. Over any sequence of requests the service only appends to the
    records: the rows stored before are still there, unchanged and in
    place; one row is added for every send that gets past multer and past
    the check of the four fields, and for no other request; keys stay
    within the sequence and grow along the rows, so no two records share
    a key. *)
Theorem run_appends_records (uploadsDir : string) (ops : list Op) (w : World) :
  wf (db w) -> keys_increasing (db w) ->
  let w' := run uploadsDir ops w in
  exists more,
    emails (db w') = emails (db w) ++ more /\
    length more = length (List.filter stores_record ops) /\
    wf (db w') /\ keys_increasing (db w') /\
    List.NoDup (map row_id (emails (db w'))).
Proof.
  revert w. induction ops as [|op ops IH]; intros w Hwf Hinc; cbn [run fold_left].
  - exists []. rewrite app_nil_r.
    split; [reflexivity|]. split; [reflexivity|]. split; [exact Hwf|].
    split; [exact Hinc | now apply sorted_NoDup].
  - destruct (step_appends uploadsDir op w Hwf Hinc) as (m1 & He1 & Hl1 & Hwf1 & Hinc1).
    destruct (IH _ Hwf1 Hinc1) as (m2 & He2 & Hl2 & Hwf2 & Hinc2 & Hnd).
    exists (m1 ++ m2). fold (run uploadsDir ops (snd (step uploadsDir op w))).
    split; [rewrite He2, He1, <- app_assoc; reflexivity|].
    split; [|auto].
    rewrite length_app, Hl1, Hl2. cbn [List.filter].
    destruct (stores_record op); reflexivity.
Qed.

Lemma no_dash_uint (d : Decimal.uint) : no_dash (NilEmpty.string_of_uint d) = true.
Proof. unfold no_dash. induction d; simpl; auto. Qed.

Lemma no_dash_of_Z (z : Z) : 0 <= z -> no_dash (of_Z z) = true.
Proof.
  unfold of_Z. destruct z as [|p|p]; intros H; simpl.
  - reflexivity.
  - apply no_dash_uint.
  - lia.
Qed.

(** A first dash-free segment is determined by the whole. *)
Lemma dash_prefix_inj (a a' b b' : string) :
  no_dash a = true -> no_dash a' = true ->
  a +:+ "-" +:+ b = a' +:+ "-" +:+ b' -> a = a' /\ b = b'.
Proof.
  intros Ha Ha' H.
  assert (E : split "-"%char (a +:+ "-" +:+ b) = split "-"%char (a' +:+ "-" +:+ b'))
    by now rewrite H.
  rewrite !split_prefix in E by assumption.
  injection E as E1 E2. subst a'. split; [reflexivity|].
  apply append_inv_head in H. rewrite !append_cons, !append_nil in H. now injection H.
Qed.

(** X14. The name multer's storage callback gives a file determines the
    clock value, the random number and the original name it was built from:
    two files of direct uploads are stored under one path only when all
    three coincide. *)
Theorem multer_path_inj (uploadsDir : string) (u u' : Upload) :
  0 <= up_now u -> 0 <= up_random u -> 0 <= up_now u' -> 0 <= up_random u' ->
  multer_path uploadsDir u = multer_path uploadsDir u' ->
  up_now u = up_now u' /\ up_random u = up_random u' /\
  up_originalname u = up_originalname u'.
Proof.
  intros H1 H2 H3 H4 E. unfold multer_path in E. apply join_inj in E.
  unfold multer_filename in E. rewrite !append_assoc in E.
  apply dash_prefix_inj in E as [_ E]; [|reflexivity|reflexivity].
  apply dash_prefix_inj in E as [En E]; [|now apply no_dash_of_Z|now apply no_dash_of_Z].
  apply dash_prefix_inj in E as [Er E]; [|now apply no_dash_of_Z|now apply no_dash_of_Z].
  apply of_Z_inj in En. apply of_Z_inj in Er. auto.
Qed.

End SendMore.

(** * Further properties of chunk storage and assembly *)

Section UploadMore.

Variables uploadsDir fileId fileName : string.

Let chunkDir := NodePath.join uploadsDir fileId.
Let finalFilePath := final_path uploadsDir fileId fileName.

(** X15. A chunk request with all its parameters, for an upload whose id
    is a single path segment and whose index and count are integers a JS
    number holds exactly, into an uploads directory with no file at the
    staging path and no directory at the chunk path: the reply counts the
    chunk from one, the chunk file holds exactly the body, the staging
    directory exists, and no other path is touched. *)
Theorem upload_chunk_effect (fName : string) (totalChunks i : Z) (data : list byte)
  (f : FileSystem) :
  segment fileId = true -> truthy_str (Some fName) = true ->
  Requests.safe_integer i = true -> Requests.safe_integer totalChunks = true ->
  is_dir uploadsDir f = true ->
  readFileSync chunkDir f = None ->
  is_dir (chunk_path uploadsDir fileId i) f = false ->
  let res := upload_chunk uploadsDir (chunk_req fileId fName totalChunks i data) f in
  fst res = RespChunk ("Chunk " +:+ of_Z (i + 1) +:+ " of " +:+ of_Z totalChunks
                       +:+ " received") /\
  readFileSync (chunk_path uploadsDir fileId i) (snd res) = Some data /\
  is_dir chunkDir (snd res) = true /\
  (forall q, q <> chunk_path uploadsDir fileId i -> q <> chunkDir ->
     snd res !! q = f !! q).
Proof.
  intros Hseg Hn _ _ _ Hd Hc res. unfold res.
  rewrite (upload_chunk_accepts uploadsDir fileId fName totalChunks i data f
             (segment_truthy _ Hseg) Hn Hd Hc).
  change (NodePath.join uploadsDir fileId) with chunkDir.
  cbn [fst snd]. repeat split.
  - apply readFileSync_Some, lookup_insert_eq.
  - rewrite is_dir_insert_file.
    destruct (decide (chunk_path uploadsDir fileId i = chunkDir)) as [E|_];
      [now apply chunk_path_ne_dir in E|].
    rewrite is_dir_insert_dir. now destruct (decide (chunkDir = chunkDir)).
  - intros q Hq1 Hq2. rewrite lookup_insert_ne by congruence.
    now rewrite lookup_insert_ne by congruence.
Qed.

(** X16. A chunk request for an upload whose id is a single path segment
    and whose index and count are integers a JS number holds exactly, into
    an uploads directory where a file sits at the staging path, or where
    the staging directory holds a directory at the chunk path: the answer
    is "Failed to save chunk", and nothing changes. *)
Theorem upload_chunk_blocked (fName : string) (totalChunks i : Z) (data : list byte)
  (f : FileSystem) :
  segment fileId = true -> truthy_str (Some fName) = true ->
  Requests.safe_integer i = true -> Requests.safe_integer totalChunks = true ->
  is_dir uploadsDir f = true ->
  is_Some (readFileSync chunkDir f) \/
  (is_dir chunkDir f = true /\ is_dir (chunk_path uploadsDir fileId i) f = true) ->
  upload_chunk uploadsDir (chunk_req fileId fName totalChunks i data) f
  = (RespError "Failed to save chunk" None, f).
Proof.
  intros Hseg Hn _ _ _ Hblocked.
  rewrite (upload_chunk_closed uploadsDir fileId fName totalChunks i data f
             (segment_truthy _ Hseg) Hn).
  change (NodePath.join uploadsDir fileId) with chunkDir.
  destruct Hblocked as [[x Hx]|[Hd Hc]].
  - apply readFileSync_Some in Hx.
    unfold existsSync, is_dir. rewrite !Hx. reflexivity.
  - assert (He : existsSync chunkDir f = true).
    { unfold existsSync, is_dir in *. now destruct (f !! chunkDir). }
    now rewrite He, Hd, Hc.
Qed.

End UploadMore.

Section Isolation.

Lemma no_slash_cons (c : ascii) (s : string) :
  no_slash (String c s) = negb (is_slash c) && no_slash s.
Proof. reflexivity. Qed.

(** A first slash-free segment is determined by the whole. *)
Lemma slash_prefix_inj (a a' b b' : string) :
  no_slash a = true -> no_slash a' = true ->
  a +:+ "/" +:+ b = a' +:+ "/" +:+ b' -> a = a'.
Proof.
  revert a'. induction a as [|c a IH]; intros [|c' a'] Ha Ha' H.
  - reflexivity.
  - rewrite append_nil, !append_cons in H. injection H as <- _.
    rewrite no_slash_cons in Ha'. discriminate.
  - rewrite append_nil, !append_cons in H. injection H as -> _.
    rewrite no_slash_cons in Ha. discriminate.
  - rewrite !append_cons in H. injection H as <- H.
    rewrite no_slash_cons in Ha, Ha'.
    apply andb_prop in Ha as [_ Ha]. apply andb_prop in Ha' as [_ Ha'].
    f_equal. now apply IH.
Qed.

Lemma no_slash_join (a b : string) : no_slash (a +:+ String "/"%char b) = false.
Proof.
  induction a as [|c a IH]; [reflexivity|].
  rewrite append_cons, no_slash_cons, IH. apply andb_false_r.
Qed.

(** X17. Uploads with different ids do not touch each other's staging
    area: a chunk request of one upload leaves every chunk, and the staging
    directory, of any other upload as they are (ids being single path
    segments). *)
Theorem upload_chunk_isolated (uploadsDir id1 id2 fName : string)
  (totalChunks i : Z) (data : list byte) (f : FileSystem) :
  segment id1 = true -> segment id2 = true -> truthy_str (Some fName) = true ->
  id1 <> id2 ->
  let f' := snd (upload_chunk uploadsDir (chunk_req id1 fName totalChunks i data) f) in
  f' !! NodePath.join uploadsDir id2 = f !! NodePath.join uploadsDir id2 /\
  forall j, f' !! chunk_path uploadsDir id2 j = f !! chunk_path uploadsDir id2 j.
Proof.
  intros H1 H2 Hn Hne f'.
  pose proof (segment_no_slash _ H1) as S1. pose proof (segment_no_slash _ H2) as S2.
  assert (Hframe : forall q, q <> NodePath.join uploadsDir id1 ->
                     q <> chunk_path uploadsDir id1 i -> f' !! q = f !! q).
  { intros q Hq1 Hq2. unfold f'.
    rewrite (upload_chunk_closed uploadsDir id1 fName totalChunks i data f
               (segment_truthy _ H1) Hn).
    assert (E : forall g : FileSystem,
              (if existsSync (NodePath.join uploadsDir id1) f then f
               else <[NodePath.join uploadsDir id1 := Dir]> f) !! q = f !! q).
    { intros _. destruct (existsSync _ f); [reflexivity|].
      now rewrite lookup_insert_ne by congruence. }
    destruct (is_dir _ _ && negb _); cbn [snd].
    - rewrite lookup_insert_ne by congruence. now apply E.
    - now apply E. }
  split.
  - apply Hframe.
    + intros E. apply join_inj in E. congruence.
    + unfold chunk_path, NodePath.join. rewrite append_assoc. intros E.
      apply append_inv_head in E. rewrite !append_cons, !append_nil in E.
      injection E as E. apply (f_equal no_slash) in E.
      rewrite (no_slash_join id1 (chunk_name i)) in E. congruence.
  - intros j. apply Hframe.
    + unfold chunk_path, NodePath.join. rewrite append_assoc. intros E.
      apply append_inv_head in E. rewrite !append_cons, !append_nil in E.
      injection E as E. apply (f_equal no_slash) in E.
      rewrite (no_slash_join id2 (chunk_name j)) in E. congruence.
    + unfold chunk_path, NodePath.join. rewrite !append_assoc. intros E.
      apply append_inv_head in E. rewrite !append_cons, !append_nil in E.
      injection E as E. apply slash_prefix_inj in E; congruence.
Qed.

End Isolation.

Section CompleteMore.

Variables uploadsDir fileId fileName : string.

Let chunkDir := NodePath.join uploadsDir fileId.
Let finalFilePath := final_path uploadsDir fileId fileName.

Lemma rmdirSync_cases (d : string) (f : FileSystem) :
  rmdirSync d f = None \/
  (rmdirSync d f = Some (delete d f) /\
   forall k, parent k = d -> f !! k = None).
Proof.
  unfold rmdirSync. destruct (is_dir d f); [|now left].
  destruct (dir_empty d f) eqn:E; [|now left].
  right. split; [reflexivity|]. intros k Hk.
  unfold dir_empty in E. apply bool_decide_eq_true in E.
  destruct (f !! k) as [v|] eqn:Ek; [|reflexivity].
  exfalso. exact (E k v Ek Hk).
Qed.

(** What the completion handler can touch, for a stream that opened. *)
Lemma upload_complete_frame (mimeType : string) (totalChunks : Z) (f : FileSystem)
  (q : string) :
  segment fileId = true -> segment fileName = true ->
  truthy_str (Some mimeType) = true -> totalChunks <> 0 ->
  is_dir uploadsDir f = true -> is_dir finalFilePath f = false ->
  q <> finalFilePath -> q <> chunkDir ->
  (forall j, q <> chunk_path uploadsDir fileId j) ->
  snd (upload_complete uploadsDir (complete_req fileId fileName totalChunks mimeType) f) !! q
  = f !! q.
Proof.
  intros Hi Hn Hm Hc Hu Hf Hq1 Hq2 Hq3. unfold finalFilePath, chunkDir in *.
  rewrite (upload_complete_unfold uploadsDir fileId fileName mimeType totalChunks f
             Hi Hn Hm Hc Hu Hf).
  set (f0 := <[final_path uploadsDir fileId fileName := File []]> f).
  assert (Hf0 : f0 !! final_path uploadsDir fileId fileName = Some (File []))
    by apply lookup_insert_eq.
  destruct (combine_chunks_spec uploadsDir fileId fileName (Z.to_nat totalChunks) 0 f0 [] Hf0)
    as (_ & _ & _ & Hframe).
  assert (E : snd (combine_chunks (NodePath.join uploadsDir fileId)
                     {| ws_path := final_path uploadsDir fileId fileName; ws_open := true |}
                     (Z.to_nat totalChunks) 0 f0) !! q = f !! q).
  { rewrite Hframe; [| exact Hq1 | intros j _; apply Hq3].
    unfold f0. apply lookup_insert_ne. congruence. }
  destruct (fst (combine_chunks _ _ _ _ _)); [|exact E].
  destruct (rmdirSync_cases (NodePath.join uploadsDir fileId)
              (snd (combine_chunks (NodePath.join uploadsDir fileId)
                      {| ws_path := final_path uploadsDir fileId fileName; ws_open := true |}
                      (Z.to_nat totalChunks) 0 f0))) as [R|[R _]]; rewrite R; cbn [snd].
  - exact E.
  - rewrite lookup_delete_ne by congruence. exact E.
Qed.

(** X18. The footprint of a completion request (the stream having opened):
    it touches the final path, the staging directory and the chunk files of
    the upload, and nothing else; when it replies with success, the staging
    directory is gone and nothing is left under it. *)
Theorem upload_complete_footprint (mimeType : string) (totalChunks : Z) (f : FileSystem) :
  segment fileId = true -> segment fileName = true ->
  truthy_str (Some mimeType) = true -> totalChunks <> 0 ->
  is_dir uploadsDir f = true -> is_dir finalFilePath f = false ->
  let res := upload_complete uploadsDir
               (complete_req fileId fileName totalChunks mimeType) f in
  (forall q, q <> finalFilePath -> q <> chunkDir ->
     (forall j, q <> chunk_path uploadsDir fileId j) ->
     snd res !! q = f !! q) /\
  (fst res = RespComplete finalFilePath fileName mimeType ->
   snd res !! chunkDir = None /\
   forall k, parent k = chunkDir -> snd res !! k = None).
Proof.
  intros Hi Hn Hm Hc Hu Hf res. unfold finalFilePath, chunkDir in *. split.
  - intros q Hq1 Hq2 Hq3. apply upload_complete_frame; assumption.
  - unfold res.
    rewrite (upload_complete_unfold uploadsDir fileId fileName mimeType totalChunks f
               Hi Hn Hm Hc Hu Hf).
    destruct (fst (combine_chunks _ _ _ _ _)); [|discriminate].
    match goal with
    | |- context [rmdirSync ?d ?g] =>
        destruct (rmdirSync_cases d g) as [R|[R Hempty]]; rewrite R; cbn [fst snd]
    end; [discriminate|].
    intros _. split; [apply lookup_delete_eq|].
    intros k Hk. destruct (decide (NodePath.join uploadsDir fileId = k)) as [<-|Hne].
    + apply lookup_delete_eq.
    + rewrite lookup_delete_ne by exact Hne. now apply Hempty.
Qed.

(** X19. One stray entry in the staging directory turns a complete upload
    into a failure reply: every chunk is there, the final path receives
    the whole artifact and the chunks are consumed, but the staging
    directory cannot be removed and the reply is "Failed to combine
    chunks". *)
Theorem upload_complete_stray_entry (mimeType : string) (payloads : list (list byte))
  (f : FileSystem) (k : string) (v : Node) :
  segment fileId = true -> segment fileName = true ->
  truthy_str (Some mimeType) = true -> payloads <> [] ->
  is_dir uploadsDir f = true -> is_dir finalFilePath f = false ->
  is_dir chunkDir f = true ->
  (forall n, (n < length payloads)%nat ->
     f !! chunk_path uploadsDir fileId (Z.of_nat n) = Some (File (nth n payloads []))) ->
  parent k = chunkDir -> f !! k = Some v ->
  (forall n, (n < length payloads)%nat -> k <> chunk_path uploadsDir fileId (Z.of_nat n)) ->
  let res := upload_complete uploadsDir
               (complete_req fileId fileName (Z.of_nat (length payloads)) mimeType) f in
  fst res = CombineFailed /\
  snd res !! finalFilePath = Some (File (concat payloads)) /\
  (forall n, (n < length payloads)%nat ->
     snd res !! chunk_path uploadsDir fileId (Z.of_nat n) = None) /\
  is_dir chunkDir (snd res) = true /\
  snd res !! k = Some v.
Proof.
  intros Hi Hn Hm Hne Hu Hf Hd Hall Hpk Hk Hstray res. unfold finalFilePath, chunkDir in *.
  assert (Hc : Z.of_nat (length payloads) <> 0) by (destruct payloads; [congruence | simpl; lia]).
  unfold res.
  rewrite (upload_complete_unfold uploadsDir fileId fileName mimeType _ f Hi Hn Hm Hc Hu Hf).
  rewrite Nat2Z.id.
  set (f0 := <[final_path uploadsDir fileId fileName := File []]> f).
  assert (Hf0 : f0 !! final_path uploadsDir fileId fileName = Some (File []))
    by apply lookup_insert_eq.
  destruct (combine_chunks_spec uploadsDir fileId fileName (length payloads) 0 f0 [] Hf0)
    as (Hok & Hcontent & Hgone & Hframe).
  assert (Hchunks : stored_chunks (NodePath.join uploadsDir fileId) f0 (length payloads) 0
                    = payloads).
  { apply stored_chunks_all. intros n Hlt. unfold f0.
    rewrite lookup_insert_ne by (intros E; symmetry in E; now apply chunk_path_ne_final in E).
    simpl. now apply Hall. }
  rewrite Hchunks in Hok, Hcontent, Hgone, Hframe.
  rewrite Hok, Nat.eqb_refl.
  set (f1 := snd (combine_chunks _ _ (length payloads) 0 f0)) in *.
  assert (Hkfinal : k <> final_path uploadsDir fileId fileName).
  { intros ->. rewrite parent_final in Hpk by now apply segment_no_slash.
    now apply uploads_ne_dir in Hpk. }
  assert (Hk1 : f1 !! k = Some v).
  { rewrite Hframe; [| exact Hkfinal |].
    - unfold f0. now rewrite lookup_insert_ne by congruence.
    - intros j Hj. specialize (Hstray (Z.to_nat j)).
      rewrite Z2Nat.id in Hstray by lia. apply Hstray. lia. }
  assert (Hd1 : f1 !! (NodePath.join uploadsDir fileId) = Some Dir).
  { rewrite Hframe.
    - unfold f0. rewrite lookup_insert_ne by (intros E; symmetry in E; now apply dir_ne_final in E).
      unfold is_dir in Hd. destruct (f !! (NodePath.join uploadsDir fileId)) as [[?|]|]; congruence.
    - apply dir_ne_final.
    - intros j _ E. symmetry in E. now apply chunk_path_ne_dir in E. }
  assert (Hrm : rmdirSync (NodePath.join uploadsDir fileId) f1 = None).
  { destruct (rmdirSync_cases (NodePath.join uploadsDir fileId) f1) as [R|[_ Hempty]]; [exact R|].
    rewrite (Hempty k Hpk) in Hk1. discriminate. }
  rewrite Hrm. cbn [fst snd]. repeat split.
  - exact Hcontent.
  - intros n Hlt. apply Hgone. lia.
  - unfold is_dir. now rewrite Hd1.
  - exact Hk1.
Qed.

(** Completion with chunk 0 missing empties the final path and does nothing
    else. *)
Lemma upload_complete_truncates (mimeType : string) (totalChunks : Z) (f : FileSystem) :
  segment fileId = true -> segment fileName = true ->
  truthy_str (Some mimeType) = true -> 0 < totalChunks ->
  is_dir uploadsDir f = true -> is_dir finalFilePath f = false ->
  readFileSync (chunk_path uploadsDir fileId 0) f = None ->
  upload_complete uploadsDir (complete_req fileId fileName totalChunks mimeType) f
  = (CombineFailed, <[finalFilePath := File []]> f).
Proof.
  intros Hi Hn Hm Hpos Hu Hf H0. unfold finalFilePath, chunkDir in *.
  assert (Hc : totalChunks <> 0) by lia.
  rewrite (upload_complete_unfold uploadsDir fileId fileName mimeType totalChunks f
             Hi Hn Hm Hc Hu Hf).
  destruct (Z.to_nat totalChunks) as [|n] eqn:E; [lia|].
  cbn [combine_chunks].
  change (NodePath.join (NodePath.join uploadsDir fileId) (chunk_name 0))
    with (chunk_path uploadsDir fileId 0).
  rewrite (readFileSync_ext _ _ f).
  - now rewrite H0.
  - apply lookup_insert_ne. intros E'. symmetry in E'. now apply chunk_path_ne_final in E'.
Qed.

(** *** The assembly with its stream run after the reply *)

Lemma read_chunks_frame (k : nat) (i : Z) (f : FileSystem) (q : string) :
  (forall j, q <> chunk_path uploadsDir fileId j) ->
  snd (Deferred.read_chunks chunkDir k i f) !! q = f !! q.
Proof.
  revert i f. induction k as [|k IH]; intros i f Hq; [reflexivity|].
  cbn [Deferred.read_chunks].
  change (NodePath.join chunkDir (chunk_name i)) with (chunk_path uploadsDir fileId i).
  destruct (readFileSync (chunk_path uploadsDir fileId i) f) as [data|] eqn:Hread;
    [|reflexivity].
  apply readFileSync_Some in Hread. unfold unlinkSync. rewrite Hread.
  specialize (IH (i + 1) (delete (chunk_path uploadsDir fileId i) f) Hq).
  destruct (Deferred.read_chunks chunkDir k (i + 1) _) as [[ok queue] g]. cbn [snd] in *.
  rewrite IH. apply lookup_delete_ne. specialize (Hq i). congruence.
Qed.

(** The queue of the stream is the chunks found in the staging area. *)
Lemma read_chunks_queue (k : nat) (i : Z) (f : FileSystem) :
  snd (fst (Deferred.read_chunks chunkDir k i f)) = stored_chunks chunkDir f k i.
Proof.
  revert i f. induction k as [|k IH]; intros i f; [reflexivity|].
  cbn [Deferred.read_chunks stored_chunks].
  change (NodePath.join chunkDir (chunk_name i)) with (chunk_path uploadsDir fileId i).
  destruct (readFileSync (chunk_path uploadsDir fileId i) f) as [data|] eqn:Hread;
    [|reflexivity].
  apply readFileSync_Some in Hread. unfold unlinkSync. rewrite Hread.
  specialize (IH (i + 1) (delete (chunk_path uploadsDir fileId i) f)).
  destruct (Deferred.read_chunks chunkDir k (i + 1) _) as [[ok queue] g]. cbn [fst snd] in *.
  rewrite IH. f_equal. apply stored_chunks_ext. intros j Hj.
  apply lookup_delete_ne. intros E. apply chunk_path_inj in E. lia.
Qed.

(** The loop with its writes in place is the loop with its writes queued,
    followed by the writes. *)
Lemma combine_read_chunks (k : nat) (i : Z) (f : FileSystem) (acc : list byte) :
  let r := Deferred.read_chunks chunkDir k i f in
  combine_chunks chunkDir {| ws_path := finalFilePath; ws_open := true |} k i
    (<[finalFilePath := File acc]> f)
  = (fst (fst r), <[finalFilePath := File (acc ++ concat (snd (fst r)))]> (snd r)).
Proof.
  revert i f acc. induction k as [|k IH]; intros i f acc.
  - cbn. now rewrite app_nil_r.
  - cbn [Deferred.read_chunks combine_chunks].
    change (NodePath.join chunkDir (chunk_name i)) with (chunk_path uploadsDir fileId i).
    assert (Hne : finalFilePath <> chunk_path uploadsDir fileId i).
    { intros E. symmetry in E. now apply chunk_path_ne_final in E. }
    rewrite (readFileSync_ext _ _ f) by now apply lookup_insert_ne.
    destruct (readFileSync (chunk_path uploadsDir fileId i) f) as [data|] eqn:Hread.
    + apply readFileSync_Some in Hread.
      unfold ws_write. cbn [ws_open ws_path]. rewrite alter_insert_eq. cbn [append_data].
      unfold unlinkSync. rewrite lookup_insert_ne by exact Hne. rewrite Hread.
      rewrite delete_insert_ne by apply chunk_path_ne_final.
      rewrite IH.
      destruct (Deferred.read_chunks chunkDir k (i + 1) _) as [[ok queue] g].
      cbn [fst snd concat]. now rewrite <- app_assoc.
    + cbn [fst snd concat]. now rewrite app_nil_r.
Qed.

(** Removing the staging directory does not look at the artifact. *)
Lemma rmdirSync_insert_final (data : list byte) (f : FileSystem) :
  segment fileId = true -> segment fileName = true ->
  rmdirSync chunkDir (<[finalFilePath := File data]> f)
  = option_map (insert finalFilePath (File data)) (rmdirSync chunkDir f).
Proof.
  intros Hi Hn. unfold rmdirSync.
  assert (Hne : finalFilePath <> chunkDir).
  { intros E. symmetry in E. now apply dir_ne_final in E. }
  rewrite is_dir_insert_file. destruct (decide (finalFilePath = chunkDir)); [congruence|].
  assert (E : dir_empty chunkDir (<[finalFilePath := File data]> f) = dir_empty chunkDir f).
  { unfold dir_empty. apply bool_decide_ext. split; intros H k v Hk.
    - destruct (decide (k = finalFilePath)) as [->|Hkf].
      + intros Hp. unfold finalFilePath in Hp.
        rewrite parent_final in Hp by now apply segment_no_slash.
        now apply uploads_ne_dir in Hp.
      + apply (H k v). now rewrite lookup_insert_ne.
    - destruct (decide (k = finalFilePath)) as [->|Hkf].
      + intros Hp. unfold finalFilePath in Hp.
        rewrite parent_final in Hp by now apply segment_no_slash.
        now apply uploads_ne_dir in Hp.
      + rewrite lookup_insert_ne in Hk by congruence. now apply (H k v). }
  rewrite E. destruct (is_dir chunkDir f && dir_empty chunkDir f); [|reflexivity].
  cbn [option_map]. f_equal. now apply delete_insert_ne.
Qed.

(** A stream that opens leaves the first [n] bytes of its queue at its
    path. *)
Lemma stream_run_open (queue : list (list byte)) (n : nat) (f : FileSystem) :
  segment fileId = true -> segment fileName = true ->
  is_dir uploadsDir f = true -> is_dir finalFilePath f = false ->
  Deferred.stream_run {| Deferred.st_path := finalFilePath; Deferred.st_queue := queue |} n f
  = <[finalFilePath := File (firstn n (concat queue))]> f.
Proof.
  intros Hi Hn Hu Hf. unfold Deferred.stream_run. cbn [Deferred.st_path Deferred.st_queue].
  unfold finalFilePath.
  rewrite (createWriteStream_opens uploadsDir fileId fileName f Hi Hn Hu Hf).
  unfold ws_write. cbn [ws_open ws_path]. now rewrite alter_insert_eq.
Qed.

Lemma upload_complete_deferred_unfold (mimeType : string) (totalChunks : Z)
  (f : FileSystem) :
  segment fileId = true -> segment fileName = true ->
  truthy_str (Some mimeType) = true -> totalChunks <> 0 ->
  let r := Deferred.read_chunks chunkDir (Z.to_nat totalChunks) 0 f in
  Deferred.upload_complete_deferred uploadsDir
    (complete_req fileId fileName totalChunks mimeType) f
  = (if fst (fst r) then
       match rmdirSync chunkDir (snd r) with
       | Some f2 => (RespComplete finalFilePath fileName mimeType, f2)
       | None => (CombineFailed, snd r)
       end
     else (CombineFailed, snd r),
     Some {| Deferred.st_path := finalFilePath; Deferred.st_queue := snd (fst r) |}).
Proof.
  intros Hi Hn Hm Hc r. unfold Deferred.upload_complete_deferred.
  cbn [complete_req cp_fileId cp_fileName cp_totalChunks cp_mimeType].
  rewrite (complete_valid fileId fileName mimeType totalChunks Hi Hn Hm Hc).
  cbn [default from_option]. unfold Datatypes.id.
  change (final_path uploadsDir fileId fileName) with finalFilePath.
  change (NodePath.join uploadsDir fileId) with chunkDir.
  fold r. destruct r as [[ok queue] f1]. cbn [fst snd].
  destruct ok; [|reflexivity].
  destruct (rmdirSync chunkDir f1); reflexivity.
Qed.

(** What the handler leaves at its reply differs from what was there
    before only in the staging area. *)
Lemma upload_complete_deferred_frame (mimeType : string) (totalChunks : Z)
  (f : FileSystem) (q : string) :
  segment fileId = true -> segment fileName = true ->
  truthy_str (Some mimeType) = true -> totalChunks <> 0 ->
  q <> chunkDir -> (forall j, q <> chunk_path uploadsDir fileId j) ->
  Deferred.state_of (Deferred.upload_complete_deferred uploadsDir
                       (complete_req fileId fileName totalChunks mimeType) f) !! q
  = f !! q.
Proof.
  intros Hi Hn Hm Hc Hq1 Hq2.
  rewrite (upload_complete_deferred_unfold mimeType totalChunks f Hi Hn Hm Hc).
  unfold Deferred.state_of. cbn [fst snd].
  pose proof (read_chunks_frame (Z.to_nat totalChunks) 0 f q Hq2) as E.
  destruct (fst (fst (Deferred.read_chunks _ _ _ _))); [|exact E].
  destruct (rmdirSync_cases chunkDir
              (snd (Deferred.read_chunks chunkDir (Z.to_nat totalChunks) 0 f)))
    as [R|[R _]]; rewrite R; cbn [snd]; [exact E|].
  now rewrite lookup_delete_ne by congruence.
Qed.

Lemma uploads_ne_final : uploadsDir <> finalFilePath.
Proof.
  intros E. apply (f_equal String.length) in E.
  unfold finalFilePath, final_path, NodePath.join in E.
  rewrite !length_append in E. simpl in E. lia.
Qed.

(** The handler with its writes in place is the handler up to its reply,
    followed by the whole run of its stream. *)
Lemma upload_complete_settles (mimeType : string) (totalChunks : Z) (f : FileSystem) :
  segment fileId = true -> segment fileName = true ->
  truthy_str (Some mimeType) = true -> totalChunks <> 0 ->
  is_dir uploadsDir f = true -> is_dir finalFilePath f = false ->
  let d := Deferred.upload_complete_deferred uploadsDir
             (complete_req fileId fileName totalChunks mimeType) f in
  upload_complete uploadsDir (complete_req fileId fileName totalChunks mimeType) f
  = (Deferred.reply_of d, Deferred.settle (Deferred.stream_of d) (Deferred.state_of d)).
Proof.
  intros Hi Hn Hm Hc Hu Hf d.
  assert (Hu' : is_dir uploadsDir (Deferred.state_of d) = true).
  { unfold is_dir, d. rewrite upload_complete_deferred_frame; try assumption.
    - apply uploads_ne_dir.
    - apply uploads_ne_chunk_path. }
  assert (Hf' : is_dir finalFilePath (Deferred.state_of d) = false).
  { unfold is_dir, d. rewrite upload_complete_deferred_frame; try assumption.
    - intros E. symmetry in E. now apply dir_ne_final in E.
    - intros j E. symmetry in E. now apply chunk_path_ne_final in E. }
  revert Hu' Hf'. unfold d. clear d.
  rewrite (upload_complete_deferred_unfold mimeType totalChunks f Hi Hn Hm Hc).
  rewrite (upload_complete_unfold uploadsDir fileId fileName mimeType totalChunks f
             Hi Hn Hm Hc Hu Hf).
  change (NodePath.join uploadsDir fileId) with chunkDir.
  change (final_path uploadsDir fileId fileName) with finalFilePath.
  rewrite (combine_read_chunks (Z.to_nat totalChunks) 0 f []).
  unfold Deferred.reply_of, Deferred.state_of, Deferred.stream_of, Deferred.settle.
  cbn [fst snd app Deferred.st_queue].
  destruct (Deferred.read_chunks chunkDir (Z.to_nat totalChunks) 0 f) as [[ok queue] f1].
  cbn [fst snd].
  assert (Hrun : forall g, is_dir uploadsDir g = true -> is_dir finalFilePath g = false ->
            Deferred.stream_run
              {| Deferred.st_path := finalFilePath; Deferred.st_queue := queue |}
              (length (concat queue)) g
            = <[finalFilePath := File (concat queue)]> g).
  { intros g Hg1 Hg2. rewrite (stream_run_open queue _ g Hi Hn Hg1 Hg2).
    now rewrite firstn_all. }
  destruct ok.
  - rewrite (rmdirSync_insert_final (concat queue) f1 Hi Hn).
    destruct (rmdirSync chunkDir f1) as [f2|]; cbn [option_map fst snd]; intros Hu' Hf';
      now rewrite Hrun.
  - cbn [fst snd]. intros Hu' Hf'. now rewrite Hrun.
Qed.

(** An assembly that finds every chunk, up to its reply: the stream holds
    the payloads in index order, the staging area is gone, and the
    artifact has not been touched yet. *)
Lemma upload_complete_deferred_ok (mimeType : string) (payloads : list (list byte))
  (f : FileSystem) :
  segment fileId = true -> segment fileName = true ->
  truthy_str (Some mimeType) = true -> payloads <> [] ->
  is_dir uploadsDir f = true -> is_dir finalFilePath f = false ->
  is_dir chunkDir f = true ->
  (forall n, (n < length payloads)%nat ->
     f !! chunk_path uploadsDir fileId (Z.of_nat n) = Some (File (nth n payloads []))) ->
  (forall k v, parent k = chunkDir -> f !! k = Some v ->
     exists n, (n < length payloads)%nat /\ k = chunk_path uploadsDir fileId (Z.of_nat n)) ->
  let d := Deferred.upload_complete_deferred uploadsDir
             (complete_req fileId fileName (Z.of_nat (length payloads)) mimeType) f in
  Deferred.reply_of d = RespComplete finalFilePath fileName mimeType /\
  Deferred.stream_of d
  = Some {| Deferred.st_path := finalFilePath; Deferred.st_queue := payloads |} /\
  is_dir uploadsDir (Deferred.state_of d) = true /\
  is_dir finalFilePath (Deferred.state_of d) = false /\
  Deferred.state_of d !! chunkDir = None /\
  (forall i, Deferred.state_of d !! chunk_path uploadsDir fileId i = None).
Proof.
  intros Hi Hn Hm Hne Hu Hf Hd Hall Honly d.
  assert (Hc : Z.of_nat (length payloads) <> 0) by (destruct payloads; [congruence | simpl; lia]).
  destruct (upload_complete_ok uploadsDir fileId fileName mimeType payloads f
              Hi Hn Hm Hne Hu Hf Hd Hall Honly) as (Hreply & _ & Hdir & Hgone).
  pose proof (upload_complete_settles mimeType _ f Hi Hn Hm Hc Hu Hf) as Href.
  cbv zeta in Href. fold d in Href. rewrite Href in Hreply, Hdir, Hgone.
  cbn [fst snd] in Hreply, Hdir, Hgone.
  assert (Hu' : is_dir uploadsDir (Deferred.state_of d) = true).
  { unfold is_dir, d. rewrite upload_complete_deferred_frame; try assumption.
    - apply uploads_ne_dir.
    - apply uploads_ne_chunk_path. }
  assert (Hf' : is_dir finalFilePath (Deferred.state_of d) = false).
  { unfold is_dir, d. rewrite upload_complete_deferred_frame; try assumption.
    - intros E. symmetry in E. now apply dir_ne_final in E.
    - intros j E. symmetry in E. now apply chunk_path_ne_final in E. }
  assert (Hs : Deferred.stream_of d
               = Some {| Deferred.st_path := finalFilePath; Deferred.st_queue := payloads |}).
  { unfold d. rewrite (upload_complete_deferred_unfold mimeType _ f Hi Hn Hm Hc).
    unfold Deferred.stream_of. cbn [snd]. rewrite read_chunks_queue, Nat2Z.id.
    do 2 f_equal. apply stored_chunks_all. intros n Hlt. simpl. now apply Hall. }
  rewrite Hs in Hdir, Hgone. unfold Deferred.settle in Hdir, Hgone.
  rewrite (stream_run_open payloads _ _ Hi Hn Hu' Hf') in Hdir, Hgone.
  split; [exact Hreply|]. split; [exact Hs|]. split; [exact Hu'|]. split; [exact Hf'|].
  split.
  - rewrite lookup_insert_ne in Hdir; [exact Hdir|].
    intros E. symmetry in E. now apply dir_ne_final in E.
  - intros i. specialize (Hgone i). rewrite lookup_insert_ne in Hgone; [exact Hgone|].
    intros E. symmetry in E. now apply chunk_path_ne_final in E.
Qed.

(** An assembly that does not find chunk 0 is refused, leaves the staging
    area as it is, and leaves a stream with nothing to write. *)
Lemma upload_complete_deferred_missing (mimeType : string) (totalChunks : Z)
  (f : FileSystem) :
  segment fileId = true -> segment fileName = true ->
  truthy_str (Some mimeType) = true -> 0 < totalChunks ->
  readFileSync (chunk_path uploadsDir fileId 0) f = None ->
  Deferred.upload_complete_deferred uploadsDir
    (complete_req fileId fileName totalChunks mimeType) f
  = (CombineFailed, f,
     Some {| Deferred.st_path := finalFilePath; Deferred.st_queue := [] |}).
Proof.
  intros Hi Hn Hm Hpos H0.
  assert (Hc : totalChunks <> 0) by lia.
  rewrite (upload_complete_deferred_unfold mimeType totalChunks f Hi Hn Hm Hc).
  destruct (Z.to_nat totalChunks) as [|n] eqn:E; [lia|].
  cbn [Deferred.read_chunks].
  change (NodePath.join chunkDir (chunk_name 0)) with (chunk_path uploadsDir fileId 0).
  now rewrite H0.
Qed.

(** X20. Assembly works once. A completion finds every chunk of an upload
    whose id and name are single path segments: it replies with the final
    path and leaves a stream holding the payloads, which puts their
    concatenation at the final path once it has written them all. The same
    completion request again is answered with "Failed to combine chunks",
    whether that stream has not opened the file yet or has put any number
    of bytes there; and when it is served after the first stream has
    written everything, its own stream, which has nothing to write,
    replaces the artifact by an empty file. *)
Theorem upload_complete_twice (mimeType : string) (payloads : list (list byte))
  (f : FileSystem) :
  segment fileId = true -> segment fileName = true ->
  truthy_str (Some mimeType) = true -> payloads <> [] ->
  Requests.safe_integer (Z.of_nat (length payloads)) = true ->
  is_dir uploadsDir f = true -> is_dir finalFilePath f = false ->
  is_dir chunkDir f = true ->
  (forall n, (n < length payloads)%nat ->
     f !! chunk_path uploadsDir fileId (Z.of_nat n) = Some (File (nth n payloads []))) ->
  (forall k v, parent k = chunkDir -> f !! k = Some v ->
     exists n, (n < length payloads)%nat /\ k = chunk_path uploadsDir fileId (Z.of_nat n)) ->
  let req := complete_req fileId fileName (Z.of_nat (length payloads)) mimeType in
  let first := Deferred.upload_complete_deferred uploadsDir req f in
  let flushed := Deferred.settle (Deferred.stream_of first) (Deferred.state_of first) in
  let second := Deferred.upload_complete_deferred uploadsDir req flushed in
  Deferred.reply_of first = RespComplete finalFilePath fileName mimeType /\
  Deferred.stream_of first
  = Some {| Deferred.st_path := finalFilePath; Deferred.st_queue := payloads |} /\
  flushed !! finalFilePath = Some (File (concat payloads)) /\
  Deferred.reply_of
    (Deferred.upload_complete_deferred uploadsDir req (Deferred.state_of first))
  = CombineFailed /\
  (forall n,
     Deferred.reply_of
       (Deferred.upload_complete_deferred uploadsDir req
          (Deferred.progress (Deferred.stream_of first) n (Deferred.state_of first)))
     = CombineFailed) /\
  Deferred.reply_of second = CombineFailed /\
  Deferred.stream_of second
  = Some {| Deferred.st_path := finalFilePath; Deferred.st_queue := [] |} /\
  Deferred.settle (Deferred.stream_of second) (Deferred.state_of second) !! finalFilePath
  = Some (File []).
Proof.
  intros Hi Hn Hm Hne _ Hu Hf Hd Hall Honly req first flushed second.
  destruct (upload_complete_deferred_ok mimeType payloads f Hi Hn Hm Hne Hu Hf Hd Hall Honly)
    as (Hreply & Hs & Hu1 & Hf1 & _ & Hgone).
  fold req in Hreply, Hs, Hu1, Hf1, Hgone. fold first in Hreply, Hs, Hu1, Hf1, Hgone.
  assert (Hpos : 0 < Z.of_nat (length payloads)) by (destruct payloads; [congruence | simpl; lia]).
  assert (Hrun : forall n, Deferred.progress (Deferred.stream_of first) n
                             (Deferred.state_of first)
                           = <[finalFilePath := File (firstn n (concat payloads))]>
                               (Deferred.state_of first)).
  { intros n. rewrite Hs. unfold Deferred.progress.
    now apply stream_run_open. }
  assert (Hmiss : forall n, readFileSync (chunk_path uploadsDir fileId 0)
                    (Deferred.progress (Deferred.stream_of first) n
                       (Deferred.state_of first)) = None).
  { intros n. rewrite Hrun. unfold readFileSync.
    rewrite lookup_insert_ne
      by (intros E; symmetry in E; now apply chunk_path_ne_final in E).
    now rewrite Hgone. }
  assert (Hflushed : flushed = <[finalFilePath := File (concat payloads)]>
                                 (Deferred.state_of first)).
  { unfold flushed. rewrite Hs. unfold Deferred.settle. cbn [Deferred.st_queue].
    rewrite (stream_run_open payloads _ _ Hi Hn Hu1 Hf1). now rewrite firstn_all. }
  assert (Hsecond : second = (CombineFailed, flushed,
            Some {| Deferred.st_path := finalFilePath; Deferred.st_queue := [] |})).
  { unfold second, req. apply upload_complete_deferred_missing; try assumption.
    rewrite Hflushed. unfold readFileSync.
    rewrite lookup_insert_ne
      by (intros E; symmetry in E; now apply chunk_path_ne_final in E).
    now rewrite Hgone. }
  split; [exact Hreply|]. split; [exact Hs|].
  split; [rewrite Hflushed; apply lookup_insert_eq|].
  split.
  { unfold req. rewrite (upload_complete_deferred_missing mimeType _ _ Hi Hn Hm Hpos);
      [reflexivity|].
    unfold readFileSync. now rewrite Hgone. }
  split.
  { intros n. unfold req.
    now rewrite (upload_complete_deferred_missing mimeType _ _ Hi Hn Hm Hpos (Hmiss n)). }
  rewrite Hsecond. unfold Deferred.reply_of, Deferred.stream_of, Deferred.state_of.
  cbn [fst snd]. split; [reflexivity|]. split; [reflexivity|].
  unfold Deferred.settle. cbn [Deferred.st_queue].
  rewrite (stream_run_open [] _ flushed Hi Hn).
  - apply lookup_insert_eq.
  - rewrite Hflushed, is_dir_insert_file.
    destruct (decide (finalFilePath = uploadsDir)) as [E|_]; [|exact Hu1].
    symmetry in E. now apply uploads_ne_final in E.
  - rewrite Hflushed, is_dir_insert_file.
    now destruct (decide (finalFilePath = finalFilePath)).
Qed.

(** X21. A negative [totalChunks] is not refused: with nothing staged under
    the upload id, the handler creates an empty file at the final path,
    reads no chunk, fails to remove the staging directory that is not
    there, and replies "Failed to combine chunks". *)
Theorem upload_complete_negative (mimeType : string) (totalChunks : Z) (f : FileSystem) :
  segment fileId = true -> segment fileName = true ->
  truthy_str (Some mimeType) = true -> totalChunks < 0 ->
  is_dir uploadsDir f = true -> is_dir finalFilePath f = false ->
  f !! chunkDir = None ->
  upload_complete uploadsDir (complete_req fileId fileName totalChunks mimeType) f
  = (CombineFailed, <[finalFilePath := File []]> f).
Proof.
  intros Hi Hn Hm Hneg Hu Hf Hd. unfold finalFilePath, chunkDir in *.
  assert (Hc : totalChunks <> 0) by lia.
  rewrite (upload_complete_unfold uploadsDir fileId fileName mimeType totalChunks f
             Hi Hn Hm Hc Hu Hf).
  destruct (Z.to_nat totalChunks) as [|n] eqn:E; [|lia].
  cbn [combine_chunks fst snd].
  unfold rmdirSync, is_dir.
  rewrite lookup_insert_ne by (intros E'; symmetry in E'; now apply dir_ne_final in E').
  now rewrite Hd.
Qed.

End CompleteMore.

Section Pipeline.
Import Requests.

(** Chunks in any order, then completion: what the file system holds. *)
Lemma put_chunks_then_complete (uploadsDir fileId fileName mimeType : string)
  (payloads : list (list byte)) (order : list nat) (f : FileSystem) :
  segment fileId = true -> segment fileName = true ->
  truthy_str (Some mimeType) = true ->
  payloads <> [] ->
  Permutation order (seq 0 (length payloads)) ->
  is_dir uploadsDir f = true ->
  is_dir (final_path uploadsDir fileId fileName) f = false ->
  readFileSync (NodePath.join uploadsDir fileId) f = None ->
  (forall k, parent k = NodePath.join uploadsDir fileId -> f !! k = None) ->
  let totalChunks := Z.of_nat (length payloads) in
  let writes := map (fun n => (Z.of_nat n, nth n payloads [])) order in
  let f1 := put_chunks uploadsDir fileId fileName totalChunks writes f in
  let d := Deferred.upload_complete_deferred uploadsDir
             (complete_req fileId fileName totalChunks mimeType) f1 in
  Deferred.reply_of d
  = RespComplete (final_path uploadsDir fileId fileName) fileName mimeType /\
  Deferred.stream_of d
  = Some {| Deferred.st_path := final_path uploadsDir fileId fileName;
            Deferred.st_queue := payloads |} /\
  is_dir uploadsDir (Deferred.state_of d) = true /\
  is_dir (final_path uploadsDir fileId fileName) (Deferred.state_of d) = false /\
  Deferred.state_of d !! NodePath.join uploadsDir fileId = None /\
  (forall i, Deferred.state_of d !! chunk_path uploadsDir fileId i = None).
Proof.
  intros Hi Hn Hm Hne Hperm Hu Hfin Hd Hfresh totalChunks writes f1 d.
  assert (Hf1 : f1 = staged uploadsDir fileId writes f).
  { apply put_chunks_staged; auto using segment_truthy.
    intros k Hk. unfold is_dir. now rewrite (Hfresh k Hk). }
  assert (Hidx : forall i, In i (map fst writes) ->
                   exists n, (n < length payloads)%nat /\ i = Z.of_nat n).
  { intros i Hin. unfold writes in Hin. rewrite map_map in Hin. cbn [fst] in Hin.
    apply in_map_iff in Hin as (n & <- & Hn'). exists n. split; [|reflexivity].
    apply (Permutation_in _ Hperm) in Hn'. apply in_seq in Hn'. lia. }
  assert (Hother : forall q, q <> NodePath.join uploadsDir fileId ->
                     (forall i, q <> chunk_path uploadsDir fileId i) ->
                     f1 !! q = f !! q).
  { intros q Hq1 Hq2. rewrite Hf1. apply staged_other; auto. }
  assert (Hwrites : writes <> []).
  { intros E. apply map_eq_nil in E. rewrite E in Hperm.
    apply Permutation_nil in Hperm. destruct payloads; [congruence | discriminate]. }
  apply (upload_complete_deferred_ok uploadsDir fileId fileName mimeType payloads f1); auto.
  - unfold is_dir. rewrite Hother; [exact Hu | apply uploads_ne_dir | apply uploads_ne_chunk_path].
  - unfold is_dir. rewrite Hother; [exact Hfin | |].
    + intros E. symmetry in E. now apply dir_ne_final in E.
    + intros i E. symmetry in E. now apply chunk_path_ne_final in E.
  - rewrite Hf1. now apply staged_dir.
  - intros n Hlt. rewrite Hf1. apply staged_chunk.
    + unfold writes. apply in_map_iff. exists n. split; [reflexivity|].
      apply (Permutation_in _ (Permutation_sym Hperm)). apply in_seq. lia.
    + intros x Hx. unfold writes in Hx. apply in_map_iff in Hx as (m & Hm' & _).
      injection Hm' as Hm1 Hm2. apply Nat2Z.inj in Hm1. now subst m.
  - intros k v Hk Hv.
    destruct (in_dec string_dec k (map (chunk_path uploadsDir fileId) (map fst writes)))
      as [Hin|Hnin].
    + apply in_map_iff in Hin as (i & <- & Hin).
      destruct (Hidx i Hin) as (n & Hlt & ->). now exists n.
    + exfalso. rewrite Hf1 in Hv. rewrite staged_other in Hv.
      * rewrite (Hfresh k Hk) in Hv. discriminate.
      * intros ->. rewrite parent_chunk_dir in Hk by now apply segment_no_slash.
        now apply uploads_ne_dir in Hk.
      * intros i Hi' ->. apply Hnin. now apply in_map.
Qed.

Lemma join_truthy (a b : string) : truthy_str (Some (NodePath.join a b)) = true.
Proof. unfold NodePath.join. destruct a; reflexivity. Qed.

(** X22. The whole path of an attachment. Chunks sent in any order into a
    fresh staging area, completion, then a send that names the returned
    path and that the provider accepts. The completion replies before its
    stream has written the artifact, so the send is served with the stream
    somewhere on its way: when the stream has opened the artifact and put
    the first [n] bytes there, the provider receives one attachment, the
    base64 text of the first [n] bytes of the payloads in index order (all
    of them once [n] reaches their length), under the file name of the
    upload (the upload id holding no dash) and with the content type read
    off the path; the record ends [sent]; and afterwards neither the
    artifact, nor the staging directory, nor an attachment row of the
    record is left. *)
Theorem upload_then_send (uploadsDir fileId fileName mimeType : string)
  (payloads : list (list byte)) (order : list nat) (n : nat) (now : Z)
  (sender : string) (recipients : Field) (subject body : string) (w : World) :
  let artifact := final_path uploadsDir fileId fileName in
  let req := send_req sender recipients subject body (One artifact) in
  segment fileId = true -> segment fileName = true -> no_dash fileId = true ->
  truthy_str (Some mimeType) = true ->
  payloads <> [] ->
  safe_integer (Z.of_nat (length payloads)) = true ->
  Permutation order (seq 0 (length payloads)) ->
  is_dir uploadsDir (fs w) = true ->
  is_dir artifact (fs w) = false ->
  readFileSync (NodePath.join uploadsDir fileId) (fs w) = None ->
  (forall k, parent k = NodePath.join uploadsDir fileId -> fs w !! k = None) ->
  wf (db w) -> valid_send req = true ->
  let totalChunks := Z.of_nat (length payloads) in
  let writes := map (fun n => (Z.of_nat n, nth n payloads [])) order in
  let f1 := put_chunks uploadsDir fileId fileName totalChunks writes (fs w) in
  let assembled := Deferred.upload_complete_deferred uploadsDir
                     (complete_req fileId fileName totalChunks mimeType) f1 in
  let on_disk := Deferred.progress (Deferred.stream_of assembled) n
                   (Deferred.state_of assembled) in
  let res := send now None [] req (with_fs w on_disk) in
  let i := emails_seq (db w) + 1 in
  Deferred.reply_of assembled = RespComplete artifact fileName mimeType /\
  Deferred.stream_of assembled
  = Some {| Deferred.st_path := artifact; Deferred.st_queue := payloads |} /\
  fst res = RespSent i /\
  trace (snd res) =
    trace w ++
    [ Saved i pending;
      Delivered
        {| msg_to := recipient_list recipients;
           msg_from := sender;
           msg_subject := subject;
           msg_text := body;
           msg_html := body;
           msg_attachments :=
             Some [ {| ad_content := base64 (firstn n (concat payloads));
                       ad_filename := fileName;
                       ad_type := getMimeType artifact;
                       ad_disposition := "attachment" |} ] |};
      StatusSet i sent ] /\
  ((length (concat payloads) <= n)%nat ->
   readFileSync artifact on_disk = Some (concat payloads)) /\
  option_map status (getEmailById i (db (snd res))) = Some sent /\
  getAttachmentsByEmailId i (db (snd res)) = [] /\
  readFileSync artifact (fs (snd res)) = None /\
  fs (snd res) !! NodePath.join uploadsDir fileId = None.
Proof.
  intros artifact req Hi Hn Hdash Hm Hne _ Hperm Hu Hfin Hd Hfresh Hwf Hv
    totalChunks writes f1 assembled on_disk res i.
  destruct (put_chunks_then_complete uploadsDir fileId fileName mimeType payloads order (fs w)
              Hi Hn Hm Hne Hperm Hu Hfin Hd Hfresh)
    as (Hreply & Hs & Hu1 & Hf1 & Hdir & _).
  fold totalChunks writes f1 assembled artifact in Hreply, Hs, Hu1, Hf1, Hdir.
  assert (Hdisk : on_disk = <[artifact := File (firstn n (concat payloads))]>
                              (Deferred.state_of assembled)).
  { unfold on_disk. rewrite Hs. unfold Deferred.progress.
    now apply stream_run_open. }
  set (w2 := with_fs w on_disk).
  assert (Hwf2 : wf (db w2)) by exact Hwf.
  assert (Hpaths : [] ++ chunked_paths (req_attachmentPaths req) = [artifact]).
  { unfold chunked_paths, req, send_req. cbn [req_attachmentPaths truthy_field app].
    unfold artifact, final_path. now rewrite join_truthy. }
  assert (Hread : readFileSync artifact (fs w2) = Some (firstn n (concat payloads))).
  { apply readFileSync_Some. cbn [w2 with_fs fs]. rewrite Hdisk. apply lookup_insert_eq. }
  destruct (send_valid now None [] req w2 Hv Hwf2)
    as (w' & Hsend & Ht & He & _ & Hf & _).
  rewrite Hpaths in Ht, Hf.
  split; [exact Hreply|]. split; [exact Hs|]. unfold res. fold w2.
  pose proof (send_success_deletes_rows now [] req w2 Hv Hwf2) as Hrows.
  rewrite Hsend in *. cbn [fst snd] in *.
  split; [reflexivity|]. split; [|split; [|split; [|split; [exact Hrows|split]]]].
  - rewrite Ht. unfold readable_attachments. cbn [flat_map]. rewrite Hread.
    cbn [app]. unfold descr_of, message_of.
    assert (Hname : fileNameOf artifact = fileName)
      by (apply fileNameOf_final_path; auto using segment_no_slash).
    rewrite Hname. reflexivity.
  - intros Hall. rewrite Hdisk. apply readFileSync_Some.
    rewrite lookup_insert_eq. now rewrite firstn_all2.
  - unfold getEmailById, find_row. rewrite He.
    rewrite find_row_fresh; [reflexivity | now apply wf_fresh | reflexivity].
  - rewrite Hf. apply unlink_all_gone. now left.
  - rewrite Hf. rewrite unlink_all_other.
    + cbn [w2 with_fs fs]. rewrite Hdisk. rewrite lookup_insert_ne; [exact Hdir|].
      intros E. symmetry in E. now apply (dir_ne_final uploadsDir fileId fileName) in E.
    + intros [E|[]]. now apply (dir_ne_final uploadsDir fileId fileName).
Qed.

Lemma split_no_dash (s : string) : no_dash s = true -> split "-"%char s = [s].
Proof.
  unfold no_dash. induction s as [|c s IH]; intros H; [reflexivity|].
  simpl in H. apply andb_prop in H as [Hc Hs].
  simpl. apply negb_true_iff in Hc. rewrite Hc. now rewrite (IH Hs).
Qed.

Lemma no_slash_app_inv (a b : string) :
  no_slash (a +:+ b) = true -> no_slash a = true /\ no_slash b = true.
Proof.
  unfold no_slash. rewrite chars_app, forallb_app. apply andb_prop.
Qed.

(** X23. The display name of an attachment is what follows the first dash
    of the basename of its path. For the path a completion returns this is
    the file name of the upload when the upload id holds no dash; an id
    with a dash in it leaks its tail into the name; and a path whose
    basename holds no dash at all gives the empty name. *)
Theorem fileNameOf_cases (dir fileId fileName : string) :
  no_slash fileId = true -> no_slash fileName = true ->
  (no_dash fileId = true ->
   fileNameOf (final_path dir fileId fileName) = fileName) /\
  (forall head tail, no_dash head = true -> fileId = head +:+ "-" +:+ tail ->
   fileNameOf (final_path dir fileId fileName) = tail +:+ "-" +:+ fileName) /\
  (forall name, no_slash name = true -> name <> "" -> no_dash name = true ->
   fileNameOf (NodePath.join dir name) = "").
Proof.
  intros Hi Hn. repeat split.
  - intros Hd. now apply fileNameOf_final_path.
  - intros head tail Hh ->. unfold final_path. rewrite !append_assoc.
    apply fileNameOf_prefixed; [exact Hh|].
    apply no_slash_app_inv in Hi as [H1 H2]. apply no_slash_app_inv in H2 as [_ H2].
    apply no_slash_app; [exact H1|]. apply (no_slash_app "-"); [reflexivity|].
    apply no_slash_app; [exact H2|]. now apply (no_slash_app "-").
  - intros name Hs Hne Hd. unfold fileNameOf.
    rewrite basename_join by assumption. now rewrite split_no_dash.
Qed.

End Pipeline.

(** * The further properties on the example deployment *)

Section MoreInstances.
Import Shapes Requests Example Example2.

Lemma saveEmail_getEmailById_example :
  wf Db.empty /\
  fst (saveEmail 100 sample_email Db.empty) = 1 /\
  getEmailById 1 db_one = Some (stored_email 1 100 sample_email) /\
  wf db_one.
Proof.
  assert (H : wf Db.empty) by (split; [simpl; lia | constructor]).
  split; [exact H|].
  destruct (saveEmail_getEmailById 100 sample_email Db.empty H)
    as (Hi & _ & Hget & _ & _ & _ & Hwf).
  split; [exact Hi|]. split; [exact Hget | exact Hwf].
Defined.

Lemma saveAttachment_getAttachments_example :
  is_Some (find_row (emailId sample_attachment) db_one) /\
  getAttachmentsByEmailId 1 (snd (saveAttachment sample_attachment db_one))
  = [stored_attachment 1 sample_attachment].
Proof.
  assert (H : is_Some (find_row (emailId sample_attachment) db_one))
    by (eexists; reflexivity).
  split; [exact H|].
  destruct (saveAttachment_getAttachments sample_attachment db_one H) as (_ & Hget & _).
  exact Hget.
Defined.

Lemma get_email_unknown_example :
  wf (db world0) /\
  (Some 7 = None \/ exists k, Some 7 = Some k /\ (k <= 0 \/ emails_seq (db world0) < k)) /\
  step uploads_dir (GetEmail (Some 7)) world0 = (RespNotFound, world0).
Proof.
  assert (H1 : wf (db world0)) by (split; [simpl; lia | constructor]).
  assert (H2 : Some 7 = None \/
               exists k, Some 7 = Some k /\ (k <= 0 \/ emails_seq (db world0) < k)).
  { right. exists 7. split; [reflexivity|]. right. simpl. lia. }
  split; [exact H1|]. split; [exact H2|].
  exact (get_email_unknown uploads_dir (Some 7) world0 H1 H2).
Defined.

Lemma send_then_get_example :
  let req := send_req "alice@example.org" (One "bob@example.org") "report"
               "see attachment" (One artifact) in
  valid_send req = true /\ wf (db world_artifact) /\
  fst (send 100 (Some "rejected") [] req world_artifact) = DeliveryError "rejected" /\
  fst (step uploads_dir (GetEmail (Some 1))
         (snd (send 100 (Some "rejected") [] req world_artifact)))
  = RespEmail {| id := Some 1;
                 sender := "alice@example.org";
                 recipients := ["bob@example.org"];
                 subject := "report";
                 body := "see attachment";
                 sentAt := Some 100;
                 status := failed |}.
Proof.
  intros req.
  assert (H1 : valid_send req = true) by reflexivity.
  assert (H2 : wf (db world_artifact)) by (split; [simpl; lia | constructor]).
  split; [exact H1|]. split; [exact H2|].
  destruct (send_then_get uploads_dir 100 (Some "rejected") [] "alice@example.org"
              (One "bob@example.org") "report" "see attachment" (One artifact)
              world_artifact H1 H2) as (Hr & _ & Hget).
  split; [exact Hr|]. exact (f_equal fst Hget).
Defined.

Lemma send_invalid_keeps_uploads_example :
  within_limit [direct_upload] = true /\
  valid_send req_no_subject = false /\
  fst (step uploads_dir (Send 100 None [direct_upload] req_no_subject) world0)
    = ValidationError /\
  existsSync (multer_path uploads_dir direct_upload)
    (fs (snd (step uploads_dir (Send 100 None [direct_upload] req_no_subject) world0)))
    = true.
Proof.
  assert (H1 : within_limit [direct_upload] = true) by reflexivity.
  assert (H2 : valid_send req_no_subject = false) by reflexivity.
  split; [exact H1|]. split; [exact H2|].
  destruct (send_invalid_keeps_uploads uploads_dir 100 None [direct_upload]
              req_no_subject world0 H1 H2) as (Hr & _ & _ & Hfiles).
  split; [exact Hr|]. apply Hfiles. now left.
Defined.


Lemma send_keeps_other_attachments_example :
  let w := with_db world_artifact (snd (saveAttachment sample_attachment db_one)) in
  valid_send req_artifact = true /\ wf (db w) /\ 1 <> emails_seq (db w) + 1 /\
  getAttachmentsByEmailId 1 (db (snd (send 100 None [] req_artifact w)))
  = [stored_attachment 1 sample_attachment].
Proof.
  intros w.
  assert (H1 : valid_send req_artifact = true) by reflexivity.
  assert (H2 : wf (db w)).
  { split; [simpl; lia|]. repeat constructor; simpl; lia. }
  assert (H3 : 1 <> emails_seq (db w) + 1) by (simpl; lia).
  split; [exact H1|]. split; [exact H2|]. split; [exact H3|].
  rewrite (send_keeps_other_attachments 100 None [] req_artifact w 1 H1 H2 H3).
  reflexivity.
Defined.

Lemma send_delivers_message_example :
  let req := send_req "alice@example.org" (One "bob@example.org") "report"
               "see attachment" (One artifact) in
  valid_send req = true /\ wf (db world_artifact) /\
  Forall (fun p => is_Some (readFileSync p (fs world_artifact)))
    ([] ++ chunked_paths (One artifact)) /\
  trace (snd (send 100 None [] req world_artifact)) =
  [ Saved 1 pending;
    Delivered {| msg_to := ["bob@example.org"];
                 msg_from := "alice@example.org";
                 msg_subject := "report";
                 msg_text := "see attachment";
                 msg_html := "see attachment";
                 msg_attachments :=
                   Some [ {| ad_content := "QUJDREVG";
                             ad_filename := "x.txt";
                             ad_type := "text/plain";
                             ad_disposition := "attachment" |} ] |};
    StatusSet 1 sent ].
Proof.
  intros req.
  assert (H1 : valid_send req = true) by reflexivity.
  assert (H2 : wf (db world_artifact)) by (split; [simpl; lia | constructor]).
  assert (H3 : Forall (fun p => is_Some (readFileSync p (fs world_artifact)))
                 ([] ++ chunked_paths (One artifact))).
  { constructor; [|constructor]. eexists. vm_compute. reflexivity. }
  split; [exact H1|]. split; [exact H2|]. split; [exact H3|].
  exact (send_delivers_message 100 None [] "alice@example.org" (One "bob@example.org")
           "report" "see attachment" (One artifact) world_artifact H1 H2 H3).
Defined.

Lemma run_appends_records_example :
  wf (db world_artifact) /\ keys_increasing (db world_artifact) /\
  exists more,
    emails (db (run uploads_dir mixed_ops world_artifact))
      = emails (db world_artifact) ++ more /\
    length more = 2%nat /\
    List.NoDup (map row_id (emails (db (run uploads_dir mixed_ops world_artifact)))).
Proof.
  assert (H1 : wf (db world_artifact)) by (split; [simpl; lia | constructor]).
  assert (H2 : keys_increasing (db world_artifact)) by constructor.
  split; [exact H1|]. split; [exact H2|].
  destruct (run_appends_records uploads_dir mixed_ops world_artifact H1 H2)
    as (more & He & Hl & _ & _ & Hnd).
  exists more. split; [exact He|]. split; [exact Hl | exact Hnd].
Defined.

Lemma multer_path_inj_example :
  0 <= up_now direct_upload /\ 0 <= up_random direct_upload /\
  0 <= up_now second_upload /\ 0 <= up_random second_upload /\
  multer_path uploads_dir direct_upload = multer_path uploads_dir second_upload /\
  up_originalname direct_upload = up_originalname second_upload.
Proof.
  assert (H1 : 0 <= up_now direct_upload) by (simpl; lia).
  assert (H2 : 0 <= up_random direct_upload) by (simpl; lia).
  assert (H3 : 0 <= up_now second_upload) by (simpl; lia).
  assert (H4 : 0 <= up_random second_upload) by (simpl; lia).
  assert (H5 : multer_path uploads_dir direct_upload = multer_path uploads_dir second_upload)
    by reflexivity.
  do 5 (split; [assumption|]).
  destruct (multer_path_inj uploads_dir direct_upload second_upload H1 H2 H3 H4 H5)
    as (_ & _ & Hname).
  exact Hname.
Defined.

Lemma upload_chunk_effect_example :
  segment "u1" = true /\ truthy_str (Some "x.txt") = true /\
  safe_integer 2 = true /\ safe_integer 3 = true /\
  is_dir uploads_dir fs0 = true /\
  readFileSync (NodePath.join uploads_dir "u1") fs0 = None /\
  is_dir (chunk_path uploads_dir "u1" 2) fs0 = false /\
  fst (upload_chunk uploads_dir (chunk_req "u1" "x.txt" 3 2 EF) fs0)
    = RespChunk "Chunk 3 of 3 received" /\
  readFileSync (chunk_path uploads_dir "u1" 2)
    (snd (upload_chunk uploads_dir (chunk_req "u1" "x.txt" 3 2 EF) fs0)) = Some EF.
Proof.
  assert (H1 : segment "u1" = true) by reflexivity.
  assert (H2 : truthy_str (Some "x.txt") = true) by reflexivity.
  assert (H3 : safe_integer 2 = true) by reflexivity.
  assert (H4 : safe_integer 3 = true) by reflexivity.
  assert (H5 : is_dir uploads_dir fs0 = true) by (vm_compute; reflexivity).
  assert (H6 : readFileSync (NodePath.join uploads_dir "u1") fs0 = None)
    by (vm_compute; reflexivity).
  assert (H7 : is_dir (chunk_path uploads_dir "u1" 2) fs0 = false)
    by (vm_compute; reflexivity).
  do 7 (split; [assumption|]).
  destruct (upload_chunk_effect uploads_dir "u1" "x.txt" 3 2 EF fs0 H1 H2 H3 H4 H5 H6 H7)
    as (Hr & Hread & _).
  split; [exact Hr | exact Hread].
Defined.

(** Both ways a chunk is refused: a file at the staging path of [u9], and
    a directory at the path of chunk 0 in the staging directory of [u8]. *)
Lemma upload_chunk_blocked_example :
  (segment "u9" = true /\ truthy_str (Some "x.txt") = true /\
   safe_integer 0 = true /\ safe_integer 3 = true /\
   is_dir uploads_dir fs_blocked = true /\
   (is_Some (readFileSync (NodePath.join uploads_dir "u9") fs_blocked) \/
    (is_dir (NodePath.join uploads_dir "u9") fs_blocked = true /\
     is_dir (chunk_path uploads_dir "u9" 0) fs_blocked = true)) /\
   upload_chunk uploads_dir (chunk_req "u9" "x.txt" 3 0 AB) fs_blocked
   = (RespError "Failed to save chunk" None, fs_blocked)) /\
  (segment "u8" = true /\ truthy_str (Some "x.txt") = true /\
   safe_integer 0 = true /\ safe_integer 3 = true /\
   is_dir uploads_dir fs_chunk_dir = true /\
   (is_Some (readFileSync (NodePath.join uploads_dir "u8") fs_chunk_dir) \/
    (is_dir (NodePath.join uploads_dir "u8") fs_chunk_dir = true /\
     is_dir (chunk_path uploads_dir "u8" 0) fs_chunk_dir = true)) /\
   upload_chunk uploads_dir (chunk_req "u8" "x.txt" 3 0 AB) fs_chunk_dir
   = (RespError "Failed to save chunk" None, fs_chunk_dir)).
Proof.
  assert (H3 : safe_integer 0 = true) by reflexivity.
  assert (H4 : safe_integer 3 = true) by reflexivity.
  split.
  - assert (H1 : segment "u9" = true) by reflexivity.
    assert (H2 : truthy_str (Some "x.txt") = true) by reflexivity.
    assert (H5 : is_dir uploads_dir fs_blocked = true) by (vm_compute; reflexivity).
    assert (H6 : is_Some (readFileSync (NodePath.join uploads_dir "u9") fs_blocked) \/
                 (is_dir (NodePath.join uploads_dir "u9") fs_blocked = true /\
                  is_dir (chunk_path uploads_dir "u9" 0) fs_blocked = true))
      by (left; eexists; vm_compute; reflexivity).
    do 6 (split; [assumption|]).
    exact (upload_chunk_blocked uploads_dir "u9" "x.txt" 3 0 AB fs_blocked H1 H2 H3 H4 H5 H6).
  - assert (H1 : segment "u8" = true) by reflexivity.
    assert (H2 : truthy_str (Some "x.txt") = true) by reflexivity.
    assert (H5 : is_dir uploads_dir fs_chunk_dir = true) by (vm_compute; reflexivity).
    assert (H6 : is_Some (readFileSync (NodePath.join uploads_dir "u8") fs_chunk_dir) \/
                 (is_dir (NodePath.join uploads_dir "u8") fs_chunk_dir = true /\
                  is_dir (chunk_path uploads_dir "u8" 0) fs_chunk_dir = true))
      by (right; split; vm_compute; reflexivity).
    do 6 (split; [assumption|]).
    exact (upload_chunk_blocked uploads_dir "u8" "x.txt" 3 0 AB fs_chunk_dir H1 H2 H3 H4 H5 H6).
Defined.

Lemma upload_chunk_isolated_example :
  segment "u1" = true /\ segment "u2" = true /\ truthy_str (Some "y.bin") = true /\
  "u2" <> "u1" /\
  snd (upload_chunk uploads_dir (chunk_req "u2" "y.bin" 1 0 CD) fs_three)
    !! chunk_path uploads_dir "u1" 0 = Some (File AB).
Proof.
  assert (H4 : "u2" <> "u1") by discriminate.
  do 3 (split; [reflexivity|]). split; [exact H4|].
  destruct (upload_chunk_isolated uploads_dir "u2" "u1" "y.bin" 1 0 CD fs_three
              eq_refl eq_refl eq_refl H4) as (_ & Hchunks).
  rewrite Hchunks. vm_compute. reflexivity.
Defined.

Lemma upload_complete_footprint_example :
  let res := upload_complete uploads_dir (complete_req "u1" "x.txt" 3 "text/plain") fs_three in
  segment "u1" = true /\ segment "x.txt" = true /\
  truthy_str (Some "text/plain") = true /\ 3 <> 0 /\
  is_dir uploads_dir fs_three = true /\
  is_dir (final_path uploads_dir "u1" "x.txt") fs_three = false /\
  fst res = RespComplete artifact "x.txt" "text/plain" /\
  snd res !! NodePath.join uploads_dir "u1" = None.
Proof.
  intros res.
  assert (H4 : 3 <> 0) by lia.
  assert (H5 : is_dir uploads_dir fs_three = true) by (vm_compute; reflexivity).
  assert (H6 : is_dir (final_path uploads_dir "u1" "x.txt") fs_three = false)
    by (vm_compute; reflexivity).
  assert (Hr : fst res = RespComplete artifact "x.txt" "text/plain")
    by (vm_compute; reflexivity).
  do 3 (split; [reflexivity|]). split; [exact H4|]. split; [exact H5|].
  split; [exact H6|]. split; [exact Hr|].
  destruct (upload_complete_footprint uploads_dir "u1" "x.txt" "text/plain" 3 fs_three
              eq_refl eq_refl eq_refl H4 H5 H6) as (_ & Hsuccess).
  destruct (Hsuccess Hr) as (Hdir & _). exact Hdir.
Defined.

Lemma three_chunks_staged (n : nat) :
  (n < 3)%nat ->
  fs_three !! chunk_path uploads_dir "u1" (Z.of_nat n) = Some (File (nth n [AB; CD; EF] [])).
Proof.
  intros H. destruct n as [|[|[|n]]]; [vm_compute; reflexivity .. | lia].
Qed.

Lemma upload_complete_stray_entry_example :
  let payloads := [AB; CD; EF] in
  let res := upload_complete uploads_dir (complete_req "u1" "x.txt" 3 "text/plain") fs_stray in
  segment "u1" = true /\ segment "x.txt" = true /\
  truthy_str (Some "text/plain") = true /\ payloads <> [] /\
  is_dir uploads_dir fs_stray = true /\
  is_dir (final_path uploads_dir "u1" "x.txt") fs_stray = false /\
  is_dir (NodePath.join uploads_dir "u1") fs_stray = true /\
  (forall n, (n < length payloads)%nat ->
     fs_stray !! chunk_path uploads_dir "u1" (Z.of_nat n) = Some (File (nth n payloads []))) /\
  parent stray = NodePath.join uploads_dir "u1" /\
  fs_stray !! stray = Some (File AB) /\
  (forall n, (n < length payloads)%nat -> stray <> chunk_path uploads_dir "u1" (Z.of_nat n)) /\
  fst res = CombineFailed /\
  snd res !! artifact = Some (File (AB ++ CD ++ EF)).
Proof.
  intros payloads res.
  assert (H4 : payloads <> []) by discriminate.
  assert (H5 : is_dir uploads_dir fs_stray = true) by (vm_compute; reflexivity).
  assert (H6 : is_dir (final_path uploads_dir "u1" "x.txt") fs_stray = false)
    by (vm_compute; reflexivity).
  assert (H7 : is_dir (NodePath.join uploads_dir "u1") fs_stray = true)
    by (vm_compute; reflexivity).
  assert (H8 : forall n, (n < length payloads)%nat ->
     fs_stray !! chunk_path uploads_dir "u1" (Z.of_nat n) = Some (File (nth n payloads []))).
  { intros n Hn. destruct n as [|[|[|n]]]; [vm_compute; reflexivity .. | simpl in Hn; lia]. }
  assert (H9 : parent stray = NodePath.join uploads_dir "u1") by (vm_compute; reflexivity).
  assert (H10 : fs_stray !! stray = Some (File AB)) by (vm_compute; reflexivity).
  assert (H11 : forall n, (n < length payloads)%nat ->
                          stray <> chunk_path uploads_dir "u1" (Z.of_nat n)).
  { intros n Hn. destruct n as [|[|[|n]]]; [vm_compute; discriminate .. | simpl in Hn; lia]. }
  do 3 (split; [reflexivity|]).
  do 8 (split; [assumption|]).
  destruct (upload_complete_stray_entry uploads_dir "u1" "x.txt" "text/plain" payloads
              fs_stray stray (File AB) eq_refl eq_refl eq_refl H4 H5 H6 H7 H8 H9 H10 H11)
    as (Hr & Hc & _).
  split; [exact Hr | exact Hc].
Defined.

Lemma three_chunks_only (k : string) (v : Node) :
  parent k = NodePath.join uploads_dir "u1" -> fs_three !! k = Some v ->
  exists n, (n < 3)%nat /\ k = chunk_path uploads_dir "u1" (Z.of_nat n).
Proof.
  intros Hp Hk. unfold fs_three in Hk.
  destruct (decide (k = chunk_path uploads_dir "u1" 0)) as [->|N0]; [exists O; split; [lia | reflexivity]|].
  destruct (decide (k = chunk_path uploads_dir "u1" 1)) as [->|N1]; [exists 1%nat; split; [lia | reflexivity]|].
  destruct (decide (k = chunk_path uploads_dir "u1" 2)) as [->|N2]; [exists 2%nat; split; [lia | reflexivity]|].
  exfalso. rewrite staged_other in Hk.
  - unfold fs0 in Hk. destruct (decide (k = uploads_dir)) as [->|Nu].
    + vm_compute in Hp. discriminate.
    + rewrite lookup_singleton_ne in Hk by congruence. discriminate.
  - intros ->. vm_compute in Hp. discriminate.
  - intros i [<-|[<-|[<-|[]]]]; assumption.
Qed.

Lemma upload_complete_twice_example :
  let payloads := [AB; CD; EF] in
  let req := complete_req "u1" "x.txt" 3 "text/plain" in
  let first := Deferred.upload_complete_deferred uploads_dir req fs_three in
  let flushed := Deferred.settle (Deferred.stream_of first) (Deferred.state_of first) in
  let second := Deferred.upload_complete_deferred uploads_dir req flushed in
  segment "u1" = true /\ segment "x.txt" = true /\
  truthy_str (Some "text/plain") = true /\ payloads <> [] /\
  safe_integer (Z.of_nat (length payloads)) = true /\
  is_dir uploads_dir fs_three = true /\
  is_dir (final_path uploads_dir "u1" "x.txt") fs_three = false /\
  is_dir (NodePath.join uploads_dir "u1") fs_three = true /\
  (forall n, (n < length payloads)%nat ->
     fs_three !! chunk_path uploads_dir "u1" (Z.of_nat n) = Some (File (nth n payloads []))) /\
  (forall k v, parent k = NodePath.join uploads_dir "u1" -> fs_three !! k = Some v ->
     exists n, (n < length payloads)%nat /\ k = chunk_path uploads_dir "u1" (Z.of_nat n)) /\
  flushed !! artifact = Some (File (AB ++ CD ++ EF)) /\
  Deferred.reply_of
    (Deferred.upload_complete_deferred uploads_dir req
       (Deferred.progress (Deferred.stream_of first) 3 (Deferred.state_of first)))
  = CombineFailed /\
  Deferred.reply_of second = CombineFailed /\
  Deferred.settle (Deferred.stream_of second) (Deferred.state_of second) !! artifact
  = Some (File []).
Proof.
  intros payloads req first flushed second.
  assert (H1 : segment "u1" = true) by reflexivity.
  assert (H2 : segment "x.txt" = true) by reflexivity.
  assert (H3 : truthy_str (Some "text/plain") = true) by reflexivity.
  assert (H4 : payloads <> []) by discriminate.
  assert (H4' : safe_integer (Z.of_nat (length payloads)) = true) by reflexivity.
  assert (H5 : is_dir uploads_dir fs_three = true) by (vm_compute; reflexivity).
  assert (H6 : is_dir (final_path uploads_dir "u1" "x.txt") fs_three = false)
    by (vm_compute; reflexivity).
  assert (H7 : is_dir (NodePath.join uploads_dir "u1") fs_three = true)
    by (vm_compute; reflexivity).
  pose proof three_chunks_staged as H8. pose proof three_chunks_only as H9.
  do 10 (split; [assumption|]).
  destruct (upload_complete_twice uploads_dir "u1" "x.txt" "text/plain" payloads fs_three
              H1 H2 H3 H4 H4' H5 H6 H7 H8 H9) as (_ & _ & Hc1 & _ & Hmid & Hr & _ & Hc2).
  split; [exact Hc1|]. split; [exact (Hmid 3%nat)|]. split; [exact Hr | exact Hc2].
Defined.

Lemma upload_complete_negative_example :
  segment "u1" = true /\ segment "x.txt" = true /\
  truthy_str (Some "text/plain") = true /\ -1 < 0 /\
  is_dir uploads_dir fs0 = true /\
  is_dir (final_path uploads_dir "u1" "x.txt") fs0 = false /\
  fs0 !! NodePath.join uploads_dir "u1" = None /\
  upload_complete uploads_dir (complete_req "u1" "x.txt" (-1) "text/plain") fs0
  = (CombineFailed, <[artifact := File []]> fs0).
Proof.
  assert (H4 : -1 < 0) by lia.
  assert (H5 : is_dir uploads_dir fs0 = true) by (vm_compute; reflexivity).
  assert (H6 : is_dir (final_path uploads_dir "u1" "x.txt") fs0 = false)
    by (vm_compute; reflexivity).
  assert (H7 : fs0 !! NodePath.join uploads_dir "u1" = None) by (vm_compute; reflexivity).
  do 3 (split; [reflexivity|]).
  do 4 (split; [assumption|]).
  exact (upload_complete_negative uploads_dir "u1" "x.txt" "text/plain" (-1) fs0
           eq_refl eq_refl eq_refl H4 H5 H6 H7).
Defined.

Lemma fs0_fresh (k : string) :
  parent k = NodePath.join uploads_dir "u1" -> fs0 !! k = None.
Proof.
  intros Hk. destruct (decide (k = uploads_dir)) as [->|Hne].
  - vm_compute in Hk. discriminate.
  - apply lookup_singleton_ne. congruence.
Qed.

Lemma upload_then_send_example :
  let payloads := [AB; CD; EF] in
  let req := send_req "alice@example.org" (One "bob@example.org") "report"
               "see attachment" (One artifact) in
  let writes := map (fun n => (Z.of_nat n, nth n payloads [])) [1; 2; 0]%nat in
  let f1 := put_chunks uploads_dir "u1" "x.txt" 3 writes (fs world0) in
  let assembled := Deferred.upload_complete_deferred uploads_dir
                     (complete_req "u1" "x.txt" 3 "text/plain") f1 in
  let on_disk := Deferred.progress (Deferred.stream_of assembled) 3
                   (Deferred.state_of assembled) in
  let res := send 100 None [] req (with_fs world0 on_disk) in
  segment "u1" = true /\ segment "x.txt" = true /\ no_dash "u1" = true /\
  truthy_str (Some "text/plain") = true /\ payloads <> [] /\
  safe_integer (Z.of_nat (length payloads)) = true /\
  Permutation [1; 2; 0]%nat (seq 0 (length payloads)) /\
  is_dir uploads_dir (fs world0) = true /\
  is_dir artifact (fs world0) = false /\
  readFileSync (NodePath.join uploads_dir "u1") (fs world0) = None /\
  (forall k, parent k = NodePath.join uploads_dir "u1" -> fs world0 !! k = None) /\
  wf (db world0) /\ valid_send req = true /\
  fst res = RespSent 1 /\
  trace (snd res) =
    [ Saved 1 pending;
      Delivered
        {| msg_to := ["bob@example.org"];
           msg_from := "alice@example.org";
           msg_subject := "report";
           msg_text := "see attachment";
           msg_html := "see attachment";
           msg_attachments :=
             Some [ {| ad_content := base64 [Byte.x41; Byte.x42; Byte.x43];
                       ad_filename := "x.txt";
                       ad_type := "text/plain";
                       ad_disposition := "attachment" |} ] |};
      StatusSet 1 sent ] /\
  option_map status (getEmailById 1 (db (snd res))) = Some sent /\
  getAttachmentsByEmailId 1 (db (snd res)) = [] /\
  readFileSync artifact (fs (snd res)) = None.
Proof.
  intros payloads req writes f1 assembled on_disk res.
  assert (H1 : segment "u1" = true) by reflexivity.
  assert (H2 : segment "x.txt" = true) by reflexivity.
  assert (H3 : no_dash "u1" = true) by reflexivity.
  assert (H4 : truthy_str (Some "text/plain") = true) by reflexivity.
  assert (H5 : payloads <> []) by discriminate.
  assert (H5' : safe_integer (Z.of_nat (length payloads)) = true) by reflexivity.
  assert (H6 : Permutation [1; 2; 0]%nat (seq 0 (length payloads))).
  { simpl. eapply perm_trans; [apply perm_skip, perm_swap | ].
    eapply perm_trans; [apply perm_swap | apply perm_skip; reflexivity]. }
  assert (H7 : is_dir uploads_dir (fs world0) = true) by (vm_compute; reflexivity).
  assert (H8 : is_dir artifact (fs world0) = false) by (vm_compute; reflexivity).
  assert (H9 : readFileSync (NodePath.join uploads_dir "u1") (fs world0) = None)
    by (vm_compute; reflexivity).
  pose proof fs0_fresh as H10.
  assert (H11 : wf (db world0)) by (split; [simpl; lia | constructor]).
  assert (H12 : valid_send req = true) by reflexivity.
  do 13 (split; [assumption|]).
  destruct (upload_then_send uploads_dir "u1" "x.txt" "text/plain" payloads [1; 2; 0]%nat
              3%nat 100
              "alice@example.org" (One "bob@example.org") "report" "see attachment" world0
              H1 H2 H3 H4 H5 H5' H6 H7 H8 H9 H10 H11 H12)
    as (_ & _ & Hr & Ht & _ & Hst & Hrows & Hgone & _).
  split; [exact Hr|]. split; [exact Ht|].
  split; [exact Hst|]. split; [exact Hrows | exact Hgone].
Defined.

Lemma fileNameOf_cases_example :
  no_slash "9f3c-77aa" = true /\ no_slash "x.txt" = true /\
  fileNameOf (final_path uploads_dir "9f3c-77aa" "x.txt") = "77aa-x.txt".
Proof.
  do 2 (split; [reflexivity|]).
  destruct (fileNameOf_cases uploads_dir "9f3c-77aa" "x.txt" eq_refl eq_refl)
    as (_ & Hdash & _).
  exact (Hdash "9f3c" "77aa" eq_refl eq_refl).
Defined.

End MoreInstances.
